(** * Strawberry-chess: the rules engine of [chess.py]

    A shallow embedding of the engine part of [chess.py] (move generation,
    the attack oracle, castling, checkmate search and the click-driven
    state machine of [main]) together with the properties stated for it.

    Python objects.  A [Piece] is a mutable object that the board, the
    variable [selected_piece] and local variables such as [rook] all refer
    to.  The embedding keeps this sharing: pieces live in a store ([Heap]),
    and a board cell holds a reference into the store or nothing (Python's
    [0]).  Field assignments such as [self.row, self.col = row, col] are
    updates of the store.  Lists and tuples are modelled by value; every
    place where the source copies one ([copy.deepcopy], [list.copy]) is
    spelled out.

    Failures.  Reading an attribute of an empty cell ([0 .color]) raises
    [AttributeError] and ends the program; functions that can do so return
    an [option], [None] being the uncaught exception. *)

From Stdlib Require Import ZArith Lia Bool.
From stdpp Require Import list numbers strings pretty.

Local Open Scope Z_scope.

(** ** Data model *)

(** [Piece.name]: one of the characters p, r, n, b, q, k. *)
Inductive Name := Pawn | Rook | Knight | Bishop | Queen | King.

(** [Piece.color]: 'w' or 'b'. *)
Inductive Color := W | B.

Definition name_eqb (a b : Name) : bool :=
  match a, b with
  | Pawn, Pawn | Rook, Rook | Knight, Knight
  | Bishop, Bishop | Queen, Queen | King, King => true
  | _, _ => false
  end.

Definition color_eqb (a b : Color) : bool :=
  match a, b with
  | W, W | B, B => true
  | _, _ => false
  end.

(** The attributes of a [Piece] object (the [image] attribute belongs to
    the presentation layer and is left out). *)
Record Piece := mkPiece {
  name : Name;
  row : Z;
  col : Z;
  color : Color;
  has_moved : bool
}.

(** [Piece.__init__]: a new piece has [has_moved = False]. *)
Definition new_Piece (nm : Name) (r c : Z) (cl : Color) : Piece :=
  mkPiece nm r c cl false.

Global Instance Piece_inhabited : Inhabited Piece :=
  populate (new_Piece Pawn 0 0 W).

(** The object store: a reference is the allocation index of the object. *)
Abbreviation ref := nat.
Abbreviation Heap := (list Piece).

(** A board cell: [None] is Python's [0], [Some x] a reference to a piece. *)
Abbreviation Cell := (option ref).
Abbreviation Board := (list (list Cell)).
Abbreviation Square := (Z * Z)%type.

Definition ROWS : Z := 8.
Definition COLS : Z := 8.

(** [0 <= r < ROWS and 0 <= c < COLS] *)
Definition on_board (r c : Z) : bool :=
  (0 <=? r) && (r <? ROWS) && (0 <=? c) && (c <? COLS).

(** [board[r][c]].  The source indexes the board at squares it has tested
    against the bounds, at the fixed squares of castling, and at the
    coordinates of a piece ([board[new_row][self.col]] in
    [get_pawn_moves], [board[selected_piece.row][col]] in [main]).  On a
    grid whose pieces carry the coordinates of their cells ([grid] and
    [placed] below, which every state of the program satisfies) all these
    indices are in range.  Elsewhere the model reads an empty cell past the
    last index and the first row or column at a negative one, where Python
    would raise or count from the end; statements that read the board at
    the coordinates of a piece say that these are not negative. *)
Definition board_at (board : Board) (r c : Z) : Cell :=
  match board !! Z.to_nat r with
  | Some rw => default None (rw !! Z.to_nat c)
  | None => None
  end.

(** [board[r][c] = x] *)
Definition board_set (board : Board) (r c : Z) (x : Cell) : Board :=
  alter (fun rw => <[Z.to_nat c := x]> rw) (Z.to_nat r) board.

(** Attribute updates of the object [x]. *)
Definition with_pos (r c : Z) (p : Piece) : Piece :=
  mkPiece (name p) r c (color p) (has_moved p).

Definition with_moved (m : bool) (p : Piece) : Piece :=
  mkPiece (name p) (row p) (col p) (color p) m.

(** [x.row, x.col = r, c] *)
Definition set_pos (h : Heap) (x : ref) (r c : Z) : Heap :=
  alter (with_pos r c) x h.

(** [x.has_moved = m] *)
Definition set_moved (h : Heap) (x : ref) (m : bool) : Heap :=
  alter (with_moved m) x h.

Definition sq_eqb (a b : Square) : bool :=
  (fst a =? fst b) && (snd a =? snd b).

(** [sq in moves] *)
Definition sq_in (sq : Square) (moves : list Square) : bool :=
  existsb (sq_eqb sq) moves.

(** [ep == (r, c)] where [ep] is a tuple or [None]. *)
Definition ep_is (ep : option Square) (r c : Z) : bool :=
  match ep with
  | Some sq => sq_eqb sq (r, c)
  | None => false
  end.

Definition opponent (cl : Color) : Color :=
  match cl with W => B | B => W end.

(** ** Piece move generators *)

(** [Piece.get_pawn_moves] *)
Definition get_pawn_moves (h : Heap) (board : Board) (self : ref)
    (en_passant_target : option Square) : list Square :=
  let me := h !!! self in
  let direction := match color me with W => -1 | B => 1 end in
  let start_row := match color me with W => 6 | B => 1 end in
  let new_row := row me + direction in
  let diagonal (new_col : Z) : list Square :=
    if (0 <=? new_col) && (new_col <? COLS) && (0 <=? new_row) && (new_row <? ROWS)
    then
      (match board_at board new_row new_col with
       | Some target =>
           if negb (color_eqb (color (h !!! target)) (color me))
           then [(new_row, new_col)] else []
       | None => []
       end)
      ++ (if ep_is en_passant_target new_row new_col
          then [(new_row, new_col)] else [])
    else [] in
  (if (0 <=? new_row) && (new_row <? ROWS)
      && bool_decide (board_at board new_row (col me) = None)
   then
     (new_row, col me) ::
     (let new_row_two := new_row + direction in
      if (row me =? start_row) && (0 <=? new_row_two) && (new_row_two <? ROWS)
         && bool_decide (board_at board new_row_two (col me) = None)
      then [(new_row_two, col me)] else [])
   else [])
  ++ diagonal (col me - 1)
  ++ diagonal (col me + 1).

(** The [while] loop shared by [get_rook_moves] and [get_bishop_moves]:
    walk from [(r, c)] in direction [(dr, dc)] while on the board.  The
    loop leaves the board after at most eight steps; [fuel] bounds it. *)
Fixpoint slide (fuel : nat) (h : Heap) (board : Board) (mine : Color)
    (r c dr dc : Z) : list Square :=
  match fuel with
  | O => []
  | S fuel' =>
      if on_board r c then
        match board_at board r c with
        | None => (r, c) :: slide fuel' h board mine (r + dr) (c + dc) dr dc
        | Some x =>
            if negb (color_eqb (color (h !!! x)) mine) then [(r, c)] else []
        end
      else []
  end.

Definition slide_from (h : Heap) (board : Board) (self : ref)
    (directions : list (Z * Z)) : list Square :=
  let me := h !!! self in
  flat_map (fun d => slide 8 h board (color me)
                       (row me + fst d) (col me + snd d) (fst d) (snd d))
           directions.

(** [Piece.get_rook_moves] *)
Definition get_rook_moves (h : Heap) (board : Board) (self : ref) : list Square :=
  slide_from h board self [(-1, 0); (1, 0); (0, -1); (0, 1)].

(** [Piece.get_bishop_moves] *)
Definition get_bishop_moves (h : Heap) (board : Board) (self : ref) : list Square :=
  slide_from h board self [(-1, -1); (-1, 1); (1, -1); (1, 1)].

(** [Piece.get_queen_moves] *)
Definition get_queen_moves (h : Heap) (board : Board) (self : ref) : list Square :=
  get_rook_moves h board self ++ get_bishop_moves h board self.

(** [Piece.get_knight_moves] *)
Definition get_knight_moves (h : Heap) (board : Board) (self : ref) : list Square :=
  let me := h !!! self in
  flat_map (fun offset =>
      let r := row me + fst offset in
      let c := col me + snd offset in
      if on_board r c then
        match board_at board r c with
        | None => [(r, c)]
        | Some target =>
            if negb (color_eqb (color (h !!! target)) (color me))
            then [(r, c)] else []
        end
      else [])
    [(-2, -1); (-2, 1); (-1, -2); (-1, 2); (1, -2); (1, 2); (2, -1); (2, 1)].

(** [Piece.get_valid_moves] for a piece that is not a king.  The attack
    oracle below skips kings before it asks for a piece's moves, so this
    is the dispatch it runs; the king case of the full dispatch is
    [get_king_moves], defined after the oracle. *)
Definition get_piece_moves (h : Heap) (board : Board) (self : ref)
    (en_passant_target : option Square) : list Square :=
  match name (h !!! self) with
  | Pawn => get_pawn_moves h board self en_passant_target
  | Rook => get_rook_moves h board self
  | Knight => get_knight_moves h board self
  | Bishop => get_bishop_moves h board self
  | Queen => get_queen_moves h board self
  | King => []
  end.

(** ** Attack and check oracle *)

(** One round of the loop over the opposing pieces: the piece in [cell]
    is of [opponent_color], is not a king, and has [sq] among its moves. *)
Definition attacks (h : Heap) (board : Board) (opponent_color : Color)
    (sq : Square) (cell : Cell) : bool :=
  match cell with
  | Some piece =>
      color_eqb (color (h !!! piece)) opponent_color
      && negb (name_eqb (name (h !!! piece)) King)
      && sq_in sq (get_piece_moves h board piece None)
  | None => false
  end.

(** [is_square_under_attack] *)
Definition is_square_under_attack (h : Heap) (board : Board) (square : Square)
    (cl : Color) : bool :=
  existsb (attacks h board (opponent cl) square) (concat board).

(** The inner loop of the king search in [is_in_check]: the first king of
    the colour in one row ([break] leaves only this inner loop). *)
Fixpoint king_in_row (h : Heap) (cl : Color) (rw : list Cell) : option Square :=
  match rw with
  | [] => None
  | Some piece :: rest =>
      if name_eqb (name (h !!! piece)) King && color_eqb (color (h !!! piece)) cl
      then Some (row (h !!! piece), col (h !!! piece))
      else king_in_row h cl rest
  | None :: rest => king_in_row h cl rest
  end.

(** The outer loop: a later row overrides an earlier one. *)
Definition find_king (h : Heap) (board : Board) (cl : Color) : option Square :=
  fold_left (fun king_pos rw =>
               match king_in_row h cl rw with
               | Some pos => Some pos
               | None => king_pos
               end) board None.

(** [is_in_check] *)
Definition is_in_check (h : Heap) (board : Board) (cl : Color) : bool :=
  match find_king h board cl with
  | None => false
  | Some king_pos => existsb (attacks h board (opponent cl) king_pos) (concat board)
  end.

(** [check_win_condition]: [(game_over, winner)]. *)
Definition has_king (h : Heap) (board : Board) (cl : Color) : bool :=
  existsb (fun cell => match cell with
                       | Some piece => name_eqb (name (h !!! piece)) King
                                       && color_eqb (color (h !!! piece)) cl
                       | None => false
                       end) (concat board).

Definition check_win_condition (h : Heap) (board : Board) : bool * option Color :=
  if negb (has_king h board W) then (true, Some B)
  else if negb (has_king h board B) then (true, Some W)
  else (false, None).

(** ** Castling and king moves *)

Definition home_row (cl : Color) : Z :=
  match cl with W => 7 | B => 0 end.

(** The rook test shared by both castling functions:
    [rook == 0 or rook.name != 'r' or rook.color != color or rook.has_moved]. *)
Definition rook_unfit (h : Heap) (rook : Cell) (cl : Color) : bool :=
  match rook with
  | None => true
  | Some x => negb (name_eqb (name (h !!! x)) Rook)
              || negb (color_eqb (color (h !!! x)) cl)
              || has_moved (h !!! x)
  end.

(** [can_castle_kingside] *)
Definition can_castle_kingside (h : Heap) (board : Board) (cl : Color) : bool :=
  let r := home_row cl in
  let rook := board_at board r 7 in
  if rook_unfit h rook cl then false
  else if existsb (fun c => negb (bool_decide (board_at board r c = None))) [5; 6]
  then false
  else if existsb (fun c => is_square_under_attack h board (r, c) cl) [4; 5; 6]
  then false
  else true.

(** [can_castle_queenside] *)
Definition can_castle_queenside (h : Heap) (board : Board) (cl : Color) : bool :=
  let r := home_row cl in
  let rook := board_at board r 0 in
  if rook_unfit h rook cl then false
  else if existsb (fun c => negb (bool_decide (board_at board r c = None))) [1; 2; 3]
  then false
  else if existsb (fun c => is_square_under_attack h board (r, c) cl) [2; 3; 4]
  then false
  else true.

Definition king_directions : list (Z * Z) :=
  [(-1, -1); (-1, 0); (-1, 1); (0, -1); (0, 1); (1, -1); (1, 0); (1, 1)].

(** One round of the loop of [get_king_moves]: the king object is moved in
    the store, [is_in_check] is asked, and the object is moved back. *)
Definition king_step (board : Board) (self : ref)
    (acc : list Square * Heap) (d : Z * Z) : list Square * Heap :=
  let '(moves, h) := acc in
  let r := row (h !!! self) + fst d in
  let c := col (h !!! self) + snd d in
  if on_board r c then
    let target := board_at board r c in
    if match target with
       | None => true
       | Some t => negb (color_eqb (color (h !!! t)) (color (h !!! self)))
       end
    then
      let original_row := row (h !!! self) in
      let original_col := col (h !!! self) in
      let h1 := set_pos h self r c in
      let in_check := is_in_check h1 board (color (h1 !!! self)) in
      let h2 := set_pos h1 self original_row original_col in
      if negb in_check then (moves ++ [(r, c)], h2) else (moves, h2)
    else (moves, h)
  else (moves, h).

(** [Piece.get_king_moves]: the moves and the store it leaves behind. *)
Definition get_king_moves (h : Heap) (board : Board) (self : ref)
    : list Square * Heap :=
  let '(moves, h') := fold_left (king_step board self) king_directions ([], h) in
  let me := h' !!! self in
  if negb (has_moved me) && negb (is_in_check h' board (color me)) then
    let moves :=
      if can_castle_kingside h' board (color me)
      then moves ++ [(row me, col me + 2)] else moves in
    let moves :=
      if can_castle_queenside h' board (color me)
      then moves ++ [(row me, col me - 2)] else moves in
    (moves, h')
  else (moves, h').

(** [Piece.get_valid_moves] *)
Definition get_valid_moves (h : Heap) (board : Board) (self : ref)
    (en_passant_target : option Square) : list Square * Heap :=
  match name (h !!! self) with
  | King => get_king_moves h board self
  | _ => (get_piece_moves h board self en_passant_target, h)
  end.

(** ** The initial position *)

(** [board[r][c] = Piece(nm, r, c, cl)] on the store and board built so far. *)
Definition place (nm : Name) (r c : Z) (cl : Color) (acc : Heap * Board)
    : Heap * Board :=
  let '(h, board) := acc in
  (h ++ [new_Piece nm r c cl], board_set board r c (Some (length h))).

Definition back_rank : list Name :=
  [Rook; Knight; Bishop; Queen; King; Bishop; Knight; Rook].

Definition place_rank (r : Z) (cl : Color) (names : list Name)
    (acc : Heap * Board) : Heap * Board :=
  fold_left (fun acc cn => place (snd cn) r (Z.of_nat (fst cn)) cl acc)
            (imap (fun i nm => (i, nm)) names) acc.

(** [create_board], allocating into the store [h]. *)
Definition create_board (h : Heap) : Heap * Board :=
  let board := replicate 8 (replicate 8 None) in
  let acc := place_rank 0 B back_rank (h, board) in
  let acc := place_rank 1 B (replicate 8 Pawn) acc in
  let acc := place_rank 7 W back_rank acc in
  place_rank 6 W (replicate 8 Pawn) acc.

(** ** Deep copies *)

(** [Piece.__deepcopy__]: a new [Piece] built by the constructor, then
    [has_moved] copied over. *)
Definition deepcopy_piece (p : Piece) : Piece :=
  with_moved (has_moved p) (new_Piece (name p) (row p) (col p) (color p)).

(** The memo of [copy.deepcopy]: an object met twice is copied once. *)
Abbreviation Memo := (list (ref * ref)).

Fixpoint memo_find (memo : Memo) (x : ref) : option ref :=
  match memo with
  | [] => None
  | (old, new) :: rest => if Nat.eqb old x then Some new else memo_find rest x
  end.

Definition deepcopy_cell (acc : Memo * Heap) (cell : Cell) : Cell * (Memo * Heap) :=
  match cell with
  | None => (None, acc)
  | Some x =>
      let '(memo, h) := acc in
      match memo_find memo x with
      | Some y => (Some y, acc)
      | None =>
          let y := length h in
          (Some y, ((x, y) :: memo, h ++ [deepcopy_piece (h !!! x)]))
      end
  end.

Fixpoint deepcopy_row (acc : Memo * Heap) (rw : list Cell)
    : list Cell * (Memo * Heap) :=
  match rw with
  | [] => ([], acc)
  | cell :: rest =>
      let '(cell', acc1) := deepcopy_cell acc cell in
      let '(rest', acc2) := deepcopy_row acc1 rest in
      (cell' :: rest', acc2)
  end.

Fixpoint deepcopy_rows (acc : Memo * Heap) (rows : Board)
    : Board * (Memo * Heap) :=
  match rows with
  | [] => ([], acc)
  | rw :: rest =>
      let '(rw', acc1) := deepcopy_row acc rw in
      let '(rest', acc2) := deepcopy_rows acc1 rest in
      (rw' :: rest', acc2)
  end.

(** [copy.deepcopy(board)]: the copy and the store holding its pieces. *)
Definition deepcopy_board (h : Heap) (board : Board) : Board * Heap :=
  let '(board', (_, h')) := deepcopy_rows ([], h) board in
  (board', h').

(** ** Simulating a move on a scratch board *)

(** The lines shared by [move_puts_king_in_check] and the inner loop of
    [is_checkmate]: copy the board, lift the piece from the square its
    [row] and [col] name and put it on [move].  The copied pieces are
    reachable from the scratch board only; the store that holds them is
    local to the simulation. *)
Definition scratch_move (h : Heap) (board : Board) (piece : ref) (move : Square)
    : option (Heap * Board) :=
  let '(temp_board, h) := deepcopy_board h board in
  let temp_piece := board_at temp_board (row (h !!! piece)) (col (h !!! piece)) in
  let temp_board := board_set temp_board (row (h !!! piece)) (col (h !!! piece)) None in
  let temp_board := board_set temp_board (fst move) (snd move) temp_piece in
  match temp_piece with
  | None => None
  | Some tp => Some (set_pos h tp (fst move) (snd move), temp_board)
  end.

(** [move_puts_king_in_check] *)
Definition move_puts_king_in_check (h : Heap) (board : Board) (piece : ref)
    (move : Square) (cl : Color) : option bool :=
  '(h', temp_board) ← scratch_move h board piece move;
  Some (is_in_check h' temp_board cl).

(** The rook displacement of the castling branches, in [is_checkmate] and
    in [main]:
    [rook = b[r][from]; b[r][from] = 0; b[r][to] = rook;
     rook.row, rook.col = r, to], and in [main] also
    [rook.has_moved = True] ([mark]). *)
Definition shift_rook (mark : bool) (h : Heap) (board : Board) (r from to : Z)
    : option (Heap * Board) :=
  let rook := board_at board r from in
  let board := board_set board r from None in
  let board := board_set board r to rook in
  match rook with
  | None => None
  | Some x =>
      let h := set_pos h x r to in
      Some (if mark then set_moved h x true else h, board)
  end.

(** The body of the innermost loop of [is_checkmate]: is [cl] in check
    once [piece] has gone to [move] on a scratch board? *)
Definition in_check_after (h : Heap) (board : Board) (piece : ref)
    (move : Square) (cl : Color) : option bool :=
  '(h', temp_board) ← scratch_move h board piece move;
  '(h', temp_board) ←
    (if name_eqb (name (h' !!! piece)) King && (Z.abs (snd move - 4) =? 2) then
       if snd move - 4 =? 2 then shift_rook false h' temp_board (fst move) 7 5
       else if snd move - 4 =? -2 then shift_rook false h' temp_board (fst move) 0 3
       else Some (h', temp_board)
     else Some (h', temp_board));
  Some (is_in_check h' temp_board cl).

(** [for move in moves: ... if not is_in_check(temp_board, color): return False]:
    [Some true] when the loop runs to its end. *)
Fixpoint no_escape (h : Heap) (board : Board) (piece : ref) (cl : Color)
    (moves : list Square) : option bool :=
  match moves with
  | [] => Some true
  | move :: rest =>
      match in_check_after h board piece move cl with
      | None => None
      | Some true => no_escape h board piece cl rest
      | Some false => Some false
      end
  end.

(** The loops over the pieces in [is_checkmate]. *)
Fixpoint checkmate_scan (h : Heap) (board : Board) (cl : Color)
    (cells : list Cell) : option (bool * Heap) :=
  match cells with
  | [] => Some (true, h)
  | None :: rest => checkmate_scan h board cl rest
  | Some piece :: rest =>
      if color_eqb (color (h !!! piece)) cl then
        let '(moves, h1) := get_valid_moves h board piece None in
        match no_escape h1 board piece cl moves with
        | None => None
        | Some true => checkmate_scan h1 board cl rest
        | Some false => Some (false, h1)
        end
      else checkmate_scan h board cl rest
  end.

(** [is_checkmate]: the answer and the store left behind. *)
Definition is_checkmate (h : Heap) (board : Board) (cl : Color)
    : option (bool * Heap) :=
  if negb (is_in_check h board cl) then Some (false, h)
  else checkmate_scan h board cl (concat board).

(** ** The game loop of [main] *)

(** The tuple pushed on [move_stack]. *)
Record Snapshot := mkSnapshot {
  snap_board : Board;
  snap_turn : Color;
  snap_en_passant_target : option Square;
  snap_move_history : list string;
  snap_captured_white : list string;
  snap_captured_black : list string
}.

(** The local variables of [main], and the object store.  [move_stack] has
    its top (the last element of the Python list) first. *)
Record State := mkState {
  heap : Heap;
  board : Board;
  selected_piece : option ref;
  valid_moves : list Square;
  turn : Color;
  game_over : bool;
  winner : option Color;
  move_history : list string;
  captured_white : list string;
  captured_black : list string;
  move_stack : list Snapshot;
  en_passant_target : option Square
}.

(** The key that answers the prompt of [promote_pawn]. *)
Inductive Promotion := K_q | K_r | K_b | K_n.

Definition promotion_name (key : Promotion) : Name :=
  match key with
  | K_q => Queen | K_r => Rook | K_b => Bishop | K_n => Knight
  end.

(** The events [main] reacts to.  [MouseSquare r c key] is a click on the
    board square [(r, c)], [0 <= r, c < 8]; [key] answers the promotion
    prompt should the click promote a pawn.  [MouseOutside] is a click on
    the border or on the sidebar off the button, for which
    [get_square_under_mouse] returns [(None, None, None)]. *)
Inductive Event :=
  | MouseUndoButton
  | MouseSquare (r c : Z) (key : Promotion)
  | MouseOutside
  | KeyU
  | KeyR.

Definition name_str (nm : Name) : string :=
  match nm with
  | Pawn => "p" | Rook => "r" | Knight => "n"
  | Bishop => "b" | Queen => "q" | King => "k"
  end.

(** [name.upper()] *)
Definition name_upper (nm : Name) : string :=
  match nm with
  | Pawn => "P" | Rook => "R" | Knight => "N"
  | Bishop => "B" | Queen => "Q" | King => "K"
  end.

(** ['White' if c == 'w' else 'Black'] *)
Definition side_str (cl : Color) : string :=
  match cl with W => "White" | B => "Black" end.

(** The two [if captured_piece.color == 'w': ... else: ...] blocks. *)
Definition record_capture (h : Heap) (x : ref) (cw cb : list string)
    : list string * list string :=
  let tag := name_str (name (h !!! x)) +:+ "p" in
  if color_eqb (color (h !!! x)) W then (cw ++ [tag], cb) else (cw, cb ++ [tag]).

(** The f-string of the move record. *)
Definition move_san (move_number : Z) (side : Color) (piece : Piece)
    (r c : Z) : string :=
  pretty move_number +:+ ". " +:+ side_str side +:+ ": "
  +:+ name_upper (name piece)
  +:+ " from (" +:+ pretty (row piece) +:+ ", " +:+ pretty (col piece)
  +:+ ") to (" +:+ pretty r +:+ ", " +:+ pretty c +:+ ")".

(** [[m for m in moves if not move_puts_king_in_check(board, piece, m, turn)]] *)
Fixpoint legal_filter (h : Heap) (board : Board) (piece : ref) (cl : Color)
    (moves : list Square) : option (list Square) :=
  match moves with
  | [] => Some []
  | move :: rest =>
      bad ← move_puts_king_in_check h board piece move cl;
      rest' ← legal_filter h board piece cl rest;
      Some (if negb bad then move :: rest' else rest')
  end.

(** The two undo handlers (the button and the U key) share their body. *)
Definition undo (st : State) : State :=
  match move_stack st with
  | [] => st
  | previous_state :: stack =>
      let '(board', h') := deepcopy_board (heap st) (snap_board previous_state) in
      mkState h' board' None [] (snap_turn previous_state) false None
              (snap_move_history previous_state)
              (snap_captured_white previous_state)
              (snap_captured_black previous_state)
              stack
              (snap_en_passant_target previous_state)
  end.

(** The R key. *)
Definition restart (st : State) : State :=
  let '(h', board') := create_board (heap st) in
  mkState h' board' None [] W false None [] [] [] [] None.

(** The state [main] starts its loop in. *)
Definition initial_state : State :=
  let '(h, board) := create_board [] in
  mkState h board None [] W false None [] [] [] [] None.

(** What the commit branch has changed when it reaches the bookkeeping:
    the store, the board, the piece [selected_piece] now refers to, and the
    two capture lists. *)
Record Moved := mkMoved {
  mv_heap : Heap;
  mv_board : Board;
  mv_piece : ref;
  mv_captured_white : list string;
  mv_captured_black : list string
}.

(** The en-passant block of the commit branch. *)
Definition en_passant_capture (h : Heap) (board : Board) (sel : ref)
    (ep : option Square) (r c : Z) (cw cb : list string)
    : option (Board * (list string * list string)) :=
  if name_eqb (name (h !!! sel)) Pawn && ep_is ep r c then
    let capture_row := row (h !!! sel) in
    let capture_col := c in
    let captured_piece := board_at board capture_row capture_col in
    let board := board_set board capture_row capture_col None in
    match captured_piece with
    | None => None
    | Some x => Some (board, record_capture h x cw cb)
    end
  else Some (board, (cw, cb)).

(** The castling block of the commit branch. *)
Definition castle_rook (h : Heap) (board : Board) (sel : ref) (r c : Z)
    : option (Heap * Board) :=
  if name_eqb (name (h !!! sel)) King && (Z.abs (c - 4) =? 2) then
    if c - 4 =? 2 then shift_rook true h board r 7 5
    else if c - 4 =? -2 then shift_rook true h board r 0 3
    else Some (h, board)
  else Some (h, board).

(** The promotion block: [promote_pawn] returns a new piece of the chosen
    kind, which replaces the pawn on the board and in [selected_piece]. *)
Definition promotion (h : Heap) (board : Board) (sel : ref) (r c : Z)
    (key : Promotion) : Heap * Board * ref :=
  if name_eqb (name (h !!! sel)) Pawn && ((r =? 0) || (r =? ROWS - 1)) then
    let piece := h !!! sel in
    let new := length h in
    (h ++ [new_Piece (promotion_name key) (row piece) (col piece) (color piece)],
     board_set board r c (Some new), new)
  else (h, board, sel).

(** The commit branch up to and including promotion: everything that
    touches the board, the pieces and the capture lists. *)
Definition move_piece (h : Heap) (board : Board) (sel : ref)
    (ep : option Square) (r c : Z) (key : Promotion) (cw cb : list string)
    : option Moved :=
  '(board, (cw, cb)) ← en_passant_capture h board sel ep r c cw cb;
  let board := board_set board (row (h !!! sel)) (col (h !!! sel)) None in
  let captured_piece := board_at board r c in
  let '(cw, cb) := match captured_piece with
                   | Some x => record_capture h x cw cb
                   | None => (cw, cb)
                   end in
  let board := board_set board r c (Some sel) in
  let h := set_pos h sel r c in
  let h := set_moved h sel true in
  '(h, board) ← castle_rook h board sel r c;
  let '(h, board, sel) := promotion h board sel r c key in
  Some (mkMoved h board sel cw cb).

(** The new en-passant target, computed from the piece as it is after
    the move. *)
Definition next_en_passant_target (piece : Piece) (r c : Z) : option Square :=
  let behind := row piece - (match color piece with W => -1 | B => 1 end) in
  if name_eqb (name piece) Pawn && (Z.abs (r - behind) =? 2)
  then Some ((r + behind) `div` 2, c)
  else None.

(** The commit branch of the mouse handler: [(row, col) in valid_moves]. *)
Definition commit (st : State) (sel : ref) (r c : Z) (key : Promotion)
    : option State :=
  (* Save current state for undo *)
  let '(saved_board, h) := deepcopy_board (heap st) (board st) in
  let stack :=
    mkSnapshot saved_board (turn st) (en_passant_target st) (move_history st)
               (captured_white st) (captured_black st) :: move_stack st in
  mv ← move_piece h (board st) sel (en_passant_target st) r c key
                  (captured_white st) (captured_black st);
  let h := mv_heap mv in
  let board := mv_board mv in
  let piece := h !!! mv_piece mv in
  (* Update en passant target *)
  let ep := next_en_passant_target piece r c in
  (* Update move history *)
  let move_number := Z.of_nat (length (move_history st)) `div` 2 + 1 in
  let history := move_history st ++ [move_san move_number (turn st) piece r c] in
  (* Check for win condition *)
  let '(over, won) := check_win_condition h board in
  if negb over then
    let opponent_color := opponent (turn st) in
    let history :=
      if is_in_check h board opponent_color
      then history ++ [side_str opponent_color +:+ " is in Check!"]
      else history in
    match is_checkmate h board opponent_color with
    | None => None
    | Some (mate, h) =>
        let winner' := opponent opponent_color in
        Some (mkState h board None []
                (opponent (turn st))
                (if mate then true else over)
                (if mate then Some winner' else won)
                (if mate
                 then history ++ [side_str winner' +:+ " wins by Checkmate!"]
                 else history)
                (mv_captured_white mv) (mv_captured_black mv) stack ep)
    end
  else
    let win_message :=
      match won with Some W => "White" | _ => "Black" end
      +:+ " wins by capturing the king!" in
    Some (mkState h board None [] (turn st) over won
            (history ++ [win_message])
            (mv_captured_white mv) (mv_captured_black mv) stack ep).

(** A click on a board square that is not a commit: with a piece selected
    (the [else] of the commit test) and with none selected. *)
Definition reselect (st : State) (r c : Z) : option State :=
  match board_at (board st) r c with
  | Some piece =>
      if color_eqb (color (heap st !!! piece)) (turn st) then
        let '(moves, h) :=
          get_valid_moves (heap st) (board st) piece (en_passant_target st) in
        moves ← legal_filter h (board st) piece (turn st) moves;
        Some (mkState h (board st) (Some piece) moves (turn st) (game_over st)
                (winner st) (move_history st) (captured_white st)
                (captured_black st) (move_stack st) (en_passant_target st))
      else
        Some (mkState (heap st) (board st) None [] (turn st) (game_over st)
                (winner st) (move_history st) (captured_white st)
                (captured_black st) (move_stack st) (en_passant_target st))
  | None =>
      Some (mkState (heap st) (board st) None [] (turn st) (game_over st)
              (winner st) (move_history st) (captured_white st)
              (captured_black st) (move_stack st) (en_passant_target st))
  end.

Definition select (st : State) (r c : Z) : option State :=
  match board_at (board st) r c with
  | Some piece =>
      if color_eqb (color (heap st !!! piece)) (turn st) then
        '(moves, h) ←
          (if is_in_check (heap st) (board st) (turn st) then
             let '(moves, h) :=
               get_valid_moves (heap st) (board st) piece (en_passant_target st) in
             moves ← legal_filter h (board st) piece (turn st) moves;
             Some (moves, h)
           else
             Some (get_valid_moves (heap st) (board st) piece
                                   (en_passant_target st)));
        Some (mkState h (board st) (Some piece) moves (turn st) (game_over st)
                (winner st) (move_history st) (captured_white st)
                (captured_black st) (move_stack st) (en_passant_target st))
      else Some st
  | None => Some st
  end.

(** The mouse handler for a click on the square [(r, c)]. *)
Definition click (st : State) (r c : Z) (key : Promotion) : option State :=
  match selected_piece st with
  | Some sel =>
      if sq_in (r, c) (valid_moves st) then commit st sel r c key
      else reselect st r c
  | None => select st r c
  end.

(** One event of the loop.  Mouse events are ignored once the game is
    over; a click off the squares reads [None.color] and raises. *)
Definition step (st : State) (ev : Event) : option State :=
  match ev with
  | KeyU => Some (undo st)
  | KeyR => Some (restart st)
  | MouseUndoButton => if game_over st then Some st else Some (undo st)
  | MouseOutside => if game_over st then Some st else None
  | MouseSquare r c key => if game_over st then Some st else click st r c key
  end.

(** Running a list of events from a state. *)
Fixpoint run (st : State) (evs : list Event) : option State :=
  match evs with
  | [] => Some st
  | ev :: rest => st' ← step st ev; run st' rest
  end.

(** The states the program can be in. *)
Inductive reachable : State → Prop :=
  | reachable_initial : reachable initial_state
  | reachable_step st ev st' :
      reachable st → step st ev = Some st' → reachable st'.

(** ** The window and the mouse *)

Definition BOARD_SIZE : Z := 800.
Definition SIDEBAR_WIDTH : Z := 300.
Definition WIDTH : Z := BOARD_SIZE + SIDEBAR_WIDTH.
Definition HEIGHT : Z := BOARD_SIZE.
Definition SQUARE_SIZE : Z := BOARD_SIZE `div` COLS.
Definition BORDER_WIDTH : Z := 10.

(** [get_square_under_mouse], the mouse being at the pixel [(x, y)].
    [None] is the triple [(None, None, None)]. *)
Definition get_square_under_mouse (board : Board) (x y : Z)
    : option (Cell * Z * Z) :=
  if (BOARD_SIZE <=? x) || (BOARD_SIZE <=? y) then None
  else if (x <? BORDER_WIDTH) || (y <? BORDER_WIDTH)
          || (BOARD_SIZE - BORDER_WIDTH <=? x) || (BOARD_SIZE - BORDER_WIDTH <=? y)
  then None
  else
    let col := x `div` SQUARE_SIZE in
    let row := y `div` SQUARE_SIZE in
    if on_board row col then Some (board_at board row col, row, col) else None.

(** A [pygame.Rect]: left, top, width, height. *)
Record Rect := mkRect {
  rect_x : Z;
  rect_y : Z;
  rect_w : Z;
  rect_h : Z
}.

(** [Rect.collidepoint]: the right and the bottom edge are outside. *)
Definition collidepoint (rc : Rect) (x y : Z) : bool :=
  (rect_x rc <=? x) && (x <? rect_x rc + rect_w rc)
  && (rect_y rc <=? y) && (y <? rect_y rc + rect_h rc).

(** The rectangle [draw_sidebar] returns for the Undo button. *)
Definition undo_button_rect : Rect :=
  let padding := 20 in
  let button_width := 200 in
  let button_height := 50 in
  let button_x := BOARD_SIZE + (SIDEBAR_WIDTH - button_width) `div` 2 in
  let button_y := HEIGHT - button_height - padding in
  mkRect button_x button_y button_width button_height.

(** What a [MOUSEBUTTONDOWN] at the pixel [(x, y)] is to the handler of
    [main]: the button test comes first, then the triple of
    [get_square_under_mouse]. *)
Definition mouse_event (board : Board) (x y : Z) (key : Promotion) : Event :=
  if collidepoint undo_button_rect x y then MouseUndoButton
  else match get_square_under_mouse board x y with
       | Some (_, row, col) => MouseSquare row col key
       | None => MouseOutside
       end.

(** The [MOUSEBUTTONDOWN] branch of the event loop. *)
Definition mouse_button_down (st : State) (x y : Z) (key : Promotion)
    : option State :=
  step st (mouse_event (board st) x y key).

(** ** The images of the pieces *)

Definition color_str (cl : Color) : string :=
  match cl with W => "w" | B => "b" end.

(** The keys [load_images] fills the dictionary [pieces] with. *)
Definition pieces_types : list string :=
  ["wp"; "wr"; "wn"; "wb"; "wq"; "wk"; "bp"; "br"; "bn"; "bb"; "bq"; "bk"].

(** [key = self.color + self.name] in [Piece.__init__]. *)
Definition image_key (p : Piece) : string :=
  color_str (color p) +:+ name_str (name p).

(** The loops of [draw_sidebar] over a capture list: the keys for which
    [pieces.get] finds an image, which is then drawn. *)
Definition captured_images (captured : list string) : list string :=
  filter (fun tag => tag ∈ pieces_types) captured.

(** ** Vocabulary of the statements *)

(** The contents of a board: the piece, read in the store, of every cell. *)
Definition view (h : Heap) (bd : Board) : list (list (option Piece)) :=
  map (map (option_map (fun x => h !!! x))) bd.

(** Every reference held by a cell, or by a board, lies in [[lo, hi)]. *)
Definition cell_within (lo hi : nat) (cell : Cell) : Prop :=
  ∀ x, cell = Some x → (lo ≤ x < hi)%nat.

Definition refs_within (lo hi : nat) (bd : Board) : Prop :=
  Forall (Forall (cell_within lo hi)) bd.

(** The memo of a deep copy in progress maps originals to copies that lie
    above the original store [h0] and look the same. *)
Definition memo_ok (h0 h : Heap) (memo : Memo) : Prop :=
  ∀ x y, memo_find memo x = Some y →
         (length h0 ≤ y < length h)%nat ∧ h !!! y = h0 !!! x.

(** Every reference the program holds (on the live board, in
    [selected_piece], on the boards of the undo stack) is allocated. *)
Definition store_ok (st : State) : Prop :=
  refs_within 0 (length (heap st)) (board st)
  ∧ (∀ sel, selected_piece st = Some sel → (sel < length (heap st))%nat)
  ∧ Forall (fun snap => refs_within 0 (length (heap st)) (snap_board snap))
           (move_stack st).

(** The program holds no en-passant target, live or saved. *)
Definition no_target (st : State) : Prop :=
  en_passant_target st = None
  ∧ Forall (fun snap => snap_en_passant_target snap = None) (move_stack st).

(** A king that has not moved is on its home square. *)
Definition king_home (p : Piece) : Prop :=
  name p = King → has_moved p = false →
  row p = home_row (color p) ∧ col p = 4.

(** Every piece of the store, whether on a board or not. *)
Definition kings_home (h : Heap) : Prop := ∀ x, king_home (h !!! x).

(** No piece on the board is a king of colour [cl]. *)
Definition no_king (h : Heap) (bd : Board) (cl : Color) : Prop :=
  ∀ x, Some x ∈ concat bd → ¬ (name (h !!! x) = King ∧ color (h !!! x) = cl).

(** Steps a walk from [(r, c)] in direction [(dr, dc)] can still make on
    the board. *)
Definition steps_left (r c dr dc : Z) : Z :=
  if dr =? 1 then 8 - r else if dr =? -1 then r + 1
  else if dc =? 1 then 8 - c else c + 1.

(** The condition the scan of [is_checkmate] tests on one cell: every move
    of the piece in it, generated with the en-passant target [ep], leaves
    [cl] in check. *)
Definition cell_stuck (h : Heap) (bd : Board) (cl : Color)
    (ep : option Square) (cell : Cell) : Prop :=
  ∀ piece, cell = Some piece → color (h !!! piece) = cl →
  Forall (fun m => in_check_after h bd piece m cl = Some true)
         (fst (get_valid_moves h bd piece ep)).

(** C5 as it is stated: [is_checkmate] answers [True] exactly when [cl] is
    in check and no piece of [cl] has a legal move, the legal moves of a
    piece being those [main] highlights for it: the moves generated with
    the en-passant target [ep] of the game, without those for which
    [move_puts_king_in_check] answers [True]. *)
Definition checkmate_claim (h : Heap) (bd : Board) (cl : Color)
    (ep : option Square) : Prop :=
  is_checkmate h bd cl = Some (true, h)
  ↔ (is_in_check h bd cl = true
     ∧ ∀ piece, Some piece ∈ concat bd → color (h !!! piece) = cl →
       legal_filter h bd piece cl (fst (get_valid_moves h bd piece ep)) = Some []).



(** C4 as it is stated, for the king object [self] on the board [bd]:
    when the square two columns from the king, towards the rook's corner
    column [rook_col], is among the king's moves, then king and rook have
    not moved, the squares strictly between them are empty, the king is
    not in check, and no square from the king's to the destination is
    under attack ([is_square_under_attack], the oracle of the program). *)
Definition castling_claim (h : Heap) (bd : Board) (self : ref) : Prop :=
  let me := h !!! self in
  ∀ dest_col rook_col : Z,
    (dest_col = col me + 2 ∧ rook_col = 7) ∨ (dest_col = col me - 2 ∧ rook_col = 0) →
    In (row me, dest_col) (fst (get_king_moves h bd self)) →
    has_moved me = false
    ∧ (∃ rook, board_at bd (row me) rook_col = Some rook
               ∧ name (h !!! rook) = Rook
               ∧ color (h !!! rook) = color me
               ∧ has_moved (h !!! rook) = false)
    ∧ (∀ c, Z.min (col me) rook_col < c < Z.max (col me) rook_col →
            board_at bd (row me) c = None)
    ∧ is_in_check h bd (color me) = false
    ∧ (∀ c, Z.min (col me) dest_col ≤ c ≤ Z.max (col me) dest_col →
            is_square_under_attack h bd (row me, c) (color me) = false).

(** An 8 by 8 grid. *)
Definition grid (bd : Board) : Prop :=
  length bd = 8%nat ∧ Forall (fun rw => length rw = 8%nat) bd.

(** Every piece on the board carries the coordinates of its cell. *)
Definition placed (h : Heap) (bd : Board) : Prop :=
  ∀ r c x, 0 ≤ r → 0 ≤ c → board_at bd r c = Some x →
           row (h !!! x) = r ∧ col (h !!! x) = c.

(** The piece, read in the store, on a square. *)
Definition piece_at (h : Heap) (bd : Board) (r c : Z) : option Piece :=
  option_map (fun x => h !!! x) (board_at bd r c).

(** The piece [x] stands somewhere on the board. *)
Definition on_bd (bd : Board) (x : ref) : Prop :=
  ∃ r c, 0 ≤ r ∧ 0 ≤ c ∧ board_at bd r c = Some x.

(** A square of the board. *)
Definition on_board_sq (m : Square) : Prop := on_board (fst m) (snd m) = true.

(** A saved board is a well-placed grid whose pieces are not on the live
    board. *)
Definition snap_ok (h : Heap) (live : Board) (snap : Snapshot) : Prop :=
  grid (snap_board snap) ∧ placed h (snap_board snap)
  ∧ (∀ x, on_bd (snap_board snap) x → ¬ on_bd live x).

(** A well-formed state: references are allocated, unmoved kings are at
    home, the board is a grid on which every piece carries the
    coordinates of its cell, the selected piece is on the board, the
    highlighted moves are squares of the board, and the saved boards are
    well placed and share no piece with the live board. *)
Definition wf (st : State) : Prop :=
  store_ok st ∧ kings_home (heap st)
  ∧ grid (board st) ∧ placed (heap st) (board st)
  ∧ (∀ sel, selected_piece st = Some sel → on_bd (board st) sel)
  ∧ Forall on_board_sq (valid_moves st)
  ∧ Forall (snap_ok (heap st) (board st)) (move_stack st).

(** A piece of colour [cl] may land on [sq]: the square is empty or holds
    a piece of the other colour. *)
Definition free_for (h : Heap) (bd : Board) (cl : Color) (sq : Square) : Prop :=
  ∀ t, board_at bd (fst sq) (snd sq) = Some t → color (h !!! t) ≠ cl.

(** [sq] holds a piece of the colour other than [cl]. *)
Definition foe_at (h : Heap) (bd : Board) (cl : Color) (sq : Square) : Prop :=
  ∃ t, board_at bd (fst sq) (snd sq) = Some t ∧ color (h !!! t) ≠ cl.

(** The row step of a pawn, and the row its double step starts from. *)
Definition forward (cl : Color) : Z := match cl with W => -1 | B => 1 end.
Definition pawn_start_row (cl : Color) : Z := match cl with W => 6 | B => 1 end.

(** The piece [self] reaches [m] in [k] steps of direction [d]: every
    square on the way is on the board, all but the last are empty, and the
    last is empty or holds a piece of the other colour. *)
Definition slides_to (h : Heap) (bd : Board) (self : ref) (d : Z * Z) (k : Z)
    (m : Square) : Prop :=
  let me := h !!! self in
  1 ≤ k
  ∧ m = (row me + k * fst d, col me + k * snd d)
  ∧ (∀ j, 1 ≤ j ≤ k → on_board (row me + j * fst d) (col me + j * snd d) = true)
  ∧ (∀ j, 1 ≤ j < k → board_at bd (row me + j * fst d) (col me + j * snd d) = None)
  ∧ free_for h bd (color me) m.

Definition rook_directions : list (Z * Z) := [(-1, 0); (1, 0); (0, -1); (0, 1)].
Definition bishop_directions : list (Z * Z) := [(-1, -1); (-1, 1); (1, -1); (1, 1)].

(** The test of one round of the loop of [get_king_moves] on the
    neighbouring square [m]: on the board, not held by a piece of the
    king's colour, and [is_in_check] answers [False] once the king object
    carries the coordinates of [m] (the board itself is left as it is). *)
Definition king_steps_to (h : Heap) (bd : Board) (self : ref) (m : Square) : Prop :=
  let me := h !!! self in
  Z.abs (fst m - row me) ≤ 1 ∧ Z.abs (snd m - col me) ≤ 1
  ∧ m ≠ (row me, col me)
  ∧ on_board (fst m) (snd m) = true
  ∧ free_for h bd (color me) m
  ∧ is_in_check (set_pos h self (fst m) (snd m)) bd (color me) = false.

(** The selected piece belongs to the side to move and the highlighted
    squares are among the moves [get_valid_moves] generates for it on the
    present board; with no piece selected nothing is highlighted. *)
Definition selection_ok (st : State) : Prop :=
  match selected_piece st with
  | None => valid_moves st = []
  | Some sel =>
      color (heap st !!! sel) = turn st
      ∧ ∀ m, In m (valid_moves st) →
             In m (fst (get_valid_moves (heap st) (board st) sel
                                        (en_passant_target st)))
  end.

(** The side to move after [n] moves. *)
Definition side_of (n : nat) : Color := if Nat.even n then W else B.

(** Every snapshot of the undo stack was taken with the side to move that
    its depth in the stack tells. *)
Fixpoint stack_turns (stack : list Snapshot) : Prop :=
  match stack with
  | [] => True
  | snap :: rest => snap_turn snap = side_of (length rest) ∧ stack_turns rest
  end.

(** The piece a pawn of the attributes [p] becomes on the last row: the
    object [promote_pawn] builds. *)
Definition promoted (key : Promotion) (p : Piece) (r c : Z) : Piece :=
  new_Piece (promotion_name key) r c (color p).

(** The piece on the destination square after a move of [p] to [(r, c)]. *)
Definition arrived (key : Promotion) (p : Piece) (r c : Z) : Piece :=
  if name_eqb (name p) Pawn && ((r =? 0) || (r =? ROWS - 1))
  then promoted key p r c
  else with_moved true (with_pos r c p).

(** Both kings are on the board. *)
Definition both_kings (h : Heap) (bd : Board) : Prop :=
  has_king h bd W = true ∧ has_king h bd B = true.

(** While the game is on both kings are on the board and nobody has won;
    once it is over somebody has. *)
Definition status_ok (st : State) : Prop :=
  if game_over st then is_Some (winner st)
  else both_kings (heap st) (board st) ∧ winner st = None.

(** The board whose references are those of [bd] moved up by [n]. *)
Definition shift_refs (n : nat) (bd : Board) : Board :=
  map (map (option_map (fun x => (n + x)%nat))) bd.

(** ** Games and positions used as examples *)

(** A move as two clicks: the piece, then its destination. *)
Definition clicks (r1 c1 r2 c2 : Z) : list Event :=
  [MouseSquare r1 c1 K_q; MouseSquare r2 c2 K_q].

(** [after evs P]: the events [evs], played from the start of the
    program, are all handled without an exception and lead to a state
    satisfying [P]. *)
Definition after (evs : list Event) (P : State → Prop) : Prop :=
  match run initial_state evs with
  | Some st => P st
  | None => False
  end.

(** The state reached from the start by the events [evs]. *)
Definition state_after (evs : list Event) : State :=
  default initial_state (run initial_state evs).

(** A position given by its pieces, none of which has moved. *)
Definition position (pieces : list (Name * Color * (Z * Z))) : Heap * Board :=
  fold_left (fun acc p => place (fst (fst p)) (fst (snd p)) (snd (snd p))
                                (snd (fst p)) acc)
            pieces ([], replicate 8 (replicate 8 None)).

(** The same position, every piece having moved before. *)
Definition moved_position (pieces : list (Name * Color * (Z * Z))) : Heap * Board :=
  let '(h, bd) := position pieces in (map (with_moved true) h, bd).

(** A lone white king on e1: Black has no king. *)
Definition lone_king : Heap * Board := position [(King, W, (7, 4))].

(** White: king (2,0), pawn (3,5).  Black: rooks (1,7), (2,5), (3,2), pawn
    (3,4), king (7,7).  The rook on (2,5) gives check along the row, and
    the white pawn can step between by capturing towards (2,4). *)
Definition mate_pos : Heap * Board := moved_position
  [(King, W, (2, 0)); (Rook, B, (1, 7)); (Rook, B, (2, 5)); (Rook, B, (3, 2));
   (Pawn, W, (3, 5)); (Pawn, B, (3, 4)); (King, B, (7, 7))].

(** White king e1, rooks a1 and h1, Black king e8: both castling moves
    are offered. *)
Definition castle_ok : Heap * Board := position
  [(King, W, (7, 4)); (Rook, W, (7, 7)); (Rook, W, (7, 0)); (King, B, (0, 4))].

(** An unmoved white king on d1, a white bishop on e1, a white rook on
    h1, the black king on e8. *)
Definition castle_pos : Heap * Board := position
  [(King, W, (7, 3)); (Bishop, W, (7, 4)); (Rook, W, (7, 7)); (King, B, (0, 4))].

(** After 1. e4, Black has clicked on the pawn (1,4); then Black clicks on
    (4,4), which is not one of its moves. *)
Definition rejected_events : list Event :=
  clicks 6 4 4 4 ++ [MouseSquare 1 4 K_q].

Definition rejected_before : State :=
  Eval vm_compute in state_after rejected_events.

Definition rejected_after : State :=
  Eval vm_compute in
    default rejected_before (step rejected_before (MouseSquare 4 4 K_q)).

(** White has clicked on the pawn (6,4), and then on (4,4). *)
Definition undo_before : State :=
  Eval vm_compute in state_after [MouseSquare 6 4 K_q].

Definition undo_moved : State :=
  Eval vm_compute in default undo_before (step undo_before (MouseSquare 4 4 K_q)).





(** Two kings face to face, the white one on (4,4) and the black one on
    (3,4), and a white rook on (3,3) beside the black king. *)
Definition facing_kings : Heap * Board := moved_position
  [(King, W, (4, 4)); (King, B, (3, 4)); (Rook, W, (3, 3))].

(** A white king on (4,4) and a black pawn on (2,3), which would capture
    towards (3,4) and (3,2) and step to (3,3). *)
Definition king_and_pawn : Heap * Board := moved_position
  [(King, W, (4, 4)); (Pawn, B, (2, 3)); (King, B, (0, 0))].

(** White has clicked on the pawn (6,4). *)
Definition pawn_selected : State :=
  Eval vm_compute in state_after [MouseSquare 6 4 K_q].

(** ... and then on (4,4): 1. e4 is played. *)
Definition pawn_moved : State :=
  Eval vm_compute in state_after (clicks 6 4 4 4).

(** 1. a4 b5 2. axb5 a6 3. bxa6 Bb7 4. axb7 Nc6, and White has clicked on
    the pawn (1,1), which can take the rook on (0,0). *)
Definition promotion_events : list Event :=
  clicks 6 0 4 0 ++ clicks 1 1 3 1 ++ clicks 4 0 3 1 ++ clicks 1 0 2 0
  ++ clicks 3 1 2 0 ++ clicks 0 2 1 1 ++ clicks 2 0 1 1 ++ clicks 0 1 2 2
  ++ [MouseSquare 1 1 K_q].

Definition promotion_ready : State :=
  Eval vm_compute in state_after promotion_events.

(** The pawn takes on (0,0) and becomes a knight. *)
Definition promotion_done : State :=
  Eval vm_compute in
    default promotion_ready (step promotion_ready (MouseSquare 0 0 K_n)).

(** 1. e4 e5 2. Nf3 Nc6 3. Bc4 Bc5, and White has clicked on the king. *)
Definition castling_events : list Event :=
  clicks 6 4 4 4 ++ clicks 1 4 3 4 ++ clicks 7 6 5 5 ++ clicks 0 1 2 2
  ++ clicks 7 5 4 2 ++ clicks 0 5 3 2 ++ [MouseSquare 7 4 K_q].

Definition castling_ready : State :=
  Eval vm_compute in state_after castling_events.

Definition castling_done : State :=
  Eval vm_compute in
    default castling_ready (step castling_ready (MouseSquare 7 6 K_q)).

(** 1. f4 a6 2. Kf2 a5, and White has clicked on the king, now on (6,5):
    (5,6) is one of its moves and the corner (5,7) of that row is empty. *)
Definition wandering_king_events : list Event :=
  clicks 6 5 4 5 ++ clicks 1 0 2 0 ++ clicks 7 4 6 5 ++ clicks 2 0 3 0
  ++ [MouseSquare 6 5 K_q].

Definition wandering_king : State :=
  Eval vm_compute in state_after wandering_king_events.

(** 1. e4 e5 2. Qh5, and Black has clicked on the pawn (1,0); the pawn
    (1,5) is pinned by the queen. *)
Definition pinned_events : list Event :=
  clicks 6 4 4 4 ++ clicks 1 4 3 4 ++ clicks 7 3 3 7 ++ [MouseSquare 1 0 K_q].

Definition pinned_selected : State :=
  Eval vm_compute in state_after pinned_events.

Definition pinned_reselected : State :=
  Eval vm_compute in
    default pinned_selected (step pinned_selected (MouseSquare 1 5 K_q)).

(** 1. e4 e5 2. Bc4 Qg5 3. Kf1 Qg4 4. Nh3 Qxd1: the queen on (7,3) gives
    check along the first rank to the king on (7,5), and White cannot get
    out of it. *)
Definition missed_mate_events : list Event :=
  clicks 6 4 4 4 ++ clicks 1 4 3 4 ++ clicks 7 5 4 2 ++ clicks 0 3 3 6
  ++ clicks 7 4 7 5 ++ clicks 3 6 4 6 ++ clicks 7 6 5 7 ++ clicks 4 6 7 3.

Definition missed_mate : State :=
  Eval vm_compute in state_after missed_mate_events.

(** 1. f3 e5 2. g4 Qh4: the fool's mate. *)
Definition fools_mate_events : list Event :=
  clicks 6 5 5 5 ++ clicks 1 4 3 4 ++ clicks 6 6 4 6 ++ clicks 0 3 4 7.

Definition fools_mate : State :=
  Eval vm_compute in state_after fools_mate_events.





(** 1. f4 a6 2. Kf2 a5 3. Nf3 a4, and White has clicked on the king (6,5):
    (7,6) is one of its moves, the rook stands in the corner (7,7) and the
    bishop on (7,5). *)
Definition dragged_rook_events : list Event :=
  clicks 6 5 4 5 ++ clicks 1 0 2 0 ++ clicks 7 4 6 5 ++ clicks 2 0 3 0
  ++ clicks 7 6 5 5 ++ clicks 3 0 4 0 ++ [MouseSquare 6 5 K_q].

Definition dragged_rook_ready : State :=
  Eval vm_compute in state_after dragged_rook_events.

Definition dragged_rook_done : State :=
  Eval vm_compute in
    default dragged_rook_ready (step dragged_rook_ready (MouseSquare 7 6 K_q)).

(** * Properties *)

(** ** Equality tests *)

Lemma name_eqb_eq (a b : Name) : name_eqb a b = true ↔ a = b.
Proof. destruct a, b; simpl; split; (done || congruence). Qed.

Lemma color_eqb_eq (a b : Color) : color_eqb a b = true ↔ a = b.
Proof. destruct a, b; simpl; split; (done || congruence). Qed.

Lemma sq_eqb_eq (a b : Square) : sq_eqb a b = true ↔ a = b.
Proof.
  destruct a as [a1 a2], b as [b1 b2]. unfold sq_eqb. simpl.
  rewrite andb_true_iff, !Z.eqb_eq. split; [by intros [-> ->]|by intros [= -> ->]].
Qed.

Lemma sq_in_In (sq : Square) (moves : list Square) :
  sq_in sq moves = true ↔ In sq moves.
Proof.
  unfold sq_in. rewrite existsb_exists. split.
  - intros (m & Hin & E). apply sq_eqb_eq in E. by subst.
  - intros Hin. exists sq. split; [done|]. by apply sq_eqb_eq.
Qed.

Lemma on_board_iff (r c : Z) :
  on_board r c = true ↔ 0 ≤ r < 8 ∧ 0 ≤ c < 8.
Proof. unfold on_board, ROWS, COLS. rewrite !andb_true_iff. lia. Qed.

(** ** The sliding loop ends within its fuel *)

Lemma slide_fuel (h : Heap) (bd : Board) (mine : Color) (dr dc : Z) :
  (dr = 1 ∨ dr = -1 ∨ (dr = 0 ∧ (dc = 1 ∨ dc = -1))) →
  ∀ (n : nat) (r c : Z) (fuel : nat),
  (on_board r c = true → steps_left r c dr dc ≤ Z.of_nat n) →
  (n ≤ fuel)%nat →
  slide fuel h bd mine r c dr dc = slide n h bd mine r c dr dc.
Proof.
  intros Hd. induction n as [|n IH]; intros r c fuel Hsteps Hfuel.
  - assert (on_board r c = false) as Hout.
    { destruct (on_board r c) eqn:E; [|done]. specialize (Hsteps eq_refl).
      unfold on_board, ROWS, COLS in E. unfold steps_left in Hsteps.
      repeat (apply andb_true_iff in E as [E ?]).
      destruct (dr =? 1) eqn:E1; [lia|]. destruct (dr =? -1) eqn:E2; [lia|].
      destruct (dc =? 1) eqn:E3; lia. }
    destruct fuel; simpl; [done|]. by rewrite Hout.
  - destruct fuel as [|fuel]; [lia|]. simpl.
    destruct (on_board r c) eqn:E; [|done].
    destruct (board_at bd r c); [done|]. f_equal. apply IH; [|lia].
    intros E'. specialize (Hsteps eq_refl). unfold steps_left in *.
    destruct (dr =? 1) eqn:E1; [lia|]. destruct (dr =? -1) eqn:E2; [lia|].
    destruct (dc =? 1) eqn:E3; [lia|].
    apply Z.eqb_neq in E1, E2, E3. lia.
Qed.

(** Eight rounds are as good as any larger number: the [while] loops of
    [get_rook_moves] and [get_bishop_moves] have ended by then. *)
Lemma slide_8 (h : Heap) (bd : Board) (mine : Color) (r c dr dc : Z) (fuel : nat) :
  (dr = 1 ∨ dr = -1 ∨ (dr = 0 ∧ (dc = 1 ∨ dc = -1))) →
  (8 ≤ fuel)%nat →
  slide fuel h bd mine r c dr dc = slide 8 h bd mine r c dr dc.
Proof.
  intros Hd Hfuel. apply slide_fuel; [done| |done].
  intros E. unfold on_board, ROWS, COLS in E. unfold steps_left.
  repeat (apply andb_true_iff in E as [E ?]).
  destruct (dr =? 1); [lia|]. destruct (dr =? -1); [lia|]. destruct (dc =? 1); lia.
Qed.

(** ** Reading the store after an update *)

Lemma with_pos_back (p : Piece) (r c : Z) :
  with_pos (row p) (col p) (with_pos r c p) = p.
Proof. by destruct p. Qed.

Lemma set_pos_back (h : Heap) (x : ref) (r c : Z) :
  set_pos (set_pos h x r c) x (row (h !!! x)) (col (h !!! x)) = h.
Proof.
  unfold set_pos. rewrite list_alter_alter_eq.
  destruct (h !! x) as [p|] eqn:Hx.
  - rewrite (list_lookup_total_correct _ _ _ Hx).
    transitivity (alter (fun q : Piece => q) x h).
    + apply list_alter_ext; [|done]. intros q Hq.
      assert (q = p) as -> by congruence. apply with_pos_back.
    + by apply list_alter_id.
  - apply lookup_ge_None in Hx.
    clear -Hx. revert x Hx. induction h as [|a h IH]; intros [|x] Hx; simpl in *;
      try done; try lia. f_equal. apply IH. lia.
Qed.

Lemma length_set_pos (h : Heap) (x : ref) (r c : Z) :
  length (set_pos h x r c) = length h.
Proof. apply length_alter. Qed.

Lemma length_set_moved (h : Heap) (x : ref) (m : bool) :
  length (set_moved h x m) = length h.
Proof. apply length_alter. Qed.

Lemma lookup_set_pos (h : Heap) (x y : ref) (r c : Z) :
  set_pos h x r c !!! y =
    if decide (x = y ∧ (x < length h)%nat) then with_pos r c (h !!! x) else h !!! y.
Proof. apply list_lookup_total_alter. Qed.

Lemma lookup_set_moved (h : Heap) (x y : ref) (m : bool) :
  set_moved h x m !!! y =
    if decide (x = y ∧ (x < length h)%nat) then with_moved m (h !!! x) else h !!! y.
Proof. apply list_lookup_total_alter. Qed.

Lemma set_pos_other (h : Heap) (x y : ref) (r c : Z) :
  x ≠ y → set_pos h x r c !!! y = h !!! y.
Proof. intros Hne. by apply list_lookup_total_alter_ne. Qed.

Lemma set_moved_other (h : Heap) (x y : ref) (m : bool) :
  x ≠ y → set_moved h x m !!! y = h !!! y.
Proof. intros Hne. by apply list_lookup_total_alter_ne. Qed.

Lemma row_set_pos_other (h : Heap) (x y : ref) (r r' c' : Z) :
  row (h !!! y) = r → row (set_pos h x r c' !!! y) = r.
Proof. intros E. rewrite lookup_set_pos. by case_decide. Qed.

Lemma row_set_moved (h : Heap) (x y : ref) (m : bool) :
  row (set_moved h x m !!! y) = row (h !!! y).
Proof. rewrite lookup_set_moved. case_decide as E; [|done]. by destruct E as [-> _]. Qed.

Lemma name_set_pos (h : Heap) (x y : ref) (r c : Z) :
  name (set_pos h x r c !!! y) = name (h !!! y).
Proof. rewrite lookup_set_pos. case_decide as E; [|done]. by destruct E as [-> _]. Qed.

Lemma name_set_moved (h : Heap) (x y : ref) (m : bool) :
  name (set_moved h x m !!! y) = name (h !!! y).
Proof. rewrite lookup_set_moved. case_decide as E; [|done]. by destruct E as [-> _]. Qed.

Lemma lookup_total_prefix (h h' : Heap) (x : ref) :
  h `prefix_of` h' → (x < length h)%nat → h' !!! x = h !!! x.
Proof. intros [k ->] Hx. by apply lookup_total_app_l. Qed.

(** ** Reading a board after an assignment *)

Lemma board_at_set (bd : Board) (r c r' c' : Z) (v : Cell) :
  board_at (board_set bd r c v) r' c' = v
  ∨ board_at (board_set bd r c v) r' c' = board_at bd r' c'.
Proof.
  unfold board_at, board_set.
  rewrite list_lookup_alter. case_decide as E; [|by right].
  rewrite <- E. destruct (bd !! Z.to_nat r) as [rw|]; [|by right]. simpl.
  rewrite list_lookup_insert. case_decide as E2; [by left|by right].
Qed.

Lemma board_at_set_eq (bd : Board) (r c : Z) (v : Cell) (old : ref) :
  board_at bd r c = Some old → board_at (board_set bd r c v) r c = v.
Proof.
  unfold board_at, board_set. rewrite list_lookup_alter_eq.
  destruct (bd !! Z.to_nat r) as [rw|]; [|done]. simpl.
  destruct (rw !! Z.to_nat c) as [cell|] eqn:E; [|done].
  intros _. rewrite list_lookup_insert_eq; [done|]. by eapply lookup_lt_Some.
Qed.

Lemma board_at_set_ne (bd : Board) (r c r' c' : Z) (v : Cell) :
  Z.to_nat r ≠ Z.to_nat r' ∨ Z.to_nat c ≠ Z.to_nat c' →
  board_at (board_set bd r c v) r' c' = board_at bd r' c'.
Proof.
  intros Hne. unfold board_at, board_set.
  rewrite list_lookup_alter. case_decide as E; [|done].
  destruct Hne as [Hne|Hne]; [done|]. rewrite <- E.
  destruct (bd !! Z.to_nat r) as [rw|]; [|done]. simpl.
  by rewrite list_lookup_insert_ne.
Qed.

Lemma board_at_set_None (bd : Board) (r c r' c' : Z) :
  board_at bd r' c' = None → board_at (board_set bd r c None) r' c' = None.
Proof. intros E. destruct (board_at_set bd r c r' c' None) as [->| ->]; done. Qed.

Lemma board_at_grid (bd : Board) (r c : Z) (x : ref) :
  grid bd → 0 ≤ r → 0 ≤ c → board_at bd r c = Some x → on_board r c = true.
Proof.
  intros [Hlen Hrows] Hr Hc. unfold board_at.
  destruct (bd !! Z.to_nat r) as [rw|] eqn:Er; [|done].
  destruct (rw !! Z.to_nat c) as [cell|] eqn:Ec; [|done]. intros _.
  apply lookup_lt_Some in Er as Hr'.
  eapply Forall_lookup_1 in Hrows; [|exact Er]. simpl in Hrows.
  apply lookup_lt_Some in Ec. apply on_board_iff. lia.
Qed.

Lemma board_at_set_same (bd : Board) (r c : Z) (v : Cell) :
  grid bd → on_board r c = true → board_at (board_set bd r c v) r c = v.
Proof.
  intros [Hlen Hrows] Hin. apply on_board_iff in Hin.
  unfold board_at, board_set. rewrite list_lookup_alter_eq.
  destruct (bd !! Z.to_nat r) as [rw|] eqn:Er.
  - simpl. eapply Forall_lookup_1 in Hrows; [|exact Er]. simpl in Hrows.
    rewrite list_lookup_insert_eq by lia. done.
  - apply lookup_ge_None in Er. lia.
Qed.

Lemma board_at_set_other (bd : Board) (r c r' c' : Z) (v : Cell) :
  0 ≤ r → 0 ≤ c → 0 ≤ r' → 0 ≤ c' → (r, c) ≠ (r', c') →
  board_at (board_set bd r c v) r' c' = board_at bd r' c'.
Proof.
  intros Hr Hc Hr' Hc' Hne. apply board_at_set_ne.
  destruct (decide (r = r')) as [->|]; [|left; lia].
  right. intros E. apply Hne. f_equal. lia.
Qed.

Lemma grid_set (bd : Board) (r c : Z) (v : Cell) :
  grid bd → grid (board_set bd r c v).
Proof.
  intros [Hlen Hrows]. unfold board_set. split.
  - by rewrite length_alter.
  - apply Forall_alter; [done|]. intros rw _ Hrw. by rewrite length_insert.
Qed.

Lemma cell_within_None (lo hi : nat) : cell_within lo hi None.
Proof. by intros x. Qed.

Lemma cell_within_Some (lo hi : nat) (x : ref) :
  (lo ≤ x < hi)%nat → cell_within lo hi (Some x).
Proof. by intros Hx y [= <-]. Qed.

Lemma cell_within_mono (lo hi hi' : nat) (cell : Cell) :
  (hi ≤ hi')%nat → cell_within lo hi cell → cell_within lo hi' cell.
Proof. intros Hle Hc x E. specialize (Hc x E). lia. Qed.

Lemma refs_within_mono (lo hi hi' : nat) (bd : Board) :
  (hi ≤ hi')%nat → refs_within lo hi bd → refs_within lo hi' bd.
Proof.
  intros Hle Hb. eapply Forall_impl; [exact Hb|]. intros rw Hrw.
  eapply Forall_impl; [exact Hrw|]. intros cell. by apply cell_within_mono.
Qed.

Lemma refs_within_at (lo hi : nat) (bd : Board) (r c : Z) (x : ref) :
  refs_within lo hi bd → board_at bd r c = Some x → (lo ≤ x < hi)%nat.
Proof.
  intros Hb. unfold board_at.
  destruct (bd !! Z.to_nat r) as [rw|] eqn:Er; [|done].
  destruct (rw !! Z.to_nat c) as [cell|] eqn:Ec; [|done]. simpl. intros ->.
  eapply Forall_lookup_1 in Er; [|exact Hb].
  eapply Forall_lookup_1 in Ec; [|exact Er]. by apply Ec.
Qed.

Lemma refs_within_set (lo hi : nat) (bd : Board) (r c : Z) (v : Cell) :
  refs_within lo hi bd → cell_within lo hi v →
  refs_within lo hi (board_set bd r c v).
Proof.
  intros Hb Hv. unfold board_set, refs_within.
  apply Forall_alter; [done|]. intros rw Hrw Hf. by apply Forall_insert.
Qed.

Lemma board_at_on_bd (bd : Board) (r c : Z) (x : ref) :
  board_at bd r c = Some x → on_bd bd x.
Proof.
  intros E. exists (Z.of_nat (Z.to_nat r)), (Z.of_nat (Z.to_nat c)).
  split; [lia|]. split; [lia|]. unfold board_at in *. by rewrite !Nat2Z.id.
Qed.

Lemma on_bd_set (bd : Board) (r c : Z) (v : Cell) (x : ref) :
  on_bd (board_set bd r c v) x → v = Some x ∨ on_bd bd x.
Proof.
  intros (i & j & Hi & Hj & E).
  destruct (board_at_set bd r c i j v) as [E'|E']; rewrite E' in E; [by left|].
  right. by exists i, j.
Qed.

Lemma on_bd_clear (bd : Board) (r c : Z) (x : ref) :
  on_bd (board_set bd r c None) x → on_bd bd x.
Proof. by intros [?|?]%on_bd_set. Qed.

Lemma on_bd_allocated (bd : Board) (lo hi : nat) (x : ref) :
  refs_within lo hi bd → on_bd bd x → (lo ≤ x < hi)%nat.
Proof. intros Hb (r & c & _ & _ & E). by eapply refs_within_at. Qed.

(** ** The store is left as it was by the move generators *)

Lemma king_step_heap (bd : Board) (self : ref) (moves : list Square)
    (h : Heap) (d : Z * Z) :
  snd (king_step bd self (moves, h) d) = h.
Proof.
  unfold king_step.
  destruct (on_board _ _); [|done].
  destruct (match board_at bd _ _ with None => _ | Some _ => _ end); [|done].
  destruct (negb _); simpl; apply set_pos_back.
Qed.

Lemma king_loop_heap (bd : Board) (self : ref) (ds : list (Z * Z))
    (moves : list Square) (h : Heap) :
  snd (fold_left (king_step bd self) ds (moves, h)) = h.
Proof.
  revert moves. induction ds as [|d ds IH]; intros moves; [done|].
  cbn [fold_left]. destruct (king_step bd self (moves, h) d) as [moves' h'] eqn:E.
  assert (h' = h) as -> by (rewrite <- (king_step_heap bd self moves h d); by rewrite E).
  apply IH.
Qed.

Lemma get_king_moves_heap (h : Heap) (bd : Board) (self : ref) :
  snd (get_king_moves h bd self) = h.
Proof.
  unfold get_king_moves.
  pose proof (king_loop_heap bd self king_directions [] h) as E.
  destruct (fold_left _ _ _) as [moves h']. simpl in E. subst h'.
  by destruct (negb _ && negb _).
Qed.

Lemma get_valid_moves_heap (h : Heap) (bd : Board) (self : ref)
    (ep : option Square) :
  snd (get_valid_moves h bd self ep) = h.
Proof.
  unfold get_valid_moves.
  destruct (name (h !!! self)); try done. apply get_king_moves_heap.
Qed.

Lemma checkmate_scan_heap (h : Heap) (bd : Board) (cl : Color)
    (cells : list Cell) (mate : bool) (h' : Heap) :
  checkmate_scan h bd cl cells = Some (mate, h') → h' = h.
Proof.
  induction cells as [|[piece|] cells IH]; simpl.
  - congruence.
  - destruct (color_eqb _ _); [|done].
    pose proof (get_valid_moves_heap h bd piece None) as E.
    destruct (get_valid_moves h bd piece None) as [moves h1]. simpl in E. subst h1.
    destruct (no_escape _ _ _ _ _) as [[|]|]; [done| |done]. congruence.
  - done.
Qed.

Lemma is_checkmate_heap (h : Heap) (bd : Board) (cl : Color)
    (mate : bool) (h' : Heap) :
  is_checkmate h bd cl = Some (mate, h') → h' = h.
Proof.
  unfold is_checkmate. destruct (negb _); [congruence|].
  apply checkmate_scan_heap.
Qed.

(** ** Generated moves are squares of the board *)


Lemma pawn_moves_on_board (h : Heap) (bd : Board) (self : ref) (ep : option Square) :
  on_board (row (h !!! self)) (col (h !!! self)) = true →
  Forall on_board_sq (get_pawn_moves h bd self ep).
Proof.
  intros Hme. apply on_board_iff in Hme. unfold get_pawn_moves, ROWS, COLS.
  set (me := h !!! self) in *.
  set (direction := match color me with W => -1 | B => 1 end).
  assert (∀ new_col,
    Forall on_board_sq
      (if (0 <=? new_col) && (new_col <? 8) && (0 <=? row me + direction)
          && (row me + direction <? 8)
       then
         match board_at bd (row me + direction) new_col with
         | Some target =>
             if negb (color_eqb (color (h !!! target)) (color me))
             then [(row me + direction, new_col)] else []
         | None => []
         end
         ++ (if ep_is ep (row me + direction) new_col
             then [(row me + direction, new_col)] else [])
       else [])) as Hdiag.
  { intros new_col.
    destruct ((0 <=? new_col) && _ && _ && _) eqn:E; [|constructor].
    assert (on_board_sq (row me + direction, new_col)) as Hsq.
    { unfold on_board_sq. apply on_board_iff. simpl.
      repeat (apply andb_true_iff in E as [E ?]). lia. }
    apply Forall_app. split.
    - destruct (board_at _ _ _); [|constructor].
      destruct (negb _); [|constructor]. by apply Forall_singleton.
    - destruct (ep_is _ _ _); [|constructor]. by apply Forall_singleton. }
  apply Forall_app. split; [|apply Forall_app; split; apply Hdiag].
  destruct ((0 <=? row me + direction) && _ && _) eqn:E; [|constructor].
  apply andb_true_iff in E as [E _]. apply andb_true_iff in E as [E1 E2].
  apply Forall_cons. split.
  - unfold on_board_sq. apply on_board_iff. simpl. lia.
  - destruct ((row me =? _) && _ && _ && _) eqn:E3; [|constructor].
    apply andb_true_iff in E3 as [E3 _]. apply andb_true_iff in E3 as [E3 E4].
    apply andb_true_iff in E3 as [_ E3].
    apply Forall_singleton. unfold on_board_sq. apply on_board_iff. simpl. lia.
Qed.

Lemma slide_on_board (fuel : nat) (h : Heap) (bd : Board) (mine : Color)
    (dr dc : Z) :
  ∀ r c, Forall on_board_sq (slide fuel h bd mine r c dr dc).
Proof.
  induction fuel as [|fuel IH]; intros r c; simpl; [constructor|].
  destruct (on_board r c) eqn:E; [|constructor].
  destruct (board_at bd r c).
  - destruct (negb _); [|constructor]. by apply Forall_singleton.
  - apply Forall_cons. split; [done|apply IH].
Qed.

Lemma slide_from_on_board (h : Heap) (bd : Board) (self : ref)
    (directions : list (Z * Z)) :
  Forall on_board_sq (slide_from h bd self directions).
Proof.
  unfold slide_from. induction directions as [|d ds IH]; cbn [flat_map];
    [constructor|].
  apply Forall_app. split; [apply slide_on_board|done].
Qed.

Lemma knight_moves_on_board (h : Heap) (bd : Board) (self : ref) :
  Forall on_board_sq (get_knight_moves h bd self).
Proof.
  unfold get_knight_moves.
  generalize [(-2, -1); (-2, 1); (-1, -2); (-1, 2); (1, -2); (1, 2); (2, -1); (2, 1)].
  intros offsets. induction offsets as [|d ds IH]; cbn [flat_map]; [constructor|].
  apply Forall_app. split; [|done].
  destruct (on_board _ _) eqn:E; [|constructor].
  destruct (board_at _ _ _).
  - destruct (negb _); [|constructor]. by apply Forall_singleton.
  - by apply Forall_singleton.
Qed.

Lemma piece_moves_on_board (h : Heap) (bd : Board) (self : ref) (ep : option Square) :
  on_board (row (h !!! self)) (col (h !!! self)) = true →
  Forall on_board_sq (get_piece_moves h bd self ep).
Proof.
  intros Hme. unfold get_piece_moves. destruct (name (h !!! self)).
  - by apply pawn_moves_on_board.
  - apply slide_from_on_board.
  - apply knight_moves_on_board.
  - apply slide_from_on_board.
  - apply Forall_app. split; apply slide_from_on_board.
  - constructor.
Qed.

Lemma king_loop_on_board (bd : Board) (self : ref) (ds : list (Z * Z)) :
  ∀ (moves : list Square) (h : Heap),
  Forall on_board_sq moves →
  Forall on_board_sq (fst (fold_left (king_step bd self) ds (moves, h))).
Proof.
  induction ds as [|d ds IH]; intros moves h Hm; cbn [fold_left]; [done|].
  destruct (king_step bd self (moves, h) d) as [moves' h'] eqn:E.
  apply IH. revert E. unfold king_step.
  destruct (on_board _ _) eqn:Eon; [|by intros [= <- <-]].
  destruct (match board_at bd _ _ with None => _ | Some _ => _ end);
    [|by intros [= <- <-]].
  destruct (negb _); intros [= <- <-]; [|done].
  apply Forall_app. split; [done|]. by apply Forall_singleton.
Qed.

Lemma king_moves_on_board (h : Heap) (bd : Board) (self : ref) :
  king_home (h !!! self) → name (h !!! self) = King →
  Forall on_board_sq (fst (get_king_moves h bd self)).
Proof.
  intros Hhome Hking. unfold get_king_moves.
  pose proof (king_loop_heap bd self king_directions [] h) as Eh.
  pose proof (king_loop_on_board bd self king_directions [] h (Forall_nil_2 _)) as Hm.
  destruct (fold_left _ _ _) as [moves h']. simpl in Eh, Hm. subst h'.
  destruct (negb (has_moved (h !!! self))) eqn:Emoved; simpl; [|done].
  destruct (negb (is_in_check _ _ _)); simpl; [|done].
  apply negb_true_iff in Emoved. destruct (Hhome Hking Emoved) as [Hrow Hcol].
  assert (on_board_sq (row (h !!! self), col (h !!! self) + 2)
          ∧ on_board_sq (row (h !!! self), col (h !!! self) - 2)) as [Hk Hq].
  { unfold on_board_sq. rewrite !on_board_iff. simpl. rewrite Hrow, Hcol.
    destruct (color (h !!! self)); simpl; lia. }
  destruct (can_castle_kingside _ _ _); destruct (can_castle_queenside _ _ _);
    simpl; rewrite ?Forall_app, ?Forall_singleton; auto.
Qed.

Lemma valid_moves_on_board (h : Heap) (bd : Board) (self : ref) (ep : option Square) :
  king_home (h !!! self) →
  on_board (row (h !!! self)) (col (h !!! self)) = true →
  Forall on_board_sq (fst (get_valid_moves h bd self ep)).
Proof.
  intros Hhome Hme. unfold get_valid_moves.
  destruct (name (h !!! self)) eqn:En;
    try (cbn [fst]; by apply piece_moves_on_board).
  by apply king_moves_on_board.
Qed.

Lemma legal_filter_sub (h : Heap) (bd : Board) (piece : ref) (cl : Color)
    (P : Square → Prop) :
  ∀ moves moves', Forall P moves →
  legal_filter h bd piece cl moves = Some moves' → Forall P moves'.
Proof.
  induction moves as [|m moves IH]; intros moves' Hm; simpl.
  - by intros [= <-].
  - apply Forall_cons in Hm as [Hm1 Hm2].
    destruct (move_puts_king_in_check _ _ _ _ _) as [bad|]; [|done]. simpl.
    destruct (legal_filter h bd piece cl moves) as [rest|]; [|done]. simpl.
    intros [= <-]. specialize (IH rest Hm2 eq_refl).
    destruct (negb bad); [by apply Forall_cons|done].
Qed.

(** ** Boards without a king *)

Lemma king_in_row_None (h : Heap) (cl : Color) (rw : list Cell) :
  (∀ x, Some x ∈ rw → ¬ (name (h !!! x) = King ∧ color (h !!! x) = cl)) →
  king_in_row h cl rw = None.
Proof.
  induction rw as [|[x|] rw IH]; intros Hno; simpl; [done| |].
  - destruct (name_eqb _ _ && color_eqb _ _) eqn:E.
    + apply andb_true_iff in E as [E1 E2].
      apply name_eqb_eq in E1. apply color_eqb_eq in E2.
      exfalso. apply (Hno x); [left|done].
    + apply IH. intros y Hy. apply Hno. by right.
  - apply IH. intros y Hy. apply Hno. by right.
Qed.

Lemma find_king_None (h : Heap) (bd : Board) (cl : Color) :
  no_king h bd cl → find_king h bd cl = None.
Proof.
  unfold find_king, no_king.
  assert (∀ acc : option (Z * Z),
    (∀ x, Some x ∈ concat bd → ¬ (name (h !!! x) = King ∧ color (h !!! x) = cl)) →
    fold_left (fun king_pos rw =>
                 match king_in_row h cl rw with
                 | Some pos => Some pos
                 | None => king_pos
                 end) bd acc = acc) as Hgen; [|apply Hgen].
  induction bd as [|rw bd IH]; intros acc Hno; simpl; [done|].
  rewrite king_in_row_None.
  - apply IH. intros x Hx. apply Hno. simpl. apply elem_of_app. by right.
  - intros x Hx. apply Hno. simpl. apply elem_of_app. by left.
Qed.

Lemma has_king_false (h : Heap) (bd : Board) (cl : Color) :
  has_king h bd cl = false ↔ no_king h bd cl.
Proof.
  unfold has_king, no_king. split.
  - intros E x Hx [Hn Hc].
    assert (existsb (fun cell : option nat =>
              match cell with
              | Some piece => name_eqb (name (h !!! piece)) King
                              && color_eqb (color (h !!! piece)) cl
              | None => false
              end) (concat bd) = true) as E'; [|congruence].
    apply existsb_exists. exists (Some x). split.
    + by apply list_elem_of_In.
    + apply andb_true_iff. split; [by apply name_eqb_eq|by apply color_eqb_eq].
  - intros Hno. apply not_true_is_false. intros E.
    apply existsb_exists in E as [[x|] [Hx E]]; [|done].
    apply andb_true_iff in E as [E1 E2].
    apply (Hno x); [by apply list_elem_of_In|].
    split; [by apply name_eqb_eq|by apply color_eqb_eq].
Qed.

(** ** King moves and castling *)

(** The moves found by the loop of [get_king_moves] are one column away
    from the king at most. *)
Lemma king_step_near (bd : Board) (self : ref) (moves moves' : list Square)
    (h h' : Heap) (d : Z * Z) :
  -1 ≤ snd d ≤ 1 →
  Forall (fun m => -1 ≤ snd m - col (h !!! self) ≤ 1) moves →
  king_step bd self (moves, h) d = (moves', h') →
  Forall (fun m => -1 ≤ snd m - col (h !!! self) ≤ 1) moves'.
Proof.
  intros Hd Hm. unfold king_step.
  destruct (on_board _ _); [|by intros [= <- <-]].
  destruct (match board_at bd _ _ with None => _ | Some _ => _ end);
    [|by intros [= <- <-]].
  destruct (negb _); intros [= <- <-]; [|done].
  apply Forall_app. split; [done|]. apply Forall_singleton. simpl. lia.
Qed.

Lemma king_loop_near (bd : Board) (self : ref) (h : Heap) (ds : list (Z * Z)) :
  ∀ moves,
  Forall (fun d => -1 ≤ snd d ≤ 1) ds →
  Forall (fun m => -1 ≤ snd m - col (h !!! self) ≤ 1) moves →
  Forall (fun m => -1 ≤ snd m - col (h !!! self) ≤ 1)
         (fst (fold_left (king_step bd self) ds (moves, h))).
Proof.
  induction ds as [|d ds IH]; intros moves Hds Hm; cbn [fold_left]; [done|].
  apply Forall_cons in Hds as [Hd Hds].
  destruct (king_step bd self (moves, h) d) as [moves' h'] eqn:E.
  pose proof (king_step_heap bd self moves h d) as Eh. rewrite E in Eh.
  simpl in Eh. subst h'. apply IH; [done|]. by eapply king_step_near.
Qed.

Lemma king_directions_near : Forall (fun d : Z * Z => -1 ≤ snd d ≤ 1) king_directions.
Proof. unfold king_directions. repeat constructor; simpl; lia. Qed.

(** A destination two columns from the king is there because the castling
    test of that side has passed. *)
Lemma castling_offered (h : Heap) (bd : Board) (self : ref) :
  let me := h !!! self in
  (In (row me, col me + 2) (fst (get_king_moves h bd self)) →
   has_moved me = false ∧ is_in_check h bd (color me) = false
   ∧ can_castle_kingside h bd (color me) = true)
  ∧ (In (row me, col me - 2) (fst (get_king_moves h bd self)) →
     has_moved me = false ∧ is_in_check h bd (color me) = false
     ∧ can_castle_queenside h bd (color me) = true).
Proof.
  intros me. unfold get_king_moves.
  pose proof (king_loop_heap bd self king_directions [] h) as Eh.
  pose proof (king_loop_near bd self h king_directions [] king_directions_near
                (Forall_nil_2 _)) as Hnear.
  destruct (fold_left _ _ _) as [moves h']. simpl in Eh, Hnear. subst h'.
  fold me. rewrite Forall_forall in Hnear.
  assert (∀ δ, δ = 2 ∨ δ = -2 → ¬ In (row me, col me + δ) moves) as Hfar.
  { intros δ Hδ Hin. apply list_elem_of_In, Hnear in Hin. simpl in Hin. fold me in Hin. lia. }
  destruct (negb (has_moved me)) eqn:Emoved; simpl.
  - destruct (is_in_check h bd (color me)) eqn:Echeck; simpl.
    + split; intros Hin; exfalso.
      * apply (Hfar 2); auto.
      * apply (Hfar (-2)); auto.
    + apply negb_true_iff in Emoved.
      set (ks := can_castle_kingside h bd (color me)).
      set (qs := can_castle_queenside h bd (color me)).
      assert (∀ x, In x (if qs
                         then (if ks then moves ++ [(row me, col me + 2)] else moves)
                              ++ [(row me, col me - 2)]
                         else if ks then moves ++ [(row me, col me + 2)] else moves) →
                   In x moves ∨ (ks = true ∧ x = (row me, col me + 2))
                   ∨ (qs = true ∧ x = (row me, col me - 2))) as Hcases.
      { intros x. destruct ks, qs; rewrite ?in_app_iff; simpl; intuition. }
      split; intros Hin; apply Hcases in Hin as [Hin|[[Hk Hin]|[Hq Hin]]].
      * exfalso. apply (Hfar 2); auto.
      * done.
      * injection Hin as Hin. lia.
      * exfalso. apply (Hfar (-2)); auto.
      * injection Hin as Hin. lia.
      * done.
  - split; intros Hin; exfalso.
    + apply (Hfar 2); auto.
    + apply (Hfar (-2)); auto.
Qed.

Lemma rook_fit (h : Heap) (cell : Cell) (cl : Color) :
  rook_unfit h cell cl = false →
  ∃ rook, cell = Some rook ∧ name (h !!! rook) = Rook
          ∧ color (h !!! rook) = cl ∧ has_moved (h !!! rook) = false.
Proof.
  destruct cell as [rook|]; simpl; [|done]. intros E.
  apply orb_false_iff in E as [E E3]. apply orb_false_iff in E as [E1 E2].
  apply negb_false_iff in E1, E2. apply name_eqb_eq in E1. apply color_eqb_eq in E2.
  by exists rook.
Qed.

Lemma can_castle_kingside_true (h : Heap) (bd : Board) (cl : Color) :
  can_castle_kingside h bd cl = true →
  rook_unfit h (board_at bd (home_row cl) 7) cl = false
  ∧ (∀ c, 4 < c < 7 → board_at bd (home_row cl) c = None)
  ∧ (∀ c, 4 ≤ c ≤ 6 → is_square_under_attack h bd (home_row cl, c) cl = false).
Proof.
  unfold can_castle_kingside.
  destruct (rook_unfit _ _ _); [done|].
  destruct (existsb _ [5; 6]) eqn:Eempty; [done|].
  destruct (existsb _ [4; 5; 6]) eqn:Esafe; [done|]. intros _.
  simpl in Eempty, Esafe.
  repeat (apply orb_false_iff in Eempty as [? Eempty]).
  repeat (apply orb_false_iff in Esafe as [? Esafe]).
  repeat match goal with
         | H : negb (bool_decide _) = false |- _ =>
             apply negb_false_iff, bool_decide_eq_true in H
         end.
  split; [done|]. split.
  - intros c Hc. assert (c = 5 ∨ c = 6) as [-> | ->] by lia; done.
  - intros c Hc. assert (c = 4 ∨ c = 5 ∨ c = 6) as [-> | [-> | ->]] by lia; done.
Qed.

Lemma can_castle_queenside_true (h : Heap) (bd : Board) (cl : Color) :
  can_castle_queenside h bd cl = true →
  rook_unfit h (board_at bd (home_row cl) 0) cl = false
  ∧ (∀ c, 0 < c < 4 → board_at bd (home_row cl) c = None)
  ∧ (∀ c, 2 ≤ c ≤ 4 → is_square_under_attack h bd (home_row cl, c) cl = false).
Proof.
  unfold can_castle_queenside.
  destruct (rook_unfit _ _ _); [done|].
  destruct (existsb _ [1; 2; 3]) eqn:Eempty; [done|].
  destruct (existsb _ [2; 3; 4]) eqn:Esafe; [done|]. intros _.
  simpl in Eempty, Esafe.
  repeat (apply orb_false_iff in Eempty as [? Eempty]).
  repeat (apply orb_false_iff in Esafe as [? Esafe]).
  repeat match goal with
         | H : negb (bool_decide _) = false |- _ =>
             apply negb_false_iff, bool_decide_eq_true in H
         end.
  split; [done|]. split.
  - intros c Hc. assert (c = 1 ∨ c = 2 ∨ c = 3) as [-> | [-> | ->]] by lia; done.
  - intros c Hc. assert (c = 2 ∨ c = 3 ∨ c = 4) as [-> | [-> | ->]] by lia; done.
Qed.

(** For a king on its home square the castling tests of the program are
    the conditions of the claim. *)
Lemma castling_claim_home (h : Heap) (bd : Board) (self : ref) :
  row (h !!! self) = home_row (color (h !!! self)) →
  col (h !!! self) = 4 →
  castling_claim h bd self.
Proof.
  intros Hrow Hcol. unfold castling_claim.
  destruct (castling_offered h bd self) as [Hk Hq].
  intros dest_col rook_col [[-> ->]|[-> ->]] Hin.
  - destruct (Hk Hin) as (Hm & Hc & Hks).
    apply can_castle_kingside_true in Hks as (Hrook & Hempty & Hsafe).
    rewrite Hrow, Hcol. split; [done|]. split; [by apply rook_fit|].
    split; [intros c Hc'; apply Hempty; lia|]. split; [done|].
    intros c Hc'. apply Hsafe. lia.
  - destruct (Hq Hin) as (Hm & Hc & Hqs).
    apply can_castle_queenside_true in Hqs as (Hrook & Hempty & Hsafe).
    rewrite Hrow, Hcol. split; [done|]. split; [by apply rook_fit|].
    split; [intros c Hc'; apply Hempty; lia|]. split; [done|].
    intros c Hc'. apply Hsafe. lia.
Qed.

(** ** The scan of [is_checkmate] *)

Lemma no_escape_true (h : Heap) (bd : Board) (piece : ref) (cl : Color)
    (moves : list Square) :
  no_escape h bd piece cl moves = Some true
  ↔ Forall (fun m => in_check_after h bd piece m cl = Some true) moves.
Proof.
  induction moves as [|m moves IH]; simpl.
  - split; [constructor|done].
  - destruct (in_check_after h bd piece m cl) as [[|]|] eqn:E.
    + rewrite IH. split; [|by intros [_ ?]%Forall_cons].
      intros Hrest. apply Forall_cons. by split.
    + split; [done|]. intros [Hm _]%Forall_cons. congruence.
    + split; [done|]. intros [Hm _]%Forall_cons. congruence.
Qed.

Lemma checkmate_scan_true (h : Heap) (bd : Board) (cl : Color) (cells : list Cell) :
  checkmate_scan h bd cl cells = Some (true, h)
  ↔ Forall (cell_stuck h bd cl None) cells.
Proof.
  induction cells as [|[piece|] cells IH]; simpl.
  - split; [constructor|done].
  - destruct (color_eqb (color (h !!! piece)) cl) eqn:Ecl.
    + pose proof (get_valid_moves_heap h bd piece None) as Eh.
      destruct (get_valid_moves h bd piece None) as [moves h1] eqn:Em.
      simpl in Eh. subst h1.
      destruct (no_escape h bd piece cl moves) as [[|]|] eqn:E.
      * rewrite IH. apply no_escape_true in E. split.
        -- intros Hrest. apply Forall_cons. split; [|done].
           intros ? [= <-] _. by rewrite Em.
        -- by intros [_ ?]%Forall_cons.
      * split; [done|]. intros [Hst _]%Forall_cons.
        apply color_eqb_eq in Ecl. specialize (Hst piece eq_refl Ecl).
        rewrite Em in Hst. simpl in Hst. apply no_escape_true in Hst. congruence.
      * split; [done|]. intros [Hst _]%Forall_cons.
        apply color_eqb_eq in Ecl. specialize (Hst piece eq_refl Ecl).
        rewrite Em in Hst. simpl in Hst. apply no_escape_true in Hst. congruence.
    + rewrite IH. split.
      * intros Hrest. apply Forall_cons. split; [|done].
        intros ? [= <-] Hc. apply color_eqb_eq in Hc. congruence.
      * by intros [_ ?]%Forall_cons.
  - rewrite IH. split.
    + intros Hrest. apply Forall_cons. split; [|done]. by intros ?.
    + by intros [_ ?]%Forall_cons.
Qed.

(** ** Deep copies *)

Lemma deepcopy_piece_id (p : Piece) : deepcopy_piece p = p.
Proof. by destruct p. Qed.

Lemma memo_ok_prefix (h0 h h' : Heap) (memo : Memo) :
  memo_ok h0 h memo → h `prefix_of` h' → memo_ok h0 h' memo.
Proof.
  intros Hm Hp x y Hxy. destruct (Hm x y Hxy) as [Hy E].
  pose proof (prefix_length _ _ Hp). split; [lia|].
  by rewrite (lookup_total_prefix h h') by (done || lia).
Qed.

Lemma deepcopy_cell_spec (h0 h h' : Heap) (memo memo' : Memo) (cell cell' : Cell) :
  h0 `prefix_of` h → memo_ok h0 h memo →
  cell_within 0 (length h0) cell →
  deepcopy_cell (memo, h) cell = (cell', (memo', h')) →
  h `prefix_of` h' ∧ memo_ok h0 h' memo'
  ∧ cell_within (length h0) (length h') cell'
  ∧ option_map (fun x => h' !!! x) cell' = option_map (fun x => h0 !!! x) cell.
Proof.
  intros Hp Hm Hc. destruct cell as [x|]; simpl.
  - pose proof (prefix_length _ _ Hp) as Hlen.
    destruct (memo_find memo x) as [y|] eqn:Ef.
    + intros [= <- <- <-]. destruct (Hm x y Ef) as [Hy E].
      split; [done|]. split; [done|]. split.
      * intros ? [= <-]. lia.
      * simpl. by rewrite E.
    + intros [= <- <- <-].
      assert (x < length h0)%nat as Hx by (specialize (Hc x eq_refl); lia).
      assert (h !!! x = h0 !!! x) as Ex by (by apply lookup_total_prefix).
      split; [by apply prefix_app_r|]. split; [|split].
      * intros x' y'. simpl. destruct (Nat.eqb x x') eqn:En.
        -- apply Nat.eqb_eq in En as <-. intros [= <-].
           rewrite length_app. simpl. split; [lia|].
           rewrite lookup_total_app_r by lia. rewrite Nat.sub_diag. simpl.
           by rewrite deepcopy_piece_id.
        -- intros Ef'. destruct (Hm x' y' Ef') as [Hy E].
           rewrite length_app. simpl. split; [lia|].
           by rewrite lookup_total_app_l by lia.
      * intros ? [= <-]. rewrite length_app. simpl. lia.
      * simpl. rewrite lookup_total_app_r by lia. rewrite Nat.sub_diag. simpl.
        by rewrite deepcopy_piece_id, Ex.
  - intros [= <- <- <-]. split; [done|]. split; [done|]. split; [|done].
    intros ? [=].
Qed.

Lemma option_map_prefix (h h' : Heap) (lo : nat) (cell : Cell) :
  h `prefix_of` h' → cell_within lo (length h) cell →
  option_map (fun x => h' !!! x) cell = option_map (fun x => h !!! x) cell.
Proof.
  intros Hp Hc. destruct cell as [x|]; [|done]. simpl.
  rewrite (lookup_total_prefix h h'); [done|done|]. specialize (Hc x eq_refl). lia.
Qed.

Lemma deepcopy_row_spec (h0 : Heap) (rw : list Cell) :
  ∀ (h h' : Heap) (memo memo' : Memo) (rw' : list Cell),
  h0 `prefix_of` h → memo_ok h0 h memo →
  Forall (cell_within 0 (length h0)) rw →
  deepcopy_row (memo, h) rw = (rw', (memo', h')) →
  h `prefix_of` h' ∧ memo_ok h0 h' memo'
  ∧ Forall (cell_within (length h0) (length h')) rw'
  ∧ map (option_map (fun x => h' !!! x)) rw' = map (option_map (fun x => h0 !!! x)) rw.
Proof.
  induction rw as [|cell rw IH]; intros h h' memo memo' rw' Hp Hm Hc; simpl.
  - intros [= <- <- <-]. done.
  - destruct (deepcopy_cell (memo, h) cell) as [cell' [memo1 h1]] eqn:E1.
    destruct (deepcopy_row (memo1, h1) rw) as [rest' [memo2 h2]] eqn:E2.
    intros [= <- <- <-].
    apply Forall_cons in Hc as [Hc1 Hc2].
    destruct (deepcopy_cell_spec h0 h h1 memo memo1 cell cell' Hp Hm Hc1 E1)
      as (Hp1 & Hm1 & Hw1 & Ev1).
    destruct (IH h1 h2 memo1 memo2 rest' (transitivity Hp Hp1) Hm1 Hc2 E2)
      as (Hp2 & Hm2 & Hw2 & Ev2).
    split; [by transitivity h1|]. split; [done|]. split.
    + apply Forall_cons. split; [|done].
      eapply cell_within_mono; [|done]. by apply prefix_length.
    + simpl. f_equal; [|done].
      rewrite <- Ev1. by apply (option_map_prefix h1 h2 (length h0)).
Qed.

Lemma view_prefix (h h' : Heap) (lo : nat) (bd : Board) :
  h `prefix_of` h' → refs_within lo (length h) bd → view h' bd = view h bd.
Proof.
  intros Hp Hb. unfold view. apply map_ext_Forall.
  eapply Forall_impl; [exact Hb|]. intros rw Hrw. apply map_ext_Forall.
  eapply Forall_impl; [exact Hrw|]. intros cell Hc.
  by apply (option_map_prefix h h' lo).
Qed.

Lemma deepcopy_rows_spec (h0 : Heap) (rows : Board) :
  ∀ (h h' : Heap) (memo memo' : Memo) (rows' : Board),
  h0 `prefix_of` h → memo_ok h0 h memo →
  refs_within 0 (length h0) rows →
  deepcopy_rows (memo, h) rows = (rows', (memo', h')) →
  h `prefix_of` h' ∧ memo_ok h0 h' memo'
  ∧ refs_within (length h0) (length h') rows'
  ∧ view h' rows' = view h0 rows.
Proof.
  induction rows as [|rw rows IH]; intros h h' memo memo' rows' Hp Hm Hc; simpl.
  - intros [= <- <- <-]. split; [done|]. split; [done|]. split; [constructor|done].
  - destruct (deepcopy_row (memo, h) rw) as [rw' [memo1 h1]] eqn:E1.
    destruct (deepcopy_rows (memo1, h1) rows) as [rest' [memo2 h2]] eqn:E2.
    intros [= <- <- <-].
    apply Forall_cons in Hc as [Hc1 Hc2].
    destruct (deepcopy_row_spec h0 rw h h1 memo memo1 rw' Hp Hm Hc1 E1)
      as (Hp1 & Hm1 & Hw1 & Ev1).
    destruct (IH h1 h2 memo1 memo2 rest' (transitivity Hp Hp1) Hm1 Hc2 E2)
      as (Hp2 & Hm2 & Hw2 & Ev2).
    split; [by transitivity h1|]. split; [done|]. split.
    + apply Forall_cons. split; [|done].
      eapply Forall_impl; [exact Hw1|]. intros cell.
      apply cell_within_mono. by apply prefix_length.
    + unfold view in *. simpl. f_equal; [|done].
      rewrite <- Ev1. apply map_ext_Forall.
      eapply Forall_impl; [exact Hw1|]. intros cell Hcell.
      by apply (option_map_prefix h1 h2 (length h0)).
Qed.

(** A deep copy of a board whose references are allocated: the store only
    grows, the copy lives in the new part of it, and it has the contents
    of the original. *)
Lemma deepcopy_board_spec (h h' : Heap) (bd bd' : Board) :
  refs_within 0 (length h) bd →
  deepcopy_board h bd = (bd', h') →
  h `prefix_of` h'
  ∧ refs_within (length h) (length h') bd'
  ∧ view h' bd' = view h bd.
Proof.
  intros Hb. unfold deepcopy_board.
  destruct (deepcopy_rows ([], h) bd) as [rows' [memo' h1]] eqn:E.
  intros [= <- <-].
  destruct (deepcopy_rows_spec h bd h h1 [] memo' rows') as (Hp & _ & Hw & Ev);
    try done.
Qed.

(** Without any assumption the store still only grows. *)
Lemma deepcopy_board_prefix (h h' : Heap) (bd bd' : Board) :
  deepcopy_board h bd = (bd', h') → h `prefix_of` h'.
Proof.
  unfold deepcopy_board.
  destruct (deepcopy_rows ([], h) bd) as [rows' [memo' h1]] eqn:E.
  intros [= <- <-]. revert E. generalize (@nil (nat * nat)) as memo.
  revert h rows' memo' h1.
  induction bd as [|rw rows IH]; intros h rows' memo' h2 memo; simpl.
  - by intros [= <- <- <-].
  - destruct (deepcopy_row (memo, h) rw) as [rw' [memo1 h1]] eqn:E1.
    destruct (deepcopy_rows (memo1, h1) rows) as [rest' [memo2 h3]] eqn:E2.
    intros [= <- <- <-]. transitivity h1; [|by eapply IH].
    clear E2 IH. revert h rw' memo memo1 h1 E1.
    induction rw as [|cell rw IHr]; intros h rw' memo memo1 h1; simpl.
    + by intros [= <- <- <-].
    + destruct (deepcopy_cell (memo, h) cell) as [cell' [memo3 h4]] eqn:E3.
      destruct (deepcopy_row (memo3, h4) rw) as [rest2 [memo4 h5]] eqn:E4.
      intros [= <- <- <-]. transitivity h4; [|by eapply IHr].
      destruct cell as [x|]; simpl in E3.
      * destruct (memo_find memo x); injection E3 as <- <- <-; [done|].
        by apply prefix_app_r.
      * by injection E3 as <- <- <-.
Qed.

Lemma view_agree (h h' : Heap) (lo hi : nat) (bd : Board) :
  (∀ y, (lo ≤ y < hi)%nat → h' !!! y = h !!! y) →
  refs_within lo hi bd → view h' bd = view h bd.
Proof.
  intros Hag Hb. unfold view. apply map_ext_Forall.
  eapply Forall_impl; [exact Hb|]. intros rw Hrw. apply map_ext_Forall.
  eapply Forall_impl; [exact Hrw|]. intros [x|] Hc; [|done]. simpl.
  f_equal. apply Hag. by apply Hc.
Qed.

(** Boards with the same contents. *)
Lemma view_piece_at (h h' : Heap) (bd bd' : Board) (r c : Z) :
  view h' bd' = view h bd → piece_at h' bd' r c = piece_at h bd r c.
Proof.
  intros Ev. unfold piece_at, board_at.
  assert (∀ (k : Heap) (b : Board),
            option_map (fun x => k !!! x)
              (match b !! Z.to_nat r with
               | Some rw => default None (rw !! Z.to_nat c)
               | None => None
               end)
            = default None (view k b !! Z.to_nat r ≫= (.!! Z.to_nat c))) as Hv.
  { intros k b. unfold view. rewrite !list_lookup_fmap.
    destruct (b !! Z.to_nat r) as [rw|]; [|done]. simpl.
    rewrite list_lookup_fmap. by destruct (rw !! Z.to_nat c). }
  by rewrite !Hv, Ev.
Qed.

Lemma view_grid (h h' : Heap) (bd bd' : Board) :
  view h' bd' = view h bd → grid bd → grid bd'.
Proof.
  intros Ev [Hlen Hrows]. unfold view in Ev. split.
  - apply (f_equal length) in Ev. rewrite !length_map in Ev. lia.
  - apply Forall_lookup_2. intros i rw' Hi.
    assert (is_Some (bd !! i)) as [rw Hrw].
    { apply lookup_lt_is_Some. apply lookup_lt_Some in Hi.
      apply (f_equal length) in Ev. rewrite !length_map in Ev. lia. }
    apply (f_equal (fun l => l !! i)) in Ev.
    rewrite !list_lookup_fmap, Hi, Hrw in Ev. simpl in Ev.
    injection Ev as Ev. apply (f_equal length) in Ev. rewrite !length_map in Ev.
    eapply Forall_lookup_1 in Hrows; [|exact Hrw]. simpl in Hrows. lia.
Qed.

Lemma view_placed (h h' : Heap) (bd bd' : Board) :
  view h' bd' = view h bd → placed h bd → placed h' bd'.
Proof.
  intros Ev Hp r c x' Hr Hc Hx'.
  pose proof (view_piece_at h h' bd bd' r c Ev) as E.
  unfold piece_at in E. rewrite Hx' in E. simpl in E.
  destruct (board_at bd r c) as [x|] eqn:Hx; [|done]. simpl in E.
  injection E as ->. by apply (Hp r c x).
Qed.

(** ** What a committed move writes *)

Lemma shift_rook_row (mark : bool) (h h' : Heap) (bd bd' : Board)
    (r from to : Z) (y : ref) :
  shift_rook mark h bd r from to = Some (h', bd') →
  row (h !!! y) = r → row (h' !!! y) = r ∧ length h' = length h.
Proof.
  unfold shift_rook. destruct (board_at bd r from) as [x|]; [|done].
  intros [= <- <-] E. destruct mark.
  - rewrite row_set_moved, length_set_moved, length_set_pos.
    split; [|done]. by apply (row_set_pos_other h x y r r to).
  - rewrite length_set_pos. split; [|done]. by apply (row_set_pos_other h x y r r to).
Qed.

(** After the commit branch has moved the piece, the piece that
    [selected_piece] refers to (the moved one, or the piece it was
    promoted to) carries the destination row. *)
Lemma move_piece_row (h : Heap) (bd : Board) (sel : ref) (ep : option Square)
    (r c : Z) (key : Promotion) (cw cb : list string) (mv : Moved) :
  (sel < length h)%nat →
  move_piece h bd sel ep r c key cw cb = Some mv →
  row (mv_heap mv !!! mv_piece mv) = r.
Proof.
  intros Hsel. unfold move_piece.
  destruct (en_passant_capture _ _ _ _ _ _ _ _) as [[bd1 [cw1 cb1]]|]; [|done].
  simpl. destruct (match board_at _ r c with Some _ => _ | None => _ end) as [cw2 cb2].
  set (h1 := set_moved (set_pos h sel r c) sel true).
  set (bd2 := board_set _ r c (Some sel)).
  assert (row (h1 !!! sel) = r) as Hrow.
  { unfold h1. rewrite row_set_moved, lookup_set_pos. by rewrite decide_True. }
  assert (∀ h2 bd3, castle_rook h1 bd2 sel r c = Some (h2, bd3) →
                    row (h2 !!! sel) = r) as Hcastle.
  { intros h2 bd3. unfold castle_rook.
    destruct (_ && _); [|congruence].
    destruct (c - 4 =? 2).
    - intros E. by apply (shift_rook_row _ _ _ _ _ _ _ _ sel) in E as [? _].
    - destruct (c - 4 =? -2); [|congruence].
      intros E. by apply (shift_rook_row _ _ _ _ _ _ _ _ sel) in E as [? _]. }
  destruct (castle_rook h1 bd2 sel r c) as [[h2 bd3]|] eqn:Ec; [|done].
  simpl. specialize (Hcastle h2 bd3 eq_refl).
  unfold promotion. destruct (_ && _).
  - intros [= <-]. simpl.
    rewrite lookup_total_app_r by lia. by rewrite Nat.sub_diag.
  - by intros [= <-].
Qed.

(** The formula of the en-passant update is evaluated on a piece whose
    [row] is already the destination row: it never yields a target. *)
Lemma next_en_passant_target_stale (p : Piece) (c : Z) :
  next_en_passant_target p (row p) c = None.
Proof.
  unfold next_en_passant_target.
  replace (Z.abs (row p - (row p - match color p with W => -1 | B => 1 end)) =? 2)
    with false; [by rewrite andb_false_r|].
  symmetry. apply Z.eqb_neq. destruct (color p); lia.
Qed.

(** Whatever move is committed, no en-passant target is set. *)
Lemma commit_en_passant_target (st st' : State) (sel : ref) (r c : Z)
    (key : Promotion) :
  (sel < length (heap st))%nat →
  commit st sel r c key = Some st' →
  en_passant_target st' = None.
Proof.
  intros Hsel. unfold commit.
  destruct (deepcopy_board (heap st) (board st)) as [saved h] eqn:Ed.
  apply deepcopy_board_prefix, prefix_length in Ed.
  destruct (move_piece h (board st) sel _ r c key _ _) as [mv|] eqn:Em; [|done].
  apply move_piece_row in Em; [|lia].
  cbn [mbind option_bind]. 
  pose proof (next_en_passant_target_stale (mv_heap mv !!! mv_piece mv) c) as Hs.
  rewrite Em in Hs. rewrite Hs.
  destruct (check_win_condition _ _) as [over won].
  destruct (negb over).
  - destruct (is_checkmate _ _ _) as [[mate h2]|]; [|done]. by intros [= <-].
  - by intros [= <-].
Qed.

Lemma shift_rook_frame (mark : bool) (h h' : Heap) (bd bd' : Board)
    (r from to : Z) (n : nat) :
  refs_within 0 n bd →
  shift_rook mark h bd r from to = Some (h', bd') →
  (∀ y, (n ≤ y)%nat → h' !!! y = h !!! y)
  ∧ length h' = length h ∧ refs_within 0 n bd'.
Proof.
  intros Hb. unfold shift_rook.
  destruct (board_at bd r from) as [x|] eqn:Ex; [|done].
  intros [= <- <-].
  pose proof (refs_within_at _ _ _ _ _ _ Hb Ex) as Hx.
  split; [|split].
  - intros y Hy. destruct mark.
    + rewrite set_moved_other, set_pos_other by lia. done.
    + by rewrite set_pos_other by lia.
  - destruct mark; by rewrite ?length_set_moved, length_set_pos.
  - apply refs_within_set; [apply refs_within_set|]; try done.
    by apply cell_within_Some.
Qed.

Lemma castle_rook_frame (h h' : Heap) (bd bd' : Board) (sel : ref)
    (r c : Z) (n : nat) :
  refs_within 0 n bd →
  castle_rook h bd sel r c = Some (h', bd') →
  (∀ y, (n ≤ y)%nat → h' !!! y = h !!! y)
  ∧ length h' = length h ∧ refs_within 0 n bd'.
Proof.
  intros Hb. unfold castle_rook.
  destruct (_ && _); [|by intros [= <- <-]].
  destruct (c - 4 =? 2); [by apply shift_rook_frame|].
  destruct (c - 4 =? -2); [by apply shift_rook_frame|by intros [= <- <-]].
Qed.

Lemma en_passant_capture_refs (h : Heap) (bd bd' : Board) (sel : ref)
    (ep : option Square) (r c : Z) (cw cb : list string)
    (lists : list string * list string) (n : nat) :
  refs_within 0 n bd →
  en_passant_capture h bd sel ep r c cw cb = Some (bd', lists) →
  refs_within 0 n bd'.
Proof.
  intros Hb. unfold en_passant_capture.
  destruct (_ && _); [|by intros [= <- <-]].
  destruct (board_at bd _ c); [|done]. intros [= <- <-].
  by apply refs_within_set.
Qed.

(** The commit branch writes only to pieces of the live board and to the
    selected piece, and allocates at most one new piece: a piece stored at
    or above [n], where [n] bounds the live references, is left alone. *)
Lemma move_piece_frame (h : Heap) (bd : Board) (sel : ref) (ep : option Square)
    (r c : Z) (key : Promotion) (cw cb : list string) (mv : Moved) (n : nat) :
  refs_within 0 n bd → (sel < n)%nat → (n ≤ length h)%nat →
  move_piece h bd sel ep r c key cw cb = Some mv →
  (∀ y, (n ≤ y < length h)%nat → mv_heap mv !!! y = h !!! y)
  ∧ (length h ≤ length (mv_heap mv))%nat
  ∧ refs_within 0 (length (mv_heap mv)) (mv_board mv).
Proof.
  intros Hb Hsel Hn. unfold move_piece.
  destruct (en_passant_capture _ _ _ _ _ _ _ _) as [[bd1 [cw1 cb1]]|] eqn:Eep;
    [|done].
  apply (en_passant_capture_refs _ _ _ _ _ _ _ _ _ _ n Hb) in Eep.
  simpl. destruct (match board_at _ r c with Some _ => _ | None => _ end) as [cw2 cb2].
  set (h1 := set_moved (set_pos h sel r c) sel true).
  set (bd2 := board_set _ r c (Some sel)).
  assert (refs_within 0 n bd2) as Hb2.
  { apply refs_within_set; [apply refs_within_set|]; try done.
    apply cell_within_Some. lia. }
  assert (∀ y, (n ≤ y)%nat → h1 !!! y = h !!! y) as Hh1.
  { intros y Hy. unfold h1. by rewrite set_moved_other, set_pos_other by lia. }
  assert (length h1 = length h) as Hl1
    by (unfold h1; by rewrite length_set_moved, length_set_pos).
  destruct (castle_rook h1 bd2 sel r c) as [[h2 bd3]|] eqn:Ec; [|done].
  apply (castle_rook_frame _ _ _ _ _ _ _ n Hb2) in Ec as (Hh2 & Hl2 & Hb3).
  simpl. unfold promotion. destruct (_ && _).
  - intros [= <-]. simpl. split; [|split].
    + intros y Hy. rewrite lookup_total_app_l by lia.
      rewrite Hh2, Hh1 by lia. done.
    + rewrite length_app. simpl. lia.
    + rewrite length_app. simpl. apply refs_within_set.
      * eapply refs_within_mono; [|exact Hb3]. lia.
      * apply cell_within_Some. lia.
  - intros [= <-]. simpl. split; [|split].
    + intros y Hy. rewrite Hh2, Hh1 by lia. done.
    + lia.
    + eapply refs_within_mono; [|exact Hb3]. lia.
Qed.

Lemma placed_clear (h : Heap) (bd : Board) (r c : Z) :
  placed h bd → placed h (board_set bd r c None).
Proof.
  intros Hp i j x Hi Hj E.
  destruct (board_at_set bd r c i j None) as [E'|E']; rewrite E' in E; [done|].
  by apply Hp.
Qed.

Lemma placed_move (h : Heap) (bd : Board) (sel : ref) (r c : Z) :
  grid bd → placed h bd → on_board r c = true → (sel < length h)%nat →
  ¬ on_bd bd sel →
  placed (set_moved (set_pos h sel r c) sel true) (board_set bd r c (Some sel)).
Proof.
  intros Hg Hp Hrc Hsel Hfree i j y Hi Hj E.
  apply on_board_iff in Hrc as Hrc'.
  destruct (decide ((r, c) = (i, j))) as [[= <- <-]|Hne].
  - rewrite board_at_set_same in E by done. injection E as <-.
    rewrite lookup_set_moved, length_set_pos, decide_True by done.
    rewrite lookup_set_pos, decide_True by done. done.
  - rewrite board_at_set_other in E by (done || lia).
    assert (y ≠ sel) as Hy by (intros ->; apply Hfree; by exists i, j).
    rewrite set_moved_other, set_pos_other by done. by apply Hp.
Qed.

Lemma placed_shift (mark : bool) (h h' : Heap) (bd bd' : Board) (r from to : Z) :
  grid bd → placed h bd → refs_within 0 (length h) bd →
  0 ≤ r < 8 → 0 ≤ from < 8 → 0 ≤ to < 8 → from ≠ to →
  shift_rook mark h bd r from to = Some (h', bd') →
  grid bd' ∧ placed h' bd' ∧ (∀ y, on_bd bd' y → on_bd bd y)
  ∧ (∀ y, name (h' !!! y) = name (h !!! y)).
Proof.
  intros Hg Hp Hb Hr Hfrom Hto Hne. unfold shift_rook.
  destruct (board_at bd r from) as [x|] eqn:Ex; [|done]. intros [= <- <-].
  pose proof (refs_within_at _ _ _ _ _ _ Hb Ex) as Hx.
  assert (on_board r from = true) as Hrf by (apply on_board_iff; lia).
  assert (on_board r to = true) as Hrt by (apply on_board_iff; lia).
  split; [by do 2 apply grid_set|]. split; [|split].
  - set (h1 := set_pos h x r to).
    assert (∀ i j y, 0 ≤ i → 0 ≤ j →
              board_at (board_set (board_set bd r from None) r to (Some x)) i j = Some y →
              row (h1 !!! y) = i ∧ col (h1 !!! y) = j) as Hp1.
    { intros i j y Hi Hj E. unfold h1.
      destruct (decide ((r, to) = (i, j))) as [[= <- <-]|Hne1].
      - rewrite board_at_set_same in E by (done || by apply grid_set).
        injection E as <-. rewrite lookup_set_pos, decide_True by (split; [done|lia]).
        done.
      - rewrite board_at_set_other in E by (done || lia).
        destruct (decide ((r, from) = (i, j))) as [[= <- <-]|Hne2].
        + by rewrite board_at_set_same in E.
        + rewrite board_at_set_other in E by (done || lia).
          assert (y ≠ x) as Hy.
          { intros ->. destruct (Hp i j x Hi Hj E) as [E1 E2].
            destruct (Hp r from x ltac:(lia) ltac:(lia) Ex) as [E3 E4].
            apply Hne2. f_equal; congruence. }
          rewrite set_pos_other by done. by apply Hp. }
    intros i j y Hi Hj E. destruct mark; [|by apply Hp1].
    assert (row (set_moved h1 x true !!! y) = row (h1 !!! y)
            ∧ col (set_moved h1 x true !!! y) = col (h1 !!! y)) as [-> ->].
    { rewrite lookup_set_moved. case_decide as Ed; [|done]. by destruct Ed as [-> _]. }
    by apply Hp1.
  - intros y [E|Hy]%on_bd_set.
    + injection E as <-. exists r, from. split; [lia|]. split; [lia|done].
    + by apply on_bd_clear in Hy.
  - intros y. destruct mark; by rewrite ?name_set_moved, name_set_pos.
Qed.

Lemma placed_promote (h : Heap) (bd : Board) (sel : ref) (r c : Z)
    (nm : Name) (cl : Color) :
  grid bd → placed h bd → refs_within 0 (length h) bd →
  on_board r c = true → board_at bd r c = Some sel →
  placed (h ++ [new_Piece nm (row (h !!! sel)) (col (h !!! sel)) cl])
         (board_set bd r c (Some (length h))).
Proof.
  intros Hg Hp Hb Hrc Hsel i j y Hi Hj E.
  apply on_board_iff in Hrc as Hrc'.
  destruct (Hp r c sel ltac:(lia) ltac:(lia) Hsel) as [Er Ec].
  destruct (decide ((r, c) = (i, j))) as [[= <- <-]|Hne].
  - rewrite board_at_set_same in E by done. injection E as <-.
    rewrite lookup_total_app_r by lia. rewrite Nat.sub_diag. simpl. done.
  - rewrite board_at_set_other in E by (done || lia).
    pose proof (refs_within_at _ _ _ _ _ _ Hb E) as Hy.
    rewrite lookup_total_app_l by lia. by apply Hp.
Qed.

Lemma placed_agree (h h' : Heap) (bd : Board) :
  (∀ x, on_bd bd x → h' !!! x = h !!! x) → placed h bd → placed h' bd.
Proof.
  intros Hag Hp r c x Hr Hc E. rewrite Hag by (by exists r, c). by apply Hp.
Qed.

Lemma placed_prefix (h h' : Heap) (bd : Board) :
  h `prefix_of` h' → refs_within 0 (length h) bd → placed h bd → placed h' bd.
Proof.
  intros Hpre Hb. apply placed_agree. intros x Hx.
  apply lookup_total_prefix; [done|]. by apply (on_bd_allocated bd 0).
Qed.

(** A committed move keeps the board a grid on which every piece carries
    the coordinates of its cell; the pieces on the board afterwards were
    there before, or are newly allocated. *)
Lemma move_piece_placed (h : Heap) (bd : Board) (sel : ref) (ep : option Square)
    (r c : Z) (key : Promotion) (cw cb : list string) (mv : Moved) :
  grid bd → placed h bd → refs_within 0 (length h) bd →
  on_bd bd sel → on_board r c = true →
  move_piece h bd sel ep r c key cw cb = Some mv →
  grid (mv_board mv) ∧ placed (mv_heap mv) (mv_board mv)
  ∧ (∀ y, on_bd (mv_board mv) y → on_bd bd y ∨ (length h ≤ y)%nat).
Proof.
  intros Hg Hp Hb Hon Hrc.
  pose proof (on_bd_allocated _ _ _ _ Hb Hon) as Hsel.
  destruct Hon as (r0 & c0 & Hr0 & Hc0 & Hat).
  destruct (Hp r0 c0 sel Hr0 Hc0 Hat) as [Er0 Ec0].
  pose proof (board_at_grid _ _ _ _ Hg Hr0 Hc0 Hat) as Hon0.
  apply on_board_iff in Hrc as Hrc'.
  unfold move_piece.
  destruct (en_passant_capture _ _ _ _ _ _ _ _) as [[bd1 [cw1 cb1]]|] eqn:Eep;
    [|done].
  assert (grid bd1 ∧ placed h bd1 ∧ (∀ y, on_bd bd1 y → on_bd bd y)
          ∧ refs_within 0 (length h) bd1) as (Hg1 & Hp1 & Hsub1 & Hb1).
  { pose proof (en_passant_capture_refs _ _ _ _ _ _ _ _ _ _ _ Hb Eep) as Hb1.
    revert Eep. unfold en_passant_capture.
    destruct (_ && _); [|intros ?; by simplify_eq].
    destruct (board_at bd _ c); [|done]. intros ?; simplify_eq.
    split; [by apply grid_set|]. split; [by apply placed_clear|].
    split; [|done]. intros y. apply on_bd_clear. }
  simpl. destruct (match board_at _ r c with Some _ => _ | None => _ end) as [cw2 cb2].
  rewrite Er0, Ec0.
  set (bd1' := board_set bd1 r0 c0 None).
  assert (¬ on_bd bd1' sel) as Hfree.
  { intros (i & j & Hi & Hj & E).
    assert (board_at bd1 i j = Some sel) as E1.
    { destruct (board_at_set bd1 r0 c0 i j None) as [E'|E']; fold bd1' in E';
        rewrite E' in E; done. }
    destruct (Hp1 i j sel Hi Hj E1) as [Ei Ej].
    assert (i = r0 ∧ j = c0) as [-> ->] by (split; congruence).
    unfold bd1' in E. by rewrite board_at_set_same in E. }
  set (h2 := set_moved (set_pos h sel r c) sel true).
  set (bd2 := board_set bd1' r c (Some sel)).
  assert (grid bd2) as Hg2 by (by do 2 apply grid_set).
  assert (placed h2 bd2) as Hp2.
  { apply placed_move; [by apply grid_set|by apply placed_clear|done|lia|done]. }
  assert (∀ y, on_bd bd2 y → on_bd bd y) as Hsub2.
  { intros y [E|Hy]%on_bd_set.
    - injection E as <-. by exists r0, c0.
    - apply on_bd_clear in Hy. by apply Hsub1. }
  assert (length h2 = length h) as Hl2
    by (unfold h2; by rewrite length_set_moved, length_set_pos).
  assert (refs_within 0 (length h2) bd2) as Hb2.
  { rewrite Hl2. apply refs_within_set; [by apply refs_within_set|].
    apply cell_within_Some. lia. }
  assert (board_at bd2 r c = Some sel) as Hat2
    by (apply board_at_set_same; [by apply grid_set|done]).
  destruct (castle_rook h2 bd2 sel r c) as [[h3 bd3]|] eqn:Ec; [|done].
  assert (grid bd3 ∧ placed h3 bd3 ∧ (∀ y, on_bd bd3 y → on_bd bd2 y)
          ∧ length h3 = length h2 ∧ refs_within 0 (length h2) bd3
          ∧ (name (h3 !!! sel) = Pawn → board_at bd3 r c = Some sel))
    as (Hg3 & Hp3 & Hsub3 & Hl3 & Hb3 & Hat3).
  { pose proof (castle_rook_frame _ _ _ _ _ _ _ _ Hb2 Ec) as (_ & Hl3 & Hb3).
    revert Ec. unfold castle_rook.
    destruct (name_eqb (name (h2 !!! sel)) King && _) eqn:Ek;
      [|intros [= <- <-]; by do 5 (split; [done|])].
    apply andb_true_iff in Ek as [Ek _]. apply name_eqb_eq in Ek.
    destruct (c - 4 =? 2).
    - intros E.
      apply placed_shift in E as (? & ? & ? & Hn); try done; try lia.
      do 5 (split; [done|]). intros Hpawn. rewrite Hn in Hpawn. congruence.
    - destruct (c - 4 =? -2); [|intros [= <- <-]; by do 5 (split; [done|])].
      intros E.
      apply placed_shift in E as (? & ? & ? & Hn); try done; try lia.
      do 5 (split; [done|]). intros Hpawn. rewrite Hn in Hpawn. congruence. }
  simpl. unfold promotion.
  destruct (name_eqb (name (h3 !!! sel)) Pawn && _) eqn:Epromo.
  - apply andb_true_iff in Epromo as [Epawn _]. apply name_eqb_eq in Epawn.
    intros [= <-]. simpl. split; [by apply grid_set|]. split.
    + apply placed_promote; try done; [by rewrite Hl3|by apply Hat3].
    + intros y [E|Hy]%on_bd_set.
      * injection E as <-. right. lia.
      * left. by apply Hsub2, Hsub3.
  - intros [= <-]. simpl. split; [done|]. split; [done|].
    intros y Hy. left. by apply Hsub2, Hsub3.
Qed.

(** The commit branch leaves alone every piece that is not on the board
    it moves on. *)
Lemma move_piece_off_board (h : Heap) (bd : Board) (sel : ref) (ep : option Square)
    (r c : Z) (key : Promotion) (cw cb : list string) (mv : Moved) :
  on_bd bd sel → 0 ≤ r → 0 ≤ c →
  move_piece h bd sel ep r c key cw cb = Some mv →
  ∀ y, (y < length h)%nat → ¬ on_bd bd y → mv_heap mv !!! y = h !!! y.
Proof.
  intros Hon Hr Hc. unfold move_piece.
  destruct (en_passant_capture _ _ _ _ _ _ _ _) as [[bd1 [cw1 cb1]]|] eqn:Eep;
    [|done].
  assert (∀ y, on_bd bd1 y → on_bd bd y) as Hsub1.
  { revert Eep. unfold en_passant_capture.
    destruct (_ && _); [|intros ?; by simplify_eq].
    destruct (board_at bd _ c); [|done]. intros ?; simplify_eq.
    intros y. apply on_bd_clear. }
  simpl. destruct (match board_at _ r c with Some _ => _ | None => _ end) as [cw2 cb2].
  set (h2 := set_moved (set_pos h sel r c) sel true).
  set (bd2 := board_set _ r c (Some sel)).
  assert (∀ y, on_bd bd2 y → on_bd bd y) as Hsub2.
  { intros y [E|Hy]%on_bd_set; [by injection E as <-|].
    apply on_bd_clear in Hy. by apply Hsub1. }
  assert (length h2 = length h) as Hl2
    by (unfold h2; by rewrite length_set_moved, length_set_pos).
  assert (∀ y, ¬ on_bd bd y → h2 !!! y = h !!! y) as Hh2.
  { intros y Hy. assert (sel ≠ y) by (by intros <-).
    unfold h2. by rewrite set_moved_other, set_pos_other. }
  destruct (castle_rook h2 bd2 sel r c) as [[h3 bd3]|] eqn:Ec; [|done].
  assert (length h3 = length h2 ∧ ∀ y, ¬ on_bd bd y → h3 !!! y = h2 !!! y)
    as [Hl3 Hh3].
  { assert (∀ from to h3 bd3, 0 ≤ from →
              shift_rook true h2 bd2 r from to = Some (h3, bd3) →
              length h3 = length h2 ∧ ∀ y, ¬ on_bd bd y → h3 !!! y = h2 !!! y)
      as Hshift.
    { intros from to h4 bd4 Hfrom. unfold shift_rook.
      destruct (board_at bd2 r from) as [x|] eqn:Ex; [|done]. intros [= <- <-].
      split; [by rewrite length_set_moved, length_set_pos|].
      intros y Hy. assert (x ≠ y).
      { intros <-. apply Hy, Hsub2. by exists r, from. }
      by rewrite set_moved_other, set_pos_other. }
    revert Ec. unfold castle_rook.
    destruct (_ && _); [|by intros [= <- <-]].
    destruct (c - 4 =? 2); [by apply Hshift|].
    destruct (c - 4 =? -2); [by apply Hshift|by intros [= <- <-]]. }
  simpl. unfold promotion. destruct (_ && _).
  - intros [= <-] y Hy Hoff. simpl.
    rewrite lookup_total_app_l by lia. by rewrite Hh3, Hh2.
  - intros [= <-] y Hy Hoff. simpl. by rewrite Hh3, Hh2.
Qed.




(** ** Allocated references: an invariant of the program *)

Lemma place_refs (nm : Name) (r c : Z) (cl : Color) (h h' : Heap) (bd bd' : Board) :
  refs_within 0 (length h) bd →
  place nm r c cl (h, bd) = (h', bd') →
  refs_within 0 (length h') bd' ∧ (length h ≤ length h')%nat.
Proof.
  intros Hb [= <- <-]. rewrite length_app. simpl. split; [|lia].
  apply refs_within_set.
  - eapply refs_within_mono; [|exact Hb]. lia.
  - apply cell_within_Some. lia.
Qed.

Lemma place_rank_refs (r : Z) (cl : Color) (names : list Name) :
  ∀ (h h' : Heap) (bd bd' : Board),
  refs_within 0 (length h) bd →
  place_rank r cl names (h, bd) = (h', bd') →
  refs_within 0 (length h') bd' ∧ (length h ≤ length h')%nat.
Proof.
  unfold place_rank. generalize (imap (fun (i : nat) (nm : Name) => (i, nm)) names).
  intros l. induction l as [|[i nm] l IH]; intros h h' bd bd' Hb;
    cbn [fold_left fst snd].
  - by intros [= <- <-].
  - destruct (place nm r (Z.of_nat i) cl (h, bd)) as [h1 bd1] eqn:E1.
    apply (place_refs _ _ _ _ _ _ _ _ Hb) in E1 as [Hb1 Hl1].
    intros E2. apply (IH _ _ _ _ Hb1) in E2 as [Hb2 Hl2]. split; [done|lia].
Qed.

Lemma create_board_refs (h h' : Heap) (bd : Board) :
  create_board h = (h', bd) →
  refs_within 0 (length h') bd ∧ (length h ≤ length h')%nat.
Proof.
  unfold create_board.
  destruct (place_rank 0 B back_rank (h, _)) as [h1 bd1] eqn:E1.
  destruct (place_rank 1 B _ (h1, bd1)) as [h2 bd2] eqn:E2.
  destruct (place_rank 7 W _ (h2, bd2)) as [h3 bd3] eqn:E3.
  intros E4.
  apply place_rank_refs in E1 as [Hb1 Hl1].
  - apply (place_rank_refs _ _ _ _ _ _ _ Hb1) in E2 as [Hb2 Hl2].
    apply (place_rank_refs _ _ _ _ _ _ _ Hb2) in E3 as [Hb3 Hl3].
    apply (place_rank_refs _ _ _ _ _ _ _ Hb3) in E4 as [Hb4 Hl4].
    split; [done|lia].
  - apply Forall_replicate, Forall_replicate. by intros x.
Qed.

Lemma Forall_snap_mono (n n' : nat) (stack : list Snapshot) :
  (n ≤ n')%nat →
  Forall (fun snap => refs_within 0 n (snap_board snap)) stack →
  Forall (fun snap => refs_within 0 n' (snap_board snap)) stack.
Proof.
  intros Hle Hst. eapply Forall_impl; [exact Hst|].
  intros snap. by apply refs_within_mono.
Qed.

(** What a commit does to the store and to the undo stack. *)
Lemma commit_spec (st st1 : State) (sel : ref) (r c : Z) (key : Promotion) :
  store_ok st → selected_piece st = Some sel →
  commit st sel r c key = Some st1 →
  ∃ saved,
    move_stack st1 =
      mkSnapshot saved (turn st) (en_passant_target st) (move_history st)
                 (captured_white st) (captured_black st) :: move_stack st
    ∧ refs_within (length (heap st)) (length (heap st1)) saved
    ∧ view (heap st1) saved = view (heap st) (board st)
    ∧ (length (heap st) ≤ length (heap st1))%nat
    ∧ refs_within 0 (length (heap st1)) (board st1)
    ∧ selected_piece st1 = None.
Proof.
  intros (Hb & Hs & Hst) Hsel. specialize (Hs sel Hsel). unfold commit.
  destruct (deepcopy_board (heap st) (board st)) as [saved h] eqn:Ed.
  apply (deepcopy_board_spec _ _ _ _ Hb) in Ed as (Hp & Hsaved & Hview).
  pose proof (prefix_length _ _ Hp) as Hlen.
  destruct (move_piece h (board st) sel _ r c key _ _) as [mv|] eqn:Em; [|done].
  apply (move_piece_frame _ _ _ _ _ _ _ _ _ _ (length (heap st)) Hb Hs Hlen) in Em
    as (Hframe & Hlen2 & Hb2).
  cbn [mbind option_bind].
  assert (view (mv_heap mv) saved = view (heap st) (board st)) as Hview2.
  { rewrite <- Hview. by apply (view_agree _ _ (length (heap st)) (length h)). }
  assert (refs_within (length (heap st)) (length (mv_heap mv)) saved) as Hsaved2
    by (eapply refs_within_mono; [|exact Hsaved]; lia).
  destruct (check_win_condition _ _) as [over won].
  destruct (negb over).
  - destruct (is_checkmate _ _ _) as [[mate h2]|] eqn:Emate; [|done].
    apply is_checkmate_heap in Emate as ->.
    intros [= <-]. exists saved. simpl. repeat split; (done || lia).
  - intros [= <-]. exists saved. simpl. repeat split; (done || lia).
Qed.

Lemma undo_store_ok (st : State) : store_ok st → store_ok (undo st).
Proof.
  intros Hok. pose proof Hok as (Hb & Hs & Hst). unfold undo.
  destruct (move_stack st) as [|snap stack] eqn:Estack; [done|].
  apply Forall_cons in Hst as [Hsnap Hst].
  destruct (deepcopy_board (heap st) (snap_board snap)) as [bd' h'] eqn:Ed.
  apply (deepcopy_board_spec _ _ _ _ Hsnap) in Ed as (Hp & Hnew & _).
  pose proof (prefix_length _ _ Hp) as Hlen.
  split; [|split]; simpl.
  - eapply Forall_impl; [exact Hnew|]. intros rw Hrw.
    eapply Forall_impl; [exact Hrw|]. intros cell Hc x E. specialize (Hc x E). lia.
  - by intros sel.
  - by apply (Forall_snap_mono (length (heap st))).
Qed.

(** The invariant holds at the start and is kept by every event. *)
Lemma step_store_ok (st st' : State) (ev : Event) :
  store_ok st → step st ev = Some st' → store_ok st'.
Proof.
  intros Hok. pose proof Hok as (Hb & Hs & Hst). destruct ev as [|r c key| | |]; simpl.
  - destruct (game_over st); intros [= <-]; [done|by apply undo_store_ok].
  - destruct (game_over st); [by intros [= <-]|]. unfold click.
    destruct (selected_piece st) as [sel|] eqn:Esel.
    + destruct (sq_in _ _).
      * intros Ec. destruct (commit_spec _ _ _ _ _ _ Hok Esel Ec)
          as (saved & Estack & Hsaved & _ & Hlen & Hb' & Hsel').
        split; [done|]. split; [by rewrite Hsel'|]. rewrite Estack.
        apply Forall_cons. split.
        -- simpl. eapply Forall_impl; [exact Hsaved|]. intros rw Hrw.
           eapply Forall_impl; [exact Hrw|]. intros cell Hc x E.
           specialize (Hc x E). lia.
        -- by apply (Forall_snap_mono (length (heap st))).
      * unfold reselect. destruct (board_at (board st) r c) as [piece|] eqn:Ep.
        -- destruct (color_eqb _ _).
           ++ pose proof (get_valid_moves_heap (heap st) (board st) piece
                            (en_passant_target st)) as Eh.
              destruct (get_valid_moves _ _ _ _) as [moves h]. simpl in Eh. subst h.
              destruct (legal_filter _ _ _ _ _) as [moves'|]; [|done].
              intros [= <-]. split; [done|]. split; [|done]. simpl.
              intros ? [= <-]. by apply (refs_within_at _ _ _ _ _ _ Hb Ep).
           ++ intros [= <-]. split; [done|]. split; [|done]. by intros ?.
        -- intros [= <-]. split; [done|]. split; [|done]. by intros ?.
    + unfold select. destruct (board_at (board st) r c) as [piece|] eqn:Ep;
        [|by intros [= <-]].
      destruct (color_eqb _ _); [|by intros [= <-]].
      pose proof (get_valid_moves_heap (heap st) (board st) piece
                    (en_passant_target st)) as Eh.
      destruct (get_valid_moves _ _ _ _) as [moves h]. simpl in Eh. subst h.
      destruct (is_in_check _ _ _).
      * destruct (legal_filter _ _ _ _ _) as [moves'|]; [|done]. simpl.
        intros [= <-]. split; [done|]. split; [|done]. simpl.
        intros ? [= <-]. by apply (refs_within_at _ _ _ _ _ _ Hb Ep).
      * simpl. intros [= <-]. split; [done|]. split; [|done]. simpl.
        intros ? [= <-]. by apply (refs_within_at _ _ _ _ _ _ Hb Ep).
  - destruct (game_over st); [by intros [= <-]|done].
  - intros [= <-]. by apply undo_store_ok.
  - intros [= <-]. unfold restart.
    destruct (create_board (heap st)) as [h' bd'] eqn:Ec.
    apply create_board_refs in Ec as [Hb' _]. split; [done|]. split; [|done].
    by intros ?.
Qed.

Lemma initial_store_ok : store_ok initial_state.
Proof.
  unfold initial_state. destruct (create_board []) as [h bd] eqn:Ec.
  apply create_board_refs in Ec as [Hb _]. split; [done|]. split; [|done].
  by intros ?.
Qed.

Lemma reachable_store_ok (st : State) : reachable st → store_ok st.
Proof.
  induction 1 as [|st ev st' _ Hstep IH]; [apply initial_store_ok|].
  by apply (step_store_ok st st' ev).
Qed.

Lemma run_reachable (evs : list Event) :
  ∀ st st', reachable st → run st evs = Some st' → reachable st'.
Proof.
  induction evs as [|ev evs IH]; intros st st' Hr; simpl.
  - by intros [= <-].
  - destruct (step st ev) as [st1|] eqn:E; [|done]. simpl.
    apply IH. by apply (reachable_step st ev).
Qed.

(** ** No state of the program holds an en-passant target *)

Lemma step_no_target (st st' : State) (ev : Event) :
  store_ok st → no_target st → step st ev = Some st' → no_target st'.
Proof.
  intros Hok Hnt. pose proof Hnt as [Hep Hst].
  assert (no_target (undo st)) as Hundo.
  { unfold undo. destruct (move_stack st) as [|snap stack] eqn:E; [done|].
    destruct (deepcopy_board _ _) as [bd' h'].
    apply Forall_cons in Hst as [H1 H2]. by split. }
  destruct ev as [|r c key| | |]; simpl.
  - by destruct (game_over st); intros [= <-].
  - destruct (game_over st); [by intros [= <-]|]. unfold click.
    destruct (selected_piece st) as [sel|] eqn:Esel.
    + destruct (sq_in _ _).
      * intros Ec. split.
        -- eapply commit_en_passant_target; [|exact Ec].
           destruct Hok as (_ & Hs & _). by apply Hs.
        -- destruct (commit_spec _ _ _ _ _ _ Hok Esel Ec) as (saved & -> & _).
           apply Forall_cons. by split.
      * unfold reselect. destruct (board_at _ r c) as [piece|].
        -- destruct (color_eqb _ _); [|by intros [= <-]].
           destruct (get_valid_moves _ _ _ _) as [moves h].
           destruct (legal_filter _ _ _ _ _); [|done]. intros [= <-]. by split.
        -- intros [= <-]. by split.
    + unfold select. destruct (board_at _ r c) as [piece|]; [|by intros [= <-]].
      destruct (color_eqb _ _); [|by intros [= <-]].
      destruct (is_in_check _ _ _).
      * destruct (get_valid_moves _ _ _ _) as [moves h].
        destruct (legal_filter _ _ _ _ _); [|done]. simpl. intros [= <-]. by split.
      * destruct (get_valid_moves _ _ _ _) as [moves h]. simpl.
        intros [= <-]. by split.
  - destruct (game_over st); [by intros [= <-]|done].
  - by intros [= <-].
  - intros [= <-]. unfold restart. destruct (create_board _). by split.
Qed.

Lemma reachable_no_target (st : State) :
  reachable st → en_passant_target st = None.
Proof.
  intros Hr. assert (no_target st) as [? _]; [|done].
  induction Hr as [|st ev st' Hr IH Hstep].
  - unfold initial_state. destruct (create_board []). by split.
  - eapply step_no_target; [|exact IH|exact Hstep]. by apply reachable_store_ok.
Qed.

(** ** Unmoved kings stand on their home squares *)

Lemma kings_home_app (h k : Heap) :
  kings_home h → Forall king_home k → kings_home (h ++ k).
Proof.
  intros Hh Hk x. destruct (decide (x < length h)%nat).
  - rewrite lookup_total_app_l by done. apply Hh.
  - rewrite lookup_total_app_r by lia.
    destruct (k !! (x - length h)%nat) as [p|] eqn:E.
    + rewrite (list_lookup_total_correct _ _ _ E).
      by eapply Forall_lookup_1 in E.
    + rewrite list_lookup_total_alt, E. simpl. by intros ?.
Qed.

Lemma kings_home_moved (h : Heap) (x : ref) (r c : Z) :
  kings_home h → kings_home (set_moved (set_pos h x r c) x true).
Proof.
  intros Hh y. rewrite lookup_set_moved. case_decide as E.
  - by intros _ ?.
  - rewrite lookup_set_pos, length_set_pos in *. case_decide as E2; [|apply Hh].
    exfalso. apply E. done.
Qed.

Lemma deepcopy_rows_kings (rows : Board) :
  ∀ (h h' : Heap) (memo memo' : Memo) (rows' : Board),
  kings_home h →
  deepcopy_rows (memo, h) rows = (rows', (memo', h')) → kings_home h'.
Proof.
  assert (∀ (rw : list Cell) (h h' : Heap) (memo memo' : Memo) (rw' : list Cell),
            kings_home h →
            deepcopy_row (memo, h) rw = (rw', (memo', h')) → kings_home h') as Hrow.
  { induction rw as [|cell rw IH]; intros h h' memo memo' rw' Hh; simpl.
    - by intros [= <- <- <-].
    - destruct (deepcopy_cell (memo, h) cell) as [cell' [memo1 h1]] eqn:E1.
      destruct (deepcopy_row (memo1, h1) rw) as [rest [memo2 h2]] eqn:E2.
      intros [= <- <- <-]. eapply IH; [|exact E2].
      destruct cell as [x|]; simpl in E1.
      + destruct (memo_find memo x); injection E1 as <- <- <-; [done|].
        apply kings_home_app; [done|]. apply Forall_singleton.
        rewrite deepcopy_piece_id. apply Hh.
      + by injection E1 as <- <- <-. }
  induction rows as [|rw rows IH]; intros h h' memo memo' rows' Hh; simpl.
  - by intros [= <- <- <-].
  - destruct (deepcopy_row (memo, h) rw) as [rw' [memo1 h1]] eqn:E1.
    destruct (deepcopy_rows (memo1, h1) rows) as [rest [memo2 h2]] eqn:E2.
    intros [= <- <- <-]. eapply IH; [|exact E2]. by eapply Hrow.
Qed.

Lemma deepcopy_board_kings (h h' : Heap) (bd bd' : Board) :
  kings_home h → deepcopy_board h bd = (bd', h') → kings_home h'.
Proof.
  intros Hh. unfold deepcopy_board.
  destruct (deepcopy_rows ([], h) bd) as [rows' [memo' h1]] eqn:E.
  intros [= <- <-]. by eapply deepcopy_rows_kings.
Qed.

Lemma place_rank_kings (r : Z) (cl : Color) (names : list Name) :
  Forall (fun cn : nat * Name =>
            snd cn = King → r = home_row cl ∧ Z.of_nat (fst cn) = 4)
         (imap (fun i nm => (i, nm)) names) →
  ∀ (h h' : Heap) (bd bd' : Board),
  kings_home h →
  place_rank r cl names (h, bd) = (h', bd') → kings_home h'.
Proof.
  unfold place_rank. generalize (imap (fun (i : nat) (nm : Name) => (i, nm)) names).
  intros l. induction l as [|[i nm] l IH]; intros Hl h h' bd bd' Hh;
    cbn [fold_left fst snd].
  - by intros [= <- <-].
  - apply Forall_cons in Hl as [Hnm Hl]. apply IH; [done|].
    apply kings_home_app; [done|]. apply Forall_singleton.
    intros Hk _. simpl in *. by apply Hnm.
Qed.

Lemma create_board_kings (h h' : Heap) (bd : Board) :
  kings_home h → create_board h = (h', bd) → kings_home h'.
Proof.
  intros Hh. unfold create_board.
  destruct (place_rank 0 B back_rank (h, _)) as [h1 bd1] eqn:E1.
  destruct (place_rank 1 B _ (h1, bd1)) as [h2 bd2] eqn:E2.
  destruct (place_rank 7 W _ (h2, bd2)) as [h3 bd3] eqn:E3.
  intros E4.
  assert (∀ (r : Z) (cl : Color) (names : list Name),
            r = home_row cl ∧ names = back_rank
            ∨ names = replicate 8 Pawn →
            Forall (fun cn : nat * Name =>
                      snd cn = King → r = home_row cl ∧ Z.of_nat (fst cn) = 4)
                   (imap (fun i nm => (i, nm)) names)) as Hranks.
  { intros r cl names [[-> ->]| ->]; simpl;
      repeat (apply Forall_cons; split;
              [simpl; intros Hk; first [discriminate Hk|by split]|]);
      apply Forall_nil_2. }
  apply place_rank_kings in E1; [|apply Hranks; by left|done].
  apply place_rank_kings in E2; [|apply Hranks; by right|done].
  apply place_rank_kings in E3; [|apply Hranks; by left|done].
  apply place_rank_kings in E4; [done|apply Hranks; by right|done].
Qed.

Lemma move_piece_kings (h : Heap) (bd : Board) (sel : ref) (ep : option Square)
    (r c : Z) (key : Promotion) (cw cb : list string) (mv : Moved) :
  kings_home h →
  move_piece h bd sel ep r c key cw cb = Some mv → kings_home (mv_heap mv).
Proof.
  intros Hh. unfold move_piece.
  destruct (en_passant_capture _ _ _ _ _ _ _ _) as [[bd1 [cw1 cb1]]|]; [|done].
  simpl. destruct (match board_at _ r c with Some _ => _ | None => _ end) as [cw2 cb2].
  set (h1 := set_moved (set_pos h sel r c) sel true).
  assert (kings_home h1) as Hh1 by (by apply kings_home_moved).
  set (bd2 := board_set _ r c (Some sel)).
  assert (∀ h2 bd3, castle_rook h1 bd2 sel r c = Some (h2, bd3) → kings_home h2)
    as Hcastle.
  { intros h2 bd3. unfold castle_rook, shift_rook.
    destruct (_ && _); [|by intros [= <- <-]].
    destruct (c - 4 =? 2).
    - destruct (board_at bd2 r 7); [|done]. intros [= <- <-].
      by apply kings_home_moved.
    - destruct (c - 4 =? -2); [|by intros [= <- <-]].
      destruct (board_at bd2 r 0); [|done]. intros [= <- <-].
      by apply kings_home_moved. }
  destruct (castle_rook h1 bd2 sel r c) as [[h2 bd3]|] eqn:Ec; [|done].
  simpl. specialize (Hcastle h2 bd3 eq_refl).
  unfold promotion. destruct (_ && _).
  - intros [= <-]. simpl. apply kings_home_app; [done|]. apply Forall_singleton.
    intros Hk. by destruct key.
  - by intros [= <-].
Qed.

(** The kings of every state of the program are on their home squares as
    long as they have not moved; this includes the kings of the boards on
    the undo stack. *)
Lemma step_kings_home (st st' : State) (ev : Event) :
  kings_home (heap st) → step st ev = Some st' → kings_home (heap st').
Proof.
  intros Hh.
  assert (kings_home (heap (undo st))) as Hundo.
  { unfold undo. destruct (move_stack st) as [|snap stack]; [done|].
    destruct (deepcopy_board _ _) as [bd' h'] eqn:Ed. simpl.
    by eapply deepcopy_board_kings. }
  destruct ev as [|r c key| | |]; simpl.
  - by destruct (game_over st); intros [= <-].
  - destruct (game_over st); [by intros [= <-]|]. unfold click.
    destruct (selected_piece st) as [sel|].
    + destruct (sq_in _ _).
      * unfold commit.
        destruct (deepcopy_board (heap st) (board st)) as [saved h] eqn:Ed.
        apply (deepcopy_board_kings _ _ _ _ Hh) in Ed.
        destruct (move_piece h _ _ _ _ _ _ _ _) as [mv|] eqn:Em; [|done].
        apply (move_piece_kings _ _ _ _ _ _ _ _ _ _ Ed) in Em.
        cbn [mbind option_bind].
        destruct (check_win_condition _ _) as [over won]. destruct (negb over).
        -- destruct (is_checkmate _ _ _) as [[mate h2]|] eqn:Emate; [|done].
           apply is_checkmate_heap in Emate as ->. by intros [= <-].
        -- by intros [= <-].
      * unfold reselect. destruct (board_at _ r c) as [piece|].
        -- destruct (color_eqb _ _); [|by intros [= <-]].
           pose proof (get_valid_moves_heap (heap st) (board st) piece
                         (en_passant_target st)) as Eh.
           destruct (get_valid_moves _ _ _ _) as [moves h]. simpl in Eh. subst h.
           destruct (legal_filter _ _ _ _ _); [|done]. by intros [= <-].
        -- by intros [= <-].
    + unfold select. destruct (board_at _ r c) as [piece|]; [|by intros [= <-]].
      destruct (color_eqb _ _); [|by intros [= <-]].
      pose proof (get_valid_moves_heap (heap st) (board st) piece
                    (en_passant_target st)) as Eh.
      destruct (get_valid_moves _ _ _ _) as [moves h]. simpl in Eh. subst h.
      destruct (is_in_check _ _ _).
      * destruct (legal_filter _ _ _ _ _); [|done]. simpl. by intros [= <-].
      * simpl. by intros [= <-].
  - destruct (game_over st); [by intros [= <-]|done].
  - by intros [= <-].
  - intros [= <-]. unfold restart.
    destruct (create_board (heap st)) as [h' bd'] eqn:Ec. simpl.
    exact (create_board_kings (heap st) h' bd' Hh Ec).
Qed.

Lemma reachable_kings_home (st : State) : reachable st → kings_home (heap st).
Proof.
  induction 1 as [|st ev st' _ Hstep IH].
  - unfold initial_state. destruct (create_board []) as [h bd] eqn:Ec. simpl.
    eapply create_board_kings; [|exact Ec]. intros x.
    rewrite list_lookup_total_alt, lookup_nil. intros Hk. discriminate Hk.
  - by apply (step_kings_home st st' ev).
Qed.

(** In every state of the program the claim of C4 holds for every king:
    a king that is offered a castling move has not moved, hence stands on
    its home square. *)
Lemma castling_in_play (st : State) (self : ref) :
  reachable st → name (heap st !!! self) = King →
  castling_claim (heap st) (board st) self.
Proof.
  intros Hr Hking dest_col rook_col Hside Hin.
  assert (has_moved (heap st !!! self) = false) as Hunmoved.
  { destruct (castling_offered (heap st) (board st) self) as [Hk Hq].
    destruct Hside as [[-> ->]|[-> ->]]; [by apply Hk in Hin as [? _]|].
    by apply Hq in Hin as [? _]. }
  destruct (reachable_kings_home st Hr self Hking Hunmoved) as [Hrow Hcol].
  by apply (castling_claim_home (heap st) (board st) self Hrow Hcol).
Qed.

(** ** The states of the program are well formed *)

Lemma place_placed (nm : Name) (r c : Z) (cl : Color) (h h' : Heap) (bd bd' : Board) :
  grid bd → placed h bd → refs_within 0 (length h) bd → on_board r c = true →
  place nm r c cl (h, bd) = (h', bd') →
  grid bd' ∧ placed h' bd'.
Proof.
  intros Hg Hp Hb Hrc [= <- <-]. split; [by apply grid_set|].
  apply on_board_iff in Hrc as Hrc'. intros i j y Hi Hj E.
  destruct (decide ((r, c) = (i, j))) as [[= <- <-]|Hne].
  - rewrite board_at_set_same in E by done. injection E as <-.
    rewrite lookup_total_app_r by lia. by rewrite Nat.sub_diag.
  - rewrite board_at_set_other in E by (done || lia).
    pose proof (refs_within_at _ _ _ _ _ _ Hb E) as Hy.
    rewrite lookup_total_app_l by lia. by apply Hp.
Qed.

Lemma place_rank_placed (r : Z) (cl : Color) (names : list Name) :
  0 ≤ r < 8 → (length names ≤ 8)%nat →
  ∀ (h h' : Heap) (bd bd' : Board),
  grid bd → placed h bd → refs_within 0 (length h) bd →
  place_rank r cl names (h, bd) = (h', bd') →
  grid bd' ∧ placed h' bd'.
Proof.
  intros Hr Hlen. unfold place_rank.
  assert (Forall (fun cn : nat * Name => (fst cn < 8)%nat)
                 (imap (fun i nm => (i, nm)) names)) as Hl.
  { apply Forall_lookup_2. intros i [j nm] E.
    rewrite list_lookup_imap in E.
    destruct (names !! i) as [nm'|] eqn:E'; [|done]. injection E as <- <-.
    apply lookup_lt_Some in E'. simpl. lia. }
  revert Hl. generalize (imap (fun (i : nat) (nm : Name) => (i, nm)) names).
  intros l. induction l as [|[i nm] l IH]; intros Hl h h' bd bd' Hg Hp Hb;
    cbn [fold_left fst snd].
  - by intros [= <- <-].
  - apply Forall_cons in Hl as [Hi Hl]. simpl in Hi.
    destruct (place nm r (Z.of_nat i) cl (h, bd)) as [h1 bd1] eqn:E1.
    pose proof (place_refs _ _ _ _ _ _ _ _ Hb E1) as [Hb1 _].
    apply place_placed in E1 as [Hg1 Hp1]; try done.
    + by apply IH.
    + apply on_board_iff. lia.
Qed.

Lemma create_board_placed (h h' : Heap) (bd : Board) :
  create_board h = (h', bd) → grid bd ∧ placed h' bd.
Proof.
  unfold create_board.
  destruct (place_rank 0 B back_rank (h, _)) as [h1 bd1] eqn:E1.
  destruct (place_rank 1 B _ (h1, bd1)) as [h2 bd2] eqn:E2.
  destruct (place_rank 7 W _ (h2, bd2)) as [h3 bd3] eqn:E3.
  intros E4.
  assert (refs_within 0 (length h) (replicate 8 (replicate 8 (@None nat)))) as Hb0
    by (apply Forall_replicate, Forall_replicate; by intros x).
  pose proof (place_rank_refs _ _ _ _ _ _ _ Hb0 E1) as [Hb1 _].
  pose proof (place_rank_refs _ _ _ _ _ _ _ Hb1 E2) as [Hb2 _].
  pose proof (place_rank_refs _ _ _ _ _ _ _ Hb2 E3) as [Hb3 _].
  assert (grid (replicate 8 (replicate 8 (@None nat)))) as Hg0.
  { split; [done|]. by apply Forall_replicate. }
  assert (placed h (replicate 8 (replicate 8 (@None nat)))) as Hp0.
  { intros r c x _ _. unfold board_at.
    destruct (replicate 8 (replicate 8 None) !! Z.to_nat r) as [rw|] eqn:Er; [|done].
    apply lookup_replicate in Er as [-> _].
    destruct (replicate 8 None !! Z.to_nat c) as [cell|] eqn:Ec; [|done].
    apply lookup_replicate in Ec as [-> _]. done. }
  assert (length back_rank ≤ 8)%nat as Hbr by (simpl; lia).
  assert (length (replicate 8 Pawn) ≤ 8)%nat as Hpr by (simpl; lia).
  destruct (place_rank_placed 0 B back_rank ltac:(lia) Hbr _ _ _ _ Hg0 Hp0 Hb0 E1)
    as [Hg1 Hp1].
  destruct (place_rank_placed 1 B _ ltac:(lia) Hpr _ _ _ _ Hg1 Hp1 Hb1 E2)
    as [Hg2 Hp2].
  destruct (place_rank_placed 7 W back_rank ltac:(lia) Hbr _ _ _ _ Hg2 Hp2 Hb2 E3)
    as [Hg3 Hp3].
  exact (place_rank_placed 6 W _ ltac:(lia) Hpr _ _ _ _ Hg3 Hp3 Hb3 E4).
Qed.

Lemma on_bd_on_board (h : Heap) (bd : Board) (x : ref) :
  grid bd → placed h bd → on_bd bd x →
  on_board (row (h !!! x)) (col (h !!! x)) = true.
Proof.
  intros Hg Hp (r & c & Hr & Hc & E).
  destruct (Hp r c x Hr Hc E) as [-> ->]. by eapply board_at_grid.
Qed.

Lemma undo_wf (st : State) : wf st → wf (undo st).
Proof.
  intros Hwf. pose proof Hwf as (Hok & Hk & Hg & Hp & Hsel & Hvm & Hst).
  pose proof (undo_store_ok st Hok) as Hok'.
  assert (kings_home (heap (undo st))) as Hk'.
  { apply (step_kings_home st (undo st) KeyU Hk eq_refl). }
  revert Hok' Hk'. unfold undo.
  destruct (move_stack st) as [|snap stack] eqn:Estack; [done|].
  destruct Hok as (Hb & _ & Hstb). rewrite Estack in Hstb.
  apply Forall_cons in Hstb as [Hsnapb Hstb].
  apply Forall_cons in Hst as [(Hgs & Hps & _) Hst].
  destruct (deepcopy_board (heap st) (snap_board snap)) as [bd' h'] eqn:Ed.
  apply (deepcopy_board_spec _ _ _ _ Hsnapb) in Ed as (Hpre & Hnew & Hview).
  intros Hok' Hk'. simpl in *.
  split; [done|]. split; [done|]. split; [by eapply view_grid|].
  split; [by eapply view_placed|]. split; [done|]. split; [constructor|].
  apply Forall_forall. intros s Hs.
  eapply Forall_forall in Hst as (Hg1 & Hp1 & _); [|exact Hs].
  eapply Forall_forall in Hstb; [|exact Hs]. simpl in Hstb.
  split; [done|]. split; [by apply (placed_prefix (heap st))|].
  intros x Hx Hx'.
  pose proof (on_bd_allocated _ _ _ _ Hstb Hx).
  pose proof (on_bd_allocated _ _ _ _ Hnew Hx'). lia.
Qed.

Lemma restart_wf (st : State) : wf st → wf (restart st).
Proof.
  intros Hwf. pose proof Hwf as (Hok & Hk & _).
  pose proof (step_store_ok st (restart st) KeyR Hok eq_refl) as Hok'.
  pose proof (step_kings_home st (restart st) KeyR Hk eq_refl) as Hk'.
  revert Hok' Hk'. unfold restart.
  destruct (create_board (heap st)) as [h' bd'] eqn:Ec.
  apply create_board_placed in Ec as [Hg Hp]. intros Hok' Hk'. simpl in *.
  split; [done|]. split; [done|]. split; [done|]. split; [done|].
  split; [done|]. split; constructor.
Qed.

(** Selecting a piece keeps the state well formed. *)
Lemma selection_wf (st : State) (piece : ref) (moves' : list Square)
    (r c : Z) :
  wf st → board_at (board st) r c = Some piece →
  Forall on_board_sq moves' →
  wf (mkState (heap st) (board st) (Some piece) moves' (turn st) (game_over st)
              (winner st) (move_history st) (captured_white st)
              (captured_black st) (move_stack st) (en_passant_target st)).
Proof.
  intros (Hok & Hk & Hg & Hp & Hsel & Hvm & Hst) Hat Hm.
  destruct Hok as (Hb & Hs & Hstb).
  split; [|by repeat (split; [done|]); split;
                [intros ? [= <-]; by eapply board_at_on_bd|]].
  split; [done|]. split; [|done]. simpl. intros ? [= <-].
  by apply (refs_within_at _ _ _ _ _ _ Hb Hat).
Qed.

Lemma deselection_wf (st : State) :
  wf st →
  wf (mkState (heap st) (board st) None [] (turn st) (game_over st)
              (winner st) (move_history st) (captured_white st)
              (captured_black st) (move_stack st) (en_passant_target st)).
Proof.
  intros (Hok & Hk & Hg & Hp & Hsel & Hvm & Hst).
  destruct Hok as (Hb & Hs & Hstb).
  split; [by split; [|split]|]. do 3 (split; [done|]).
  split; [done|]. split; [constructor|done].
Qed.

Lemma commit_wf (st st1 : State) (sel : ref) (r c : Z) (key : Promotion) :
  wf st → selected_piece st = Some sel → on_board r c = true →
  commit st sel r c key = Some st1 → wf st1.
Proof.
  intros Hwf Hsel Hrc Ec.
  pose proof Hwf as (Hok & Hk & Hg & Hp & Hon & Hvm & Hst).
  assert (store_ok st1) as Hok1.
  { destruct (commit_spec _ _ _ _ _ _ Hok Hsel Ec)
      as (saved & Estack & Hsaved & _ & Hlen & Hb1 & Hsel1).
    destruct Hok as (_ & _ & Hstb).
    split; [done|]. split; [by rewrite Hsel1|]. rewrite Estack.
    apply Forall_cons. split.
    - simpl. eapply Forall_impl; [exact Hsaved|]. intros rw Hrw.
      eapply Forall_impl; [exact Hrw|]. intros cell Hc x E. specialize (Hc x E). lia.
    - by apply (Forall_snap_mono (length (heap st))). }
  specialize (Hon sel Hsel). apply on_board_iff in Hrc as Hrc'.
  destruct Hok as (Hb & _ & Hstb).
  revert Ec. unfold commit.
  destruct (deepcopy_board (heap st) (board st)) as [saved h] eqn:Ed.
  pose proof (deepcopy_board_kings _ _ _ _ Hk Ed) as Hkh.
  apply (deepcopy_board_spec _ _ _ _ Hb) in Ed as (Hpre & Hsaved & Hview).
  pose proof (prefix_length _ _ Hpre) as Hlen.
  assert (refs_within 0 (length h) (board st)) as Hbh
    by (eapply refs_within_mono; [|exact Hb]; lia).
  assert (placed h (board st)) as Hph by (by apply (placed_prefix (heap st))).
  destruct (move_piece h (board st) sel _ r c key _ _) as [mv|] eqn:Em; [|done].
  pose proof (move_piece_kings _ _ _ _ _ _ _ _ _ _ Hkh Em) as Hkm.
  pose proof (move_piece_placed _ _ _ _ _ _ _ _ _ _ Hg Hph Hbh Hon Hrc Em)
    as (Hgm & Hpm & Hsub).
  assert (0 ≤ r) as Hr0 by lia. assert (0 ≤ c) as Hc0 by lia.
  pose proof (move_piece_off_board _ _ _ _ _ _ _ _ _ _ Hon Hr0 Hc0 Em) as Hoff.
  assert (∀ y, (length (heap st) ≤ y < length h)%nat → mv_heap mv !!! y = h !!! y)
    as Hfresh.
  { intros y Hy. apply Hoff; [lia|]. intros Hy'.
    pose proof (on_bd_allocated _ _ _ _ Hb Hy'). lia. }
  assert (Forall (snap_ok (mv_heap mv) (mv_board mv))
            (mkSnapshot saved (turn st) (en_passant_target st) (move_history st)
               (captured_white st) (captured_black st) :: move_stack st)) as Hstack.
  { apply Forall_cons. split.
    - split; [by eapply view_grid|]. simpl. split.
      + eapply (view_placed (heap st)); [|exact Hp]. rewrite <- Hview.
        by apply (view_agree _ _ (length (heap st)) (length h)).
      + intros x Hx Hx'. pose proof (on_bd_allocated _ _ _ _ Hsaved Hx).
        destruct (Hsub x Hx') as [Hold|Hnew]; [|lia].
        pose proof (on_bd_allocated _ _ _ _ Hb Hold). lia.
    - apply Forall_forall. intros s Hs.
      eapply Forall_forall in Hst as (Hg1 & Hp1 & Hsep); [|exact Hs].
      eapply Forall_forall in Hstb; [|exact Hs]. simpl in Hstb.
      split; [done|]. split.
      + eapply placed_agree; [|exact Hp1]. intros x Hx.
        pose proof (on_bd_allocated _ _ _ _ Hstb Hx).
        rewrite Hoff; [|lia|by apply Hsep].
        apply lookup_total_prefix; [done|lia].
      + intros x Hx Hx'. pose proof (on_bd_allocated _ _ _ _ Hstb Hx).
        destruct (Hsub x Hx') as [Hold|Hnew]; [by apply (Hsep x)|lia]. }
  cbn [mbind option_bind].
  destruct (check_win_condition _ _) as [over won]. destruct (negb over).
  - destruct (is_checkmate _ _ _) as [[mate h2]|] eqn:Emate; [|done].
    apply is_checkmate_heap in Emate as ->. intros [= <-]. simpl.
    split; [done|]. do 3 (split; [done|]). split; [done|]. split; [constructor|done].
  - intros [= <-]. simpl.
    split; [done|]. do 3 (split; [done|]). split; [done|]. split; [constructor|done].
Qed.

(** Every event keeps the state well formed. *)
Lemma step_wf (st st' : State) (ev : Event) :
  wf st → step st ev = Some st' → wf st'.
Proof.
  intros Hwf. pose proof Hwf as (Hok & Hk & Hg & Hp & Hsel & Hvm & Hst).
  assert (∀ piece r c, board_at (board st) r c = Some piece →
            Forall on_board_sq
              (fst (get_valid_moves (heap st) (board st) piece (en_passant_target st))))
    as Hmoves.
  { intros piece r c Hat. apply valid_moves_on_board; [apply Hk|].
    apply (on_bd_on_board (heap st) (board st)); [done|done|].
    by eapply board_at_on_bd. }
  destruct ev as [|r c key| | |]; simpl.
  - destruct (game_over st); intros [= <-]; [done|by apply undo_wf].
  - destruct (game_over st); [by intros [= <-]|]. unfold click.
    destruct (selected_piece st) as [sel|] eqn:Esel.
    + destruct (sq_in (r, c) (valid_moves st)) eqn:Ein.
      * apply sq_in_In, list_elem_of_In in Ein.
        eapply Forall_forall in Hvm; [|exact Ein]. by apply commit_wf.
      * unfold reselect. destruct (board_at (board st) r c) as [piece|] eqn:Ep.
        -- destruct (color_eqb _ _); [|intros [= <-]; by apply deselection_wf].
           specialize (Hmoves piece r c Ep).
           pose proof (get_valid_moves_heap (heap st) (board st) piece
                         (en_passant_target st)) as Eh.
           destruct (get_valid_moves _ _ _ _) as [moves h]. simpl in Eh, Hmoves.
           subst h.
           destruct (legal_filter _ _ _ _ _) as [moves'|] eqn:Ef; [|done].
           intros [= <-]. apply (selection_wf st piece moves' r c Hwf Ep).
           by eapply legal_filter_sub.
        -- intros [= <-]. by apply deselection_wf.
    + unfold select. destruct (board_at (board st) r c) as [piece|] eqn:Ep;
        [|by intros [= <-]].
      destruct (color_eqb _ _); [|by intros [= <-]].
      specialize (Hmoves piece r c Ep).
      pose proof (get_valid_moves_heap (heap st) (board st) piece
                    (en_passant_target st)) as Eh.
      destruct (get_valid_moves _ _ _ _) as [moves h]. simpl in Eh, Hmoves. subst h.
      destruct (is_in_check _ _ _).
      * destruct (legal_filter _ _ _ _ _) as [moves'|] eqn:Ef; [|done]. simpl.
        intros [= <-]. apply (selection_wf st piece moves' r c Hwf Ep).
        by eapply legal_filter_sub.
      * simpl. intros [= <-]. by apply (selection_wf st piece moves r c Hwf Ep).
  - destruct (game_over st); [by intros [= <-]|done].
  - intros [= <-]. by apply undo_wf.
  - intros [= <-]. by apply restart_wf.
Qed.

Lemma initial_wf : wf initial_state.
Proof.
  pose proof initial_store_ok as Hok.
  pose proof (reachable_kings_home _ reachable_initial) as Hk.
  revert Hok Hk. unfold initial_state.
  destruct (create_board []) as [h bd] eqn:Ec.
  apply create_board_placed in Ec as [Hg Hp]. intros Hok Hk. simpl in *.
  split; [done|]. do 3 (split; [done|]). split; [done|]. split; constructor.
Qed.

(** The states of the program are well formed: the board is an 8 by 8
    grid, every piece on it carries the coordinates of its cell (so no
    piece is in two cells), the highlighted moves are squares of the
    board, and the boards of the undo stack are well placed grids that
    share no piece with the live board. *)
Lemma reachable_wf (st : State) : reachable st → wf st.
Proof.
  induction 1 as [|st ev st' _ Hstep IH]; [apply initial_wf|].
  by apply (step_wf st st' ev).
Qed.

(** ** Selecting a piece raises no exception *)

Lemma scratch_move_returns (h : Heap) (bd : Board) (piece : ref) (move : Square) :
  refs_within 0 (length h) bd → placed h bd → on_bd bd piece →
  is_Some (scratch_move h bd piece move).
Proof.
  intros Hb Hp Hon. pose proof (on_bd_allocated _ _ _ _ Hb Hon) as Hlt.
  destruct Hon as (r & c & Hr & Hc & Hat).
  destruct (Hp r c piece Hr Hc Hat) as [Er Ec].
  unfold scratch_move.
  destruct (deepcopy_board h bd) as [temp_board h1] eqn:Ed.
  apply (deepcopy_board_spec _ _ _ _ Hb) in Ed as (Hpre & _ & Hview).
  rewrite (lookup_total_prefix h h1) by (done || lia). rewrite Er, Ec.
  pose proof (view_piece_at h h1 bd temp_board r c Hview) as E.
  unfold piece_at in E. rewrite Hat in E.
  destruct (board_at temp_board r c) as [tp|]; [by eexists|done].
Qed.

Lemma legal_filter_returns (h : Heap) (bd : Board) (piece : ref) (cl : Color)
    (moves : list Square) :
  refs_within 0 (length h) bd → placed h bd → on_bd bd piece →
  is_Some (legal_filter h bd piece cl moves).
Proof.
  intros Hb Hp Hon. induction moves as [|m moves [rest IH]]; simpl; [by eexists|].
  unfold move_puts_king_in_check.
  destruct (scratch_move_returns h bd piece m Hb Hp Hon) as [[h' temp] ->].
  simpl. rewrite IH. simpl. by eexists.
Qed.

(** In a state of the program, a click on a square that does not commit a
    move is handled without an exception. *)
Lemma selection_returns (st : State) (r c : Z) :
  wf st → is_Some (reselect st r c) ∧ is_Some (select st r c).
Proof.
  intros (Hok & _ & _ & Hp & _). destruct Hok as (Hb & _).
  unfold reselect, select.
  destruct (board_at (board st) r c) as [piece|] eqn:Ep; [|by split; eexists].
  destruct (color_eqb _ _); [|by split; eexists].
  pose proof (get_valid_moves_heap (heap st) (board st) piece
                (en_passant_target st)) as Eh.
  destruct (get_valid_moves _ _ _ _) as [moves h]. simpl in Eh. subst h.
  destruct (legal_filter_returns (heap st) (board st) piece (turn st) moves Hb Hp)
    as [moves' ->]; [by eapply board_at_on_bd|].
  split; [by eexists|]. destruct (is_in_check _ _ _); by eexists.
Qed.

(** ** The square under the mouse *)

Lemma under_mouse_cases (bd : Board) (x y : Z) :
  (BORDER_WIDTH ≤ x < BOARD_SIZE - BORDER_WIDTH
   ∧ BORDER_WIDTH ≤ y < BOARD_SIZE - BORDER_WIDTH →
   on_board (y `div` SQUARE_SIZE) (x `div` SQUARE_SIZE) = true
   ∧ get_square_under_mouse bd x y
     = Some (board_at bd (y `div` SQUARE_SIZE) (x `div` SQUARE_SIZE),
             y `div` SQUARE_SIZE, x `div` SQUARE_SIZE))
  ∧ (¬ (BORDER_WIDTH ≤ x < BOARD_SIZE - BORDER_WIDTH
        ∧ BORDER_WIDTH ≤ y < BOARD_SIZE - BORDER_WIDTH) →
     get_square_under_mouse bd x y = None).
Proof.
  unfold get_square_under_mouse, SQUARE_SIZE, BORDER_WIDTH, BOARD_SIZE, COLS.
  change (800 `div` 8) with 100. split.
  - intros [Hx Hy].
    assert (0 ≤ x `div` 100 < 8) as Hc
      by (split; [apply Z.div_pos; lia|apply Z.div_lt_upper_bound; lia]).
    assert (0 ≤ y `div` 100 < 8) as Hr
      by (split; [apply Z.div_pos; lia|apply Z.div_lt_upper_bound; lia]).
    assert (on_board (y `div` 100) (x `div` 100) = true) as Hon
      by (apply on_board_iff; lia).
    split; [done|].
    destruct (800 <=? x) eqn:E1; [lia|]. destruct (800 <=? y) eqn:E2; [lia|].
    destruct (x <? 10) eqn:E3; [lia|]. destruct (y <? 10) eqn:E4; [lia|].
    destruct (800 - 10 <=? x) eqn:E5; [lia|].
    destruct (800 - 10 <=? y) eqn:E6; [lia|]. cbn [orb]. cbv zeta. by rewrite Hon.
  - intros Hout.
    destruct (800 <=? x) eqn:E1; [done|]. destruct (800 <=? y) eqn:E2; [done|].
    destruct (x <? 10) eqn:E3; [done|]. destruct (y <? 10) eqn:E4; [done|].
    destruct (800 - 10 <=? x) eqn:E5; [done|].
    destruct (800 - 10 <=? y) eqn:E6; [done|]. lia.
Qed.

(** ** What the move generators return *)

Lemma slide_spec (h : Heap) (bd : Board) (mine : Color) (dr dc : Z) (m : Square) :
  ∀ (fuel : nat) (r c : Z),
  In m (slide fuel h bd mine r c dr dc)
  ↔ ∃ k, 0 ≤ k < Z.of_nat fuel
      ∧ m = (r + k * dr, c + k * dc)
      ∧ (∀ j, 0 ≤ j ≤ k → on_board (r + j * dr) (c + j * dc) = true)
      ∧ (∀ j, 0 ≤ j < k → board_at bd (r + j * dr) (c + j * dc) = None)
      ∧ free_for h bd mine m.
Proof.
  induction fuel as [|fuel IH]; intros r c.
  - simpl. split; [done|]. intros (k & Hk & _). lia.
  - cbn [slide]. destruct (on_board r c) eqn:Eon.
    + destruct (board_at bd r c) as [x|] eqn:Ex.
      * destruct (color_eqb (color (h !!! x)) mine) eqn:Ec; simpl.
        -- split; [done|]. intros (k & Hk & -> & _ & Hempty & Hfree).
           destruct (decide (k = 0)) as [->|Hne].
           ++ apply color_eqb_eq in Ec. apply (Hfree x); [|done]. simpl.
              by rewrite !Z.add_0_r.
           ++ specialize (Hempty 0). rewrite !Z.add_0_r in Hempty.
              rewrite Ex in Hempty. discriminate Hempty. lia.
        -- split.
           ++ intros [<-|[]]. exists 0. split; [lia|]. rewrite !Z.add_0_r.
              split; [done|]. split.
              ** intros j Hj. assert (j = 0) as -> by lia. by rewrite !Z.add_0_r.
              ** split; [intros j Hj; lia|]. intros t. simpl. rewrite Ex.
                 intros [= <-] E. apply color_eqb_eq in E. congruence.
           ++ intros (k & Hk & -> & _ & Hempty & _).
              destruct (decide (k = 0)) as [->|Hne]; [left; by rewrite !Z.add_0_r|].
              specialize (Hempty 0). rewrite !Z.add_0_r in Hempty.
              rewrite Ex in Hempty. discriminate Hempty. lia.
      * cbn [In]. rewrite IH. split.
        -- intros [<-|(k & Hk & -> & Hon & Hempty & Hfree)].
           ++ exists 0. split; [lia|]. rewrite !Z.add_0_r. split; [done|]. split.
              ** intros j Hj. assert (j = 0) as -> by lia. by rewrite !Z.add_0_r.
              ** split; [intros j Hj; lia|]. intros t. simpl. by rewrite Ex.
           ++ exists (k + 1). split; [lia|]. split; [f_equal; lia|]. split.
              ** intros j Hj. destruct (decide (j = 0)) as [->|Hne].
                 { by rewrite !Z.add_0_r. }
                 specialize (Hon (j - 1)).
                 replace (r + j * dr) with (r + dr + (j - 1) * dr) by lia.
                 replace (c + j * dc) with (c + dc + (j - 1) * dc) by lia.
                 apply Hon. lia.
              ** split.
                 { intros j Hj. destruct (decide (j = 0)) as [->|Hne].
                   { by rewrite !Z.add_0_r. }
                   specialize (Hempty (j - 1)).
                   replace (r + j * dr) with (r + dr + (j - 1) * dr) by lia.
                   replace (c + j * dc) with (c + dc + (j - 1) * dc) by lia.
                   apply Hempty. lia. }
                 exact Hfree.
        -- intros (k & Hk & -> & Hon & Hempty & Hfree).
           destruct (decide (k = 0)) as [->|Hne]; [left; by rewrite !Z.add_0_r|].
           right. exists (k - 1). split; [lia|]. split; [f_equal; lia|]. split.
           ++ intros j Hj. specialize (Hon (j + 1)).
              replace (r + dr + j * dr) with (r + (j + 1) * dr) by lia.
              replace (c + dc + j * dc) with (c + (j + 1) * dc) by lia.
              apply Hon. lia.
           ++ split.
              ** intros j Hj. specialize (Hempty (j + 1)).
                 replace (r + dr + j * dr) with (r + (j + 1) * dr) by lia.
                 replace (c + dc + j * dc) with (c + (j + 1) * dc) by lia.
                 apply Hempty. lia.
              ** exact Hfree.
    + simpl. split; [done|]. intros (k & Hk & _ & Hon & _).
      specialize (Hon 0). rewrite !Z.add_0_r in Hon. rewrite Eon in Hon.
      discriminate Hon. lia.
Qed.

(** A walk that stays on the board has fewer than eight steps. *)
Lemma walk_short (r c dr dc k : Z) :
  (dr = 1 ∨ dr = -1 ∨ (dr = 0 ∧ (dc = 1 ∨ dc = -1))) →
  0 ≤ k →
  on_board r c = true → on_board (r + k * dr) (c + k * dc) = true → k < 8.
Proof.
  intros Hd Hk H0 H1. apply on_board_iff in H0, H1. nia.
Qed.

Lemma slide_from_spec (h : Heap) (bd : Board) (self : ref)
    (directions : list (Z * Z)) (m : Square) :
  Forall (fun d => fst d = 1 ∨ fst d = -1 ∨ (fst d = 0 ∧ (snd d = 1 ∨ snd d = -1)))
         directions →
  In m (slide_from h bd self directions)
  ↔ ∃ d k, In d directions ∧ slides_to h bd self d k m.
Proof.
  intros Hdirs. unfold slide_from. rewrite in_flat_map. split.
  - intros (d & Hd & Hin). exists d. apply slide_spec in Hin
      as (k & Hk & -> & Hon & Hempty & Hfree).
    exists (k + 1). split; [done|]. split; [lia|]. split; [f_equal; lia|].
    split; [|split].
    + intros j Hj. specialize (Hon (j - 1)).
      replace (row (h !!! self) + j * d.1) with (row (h !!! self) + d.1 + (j - 1) * d.1) by lia.
      replace (col (h !!! self) + j * d.2) with (col (h !!! self) + d.2 + (j - 1) * d.2) by lia.
      apply Hon. lia.
    + intros j Hj. specialize (Hempty (j - 1)).
      replace (row (h !!! self) + j * d.1) with (row (h !!! self) + d.1 + (j - 1) * d.1) by lia.
      replace (col (h !!! self) + j * d.2) with (col (h !!! self) + d.2 + (j - 1) * d.2) by lia.
      apply Hempty. lia.
    + exact Hfree.
  - intros (d & k & Hd & Hk & -> & Hon & Hempty & Hfree). exists d.
    split; [done|]. apply slide_spec. exists (k - 1).
    eapply Forall_forall in Hdirs; [|apply list_elem_of_In; exact Hd].
    assert (∀ j, 0 ≤ j ≤ k - 1 →
            on_board (row (h !!! self) + d.1 + j * d.1)
                     (col (h !!! self) + d.2 + j * d.2) = true) as Hon'.
    { intros j Hj. specialize (Hon (j + 1)).
      replace (row (h !!! self) + d.1 + j * d.1) with (row (h !!! self) + (j + 1) * d.1) by lia.
      replace (col (h !!! self) + d.2 + j * d.2) with (col (h !!! self) + (j + 1) * d.2) by lia.
      apply Hon. lia. }
    split.
    { split; [lia|]. change (Z.of_nat 8) with 8.
      apply (walk_short (row (h !!! self) + d.1) (col (h !!! self) + d.2) d.1 d.2);
        [exact Hdirs|lia| |apply (Hon' (k - 1)); lia].
      specialize (Hon' 0). rewrite !Z.mul_0_l, !Z.add_0_r in Hon'. apply Hon'. lia. }
    split; [f_equal; lia|]. split; [exact Hon'|]. split.
    + intros j Hj. specialize (Hempty (j + 1)).
      replace (row (h !!! self) + d.1 + j * d.1) with (row (h !!! self) + (j + 1) * d.1) by lia.
      replace (col (h !!! self) + d.2 + j * d.2) with (col (h !!! self) + (j + 1) * d.2) by lia.
      apply Hempty. lia.
    + exact Hfree.
Qed.

Lemma rook_directions_ok :
  Forall (fun d : Z * Z =>
            fst d = 1 ∨ fst d = -1 ∨ (fst d = 0 ∧ (snd d = 1 ∨ snd d = -1)))
         rook_directions.
Proof. unfold rook_directions. repeat apply Forall_cons_2; simpl; try lia. apply Forall_nil_2. Qed.

Lemma bishop_directions_ok :
  Forall (fun d : Z * Z =>
            fst d = 1 ∨ fst d = -1 ∨ (fst d = 0 ∧ (snd d = 1 ∨ snd d = -1)))
         bishop_directions.
Proof. unfold bishop_directions. repeat apply Forall_cons_2; simpl; try lia. apply Forall_nil_2. Qed.

Lemma rook_moves_iff (h : Heap) (bd : Board) (self : ref) (m : Square) :
  In m (get_rook_moves h bd self)
  ↔ ∃ d k, In d rook_directions ∧ slides_to h bd self d k m.
Proof. apply slide_from_spec, rook_directions_ok. Qed.

Lemma bishop_moves_iff (h : Heap) (bd : Board) (self : ref) (m : Square) :
  In m (get_bishop_moves h bd self)
  ↔ ∃ d k, In d bishop_directions ∧ slides_to h bd self d k m.
Proof. apply slide_from_spec, bishop_directions_ok. Qed.

Lemma queen_moves_iff (h : Heap) (bd : Board) (self : ref) (m : Square) :
  In m (get_queen_moves h bd self)
  ↔ ∃ d k, In d (rook_directions ++ bishop_directions) ∧ slides_to h bd self d k m.
Proof.
  unfold get_queen_moves. rewrite in_app_iff.
  rewrite (slide_from_spec h bd self rook_directions m rook_directions_ok).
  rewrite (slide_from_spec h bd self bishop_directions m bishop_directions_ok).
  split.
  - intros [(d & k & Hd & Hs)|(d & k & Hd & Hs)]; exists d, k;
      (split; [apply in_app_iff; tauto|done]).
  - intros (d & k & Hd & Hs). apply in_app_iff in Hd as [Hd|Hd];
      [left|right]; by exists d, k.
Qed.

Lemma free_for_test (h : Heap) (bd : Board) (cl : Color) (r c : Z) :
  match board_at bd r c with
  | None => true
  | Some t => negb (color_eqb (color (h !!! t)) cl)
  end = true
  ↔ free_for h bd cl (r, c).
Proof.
  unfold free_for. simpl. destruct (board_at bd r c) as [t|].
  - rewrite negb_true_iff. split.
    + intros E t' [= <-] Ec. apply color_eqb_eq in Ec. congruence.
    + intros Hf. destruct (color_eqb _ _) eqn:E; [|done].
      apply color_eqb_eq in E. by destruct (Hf t eq_refl).
  - split; [by intros _ t|done].
Qed.

Lemma knight_moves_iff (h : Heap) (bd : Board) (self : ref) (r c : Z) :
  let me := h !!! self in
  In (r, c) (get_knight_moves h bd self)
  ↔ on_board r c = true
    ∧ ((Z.abs (r - row me) = 1 ∧ Z.abs (c - col me) = 2)
       ∨ (Z.abs (r - row me) = 2 ∧ Z.abs (c - col me) = 1))
    ∧ free_for h bd (color me) (r, c).
Proof.
  intros me. unfold get_knight_moves. fold me. rewrite in_flat_map. split.
  - intros (d & Hd & Hin).
    destruct (on_board (row me + d.1) (col me + d.2)) eqn:Eon; [|done].
    assert ((r, c) = (row me + d.1, col me + d.2)
            ∧ free_for h bd (color me) (row me + d.1, col me + d.2)) as [E Hfree].
    { rewrite <- free_for_test.
      destruct (board_at bd (row me + d.1) (col me + d.2)) as [t|].
      - destruct (negb _); [|done]. by destruct Hin as [<-|[]].
      - by destruct Hin as [<-|[]]. }
    injection E as -> ->. split; [done|]. split; [|done].
    simpl in Hd. destruct Hd as [<-|[<-|[<-|[<-|[<-|[<-|[<-|[<-|[]]]]]]]]];
      simpl; lia.
  - intros (Hon & Hshape & Hfree).
    exists (r - row me, c - col me). split.
    + simpl. destruct Hshape as [[H1 H2]|[H1 H2]];
        destruct (Z.abs_spec (r - row me)) as [[_ E1]|[_ E1]];
        destruct (Z.abs_spec (c - col me)) as [[_ E2]|[_ E2]];
        assert (r - row me = 1 ∨ r - row me = -1 ∨ r - row me = 2 ∨ r - row me = -2)
          as Hr by lia;
        assert (c - col me = 1 ∨ c - col me = -1 ∨ c - col me = 2 ∨ c - col me = -2)
          as Hc by lia;
        destruct Hr as [Er|[Er|[Er|Er]]]; destruct Hc as [Ec|[Ec|[Ec|Ec]]];
        try lia; rewrite Er, Ec; simpl; repeat ((left; reflexivity) || right).
    + cbn [fst snd].
      replace (row me + (r - row me)) with r by lia.
      replace (col me + (c - col me)) with c by lia.
      rewrite Hon. apply free_for_test in Hfree.
      destruct (board_at bd r c) as [t|]; [rewrite Hfree|]; by left.
Qed.

Lemma pawn_moves_iff (h : Heap) (bd : Board) (self : ref)
    (ep : option Square) (r c : Z) :
  let me := h !!! self in
  let d := forward (color me) in
  In (r, c) (get_pawn_moves h bd self ep)
  ↔ 0 ≤ r < 8
    ∧ ((r = row me + d ∧ c = col me ∧ board_at bd r c = None)
       ∨ (r = row me + 2 * d ∧ c = col me ∧ row me = pawn_start_row (color me)
          ∧ board_at bd (row me + d) c = None ∧ board_at bd r c = None)
       ∨ (r = row me + d ∧ (c = col me - 1 ∨ c = col me + 1) ∧ 0 ≤ c < 8
          ∧ (foe_at h bd (color me) (r, c) ∨ ep = Some (r, c)))).
Proof.
  intros me d.
  assert (∀ new_col,
    In (r, c)
       (if (0 <=? new_col) && (new_col <? COLS) && (0 <=? row me + d)
           && (row me + d <? ROWS)
        then
          (match board_at bd (row me + d) new_col with
           | Some target =>
               if negb (color_eqb (color (h !!! target)) (color me))
               then [(row me + d, new_col)] else []
           | None => []
           end)
          ++ (if ep_is ep (row me + d) new_col then [(row me + d, new_col)] else [])
        else [])
    ↔ (r = row me + d ∧ c = new_col ∧ 0 ≤ r < 8 ∧ 0 ≤ c < 8
       ∧ (foe_at h bd (color me) (r, c) ∨ ep = Some (r, c)))) as Hdiag.
  { intros new_col. unfold COLS, ROWS.
    destruct ((0 <=? new_col) && (new_col <? 8) && (0 <=? row me + d)
              && (row me + d <? 8)) eqn:Eb.
    - repeat (apply andb_true_iff in Eb as [Eb ?]).
      rewrite in_app_iff. split.
      + intros [Hin|Hin].
        * destruct (board_at bd (row me + d) new_col) as [t|] eqn:Et; [|done].
          destruct (negb _) eqn:Ec; [|done]. destruct Hin as [[= <- <-]|[]].
          do 2 (split; [done|]). split; [lia|]. split; [lia|]. left.
          exists t. split; [done|]. apply negb_true_iff in Ec. intros E.
          apply color_eqb_eq in E. congruence.
        * destruct (ep_is ep (row me + d) new_col) eqn:Ee; [|done].
          destruct Hin as [[= <- <-]|[]].
          do 2 (split; [done|]). split; [lia|]. split; [lia|]. right.
          unfold ep_is in Ee. destruct ep as [sq|]; [|done].
          apply sq_eqb_eq in Ee. by subst.
      + intros (-> & -> & _ & _ & [(t & Et & Hc)|Hep]).
        * left. simpl in Et. rewrite Et.
          destruct (color_eqb (color (h !!! t)) (color me)) eqn:Ec.
          { apply color_eqb_eq in Ec. by destruct Hc. }
          by left.
        * right. rewrite Hep. simpl.
          assert (sq_eqb (row me + d, new_col) (row me + d, new_col) = true) as ->
            by (by apply sq_eqb_eq).
          by left.
    - split; [done|]. intros (-> & -> & Hr & Hc & _).
      assert ((0 <=? new_col) && (new_col <? 8) && (0 <=? row me + d)
              && (row me + d <? 8) = true); [|congruence].
      rewrite !andb_true_iff. lia. }
  unfold get_pawn_moves. fold me.
  change (match color me with W => -1 | B => 1 end) with d.
  change (match color me with W => 6 | B => 1 end) with (pawn_start_row (color me)).
  cbv zeta. rewrite !in_app_iff, !Hdiag. unfold ROWS.
  split.
  - intros [Hfwd|[Hl|Hr]].
    + destruct ((0 <=? row me + d) && (row me + d <? 8)
                && bool_decide (board_at bd (row me + d) (col me) = None)) eqn:E1;
        [|done].
      rewrite !andb_true_iff, bool_decide_eq_true in E1.
      destruct E1 as [[? ?] Hone].
      destruct Hfwd as [[= <- <-]|Hin].
      * split; [lia|]. by left.
      * destruct ((row me =? pawn_start_row (color me)) && (0 <=? row me + d + d)
                  && (row me + d + d <? 8)
                  && bool_decide (board_at bd (row me + d + d) (col me) = None)) eqn:E2;
          [|done].
        rewrite !andb_true_iff, bool_decide_eq_true in E2.
        destruct E2 as [[[? ?] ?] Htwo]. destruct Hin as [[= <- <-]|[]].
        split; [lia|]. right. left.
        split; [lia|]. split; [done|]. split; [lia|]. split; [done|]. done.
    + destruct Hl as (-> & -> & ? & ? & ?). split; [done|]. right. right.
      split; [done|]. split; [by left|]. done.
    + destruct Hr as (-> & -> & ? & ? & ?). split; [done|]. right. right.
      split; [done|]. split; [by right|]. done.
  - intros [Hr [(-> & -> & Hempty)|[(-> & -> & Hstart & H1 & H2)|(-> & Hc & Hc8 & Hcap)]]].
    + left.
      assert ((0 <=? row me + d) && (row me + d <? 8)
              && bool_decide (board_at bd (row me + d) (col me) = None) = true) as ->.
      { rewrite !andb_true_iff, bool_decide_eq_true. split; [lia|done]. }
      by left.
    + left.
      assert (0 ≤ row me + d < 8) as Hmid.
      { unfold d, forward, pawn_start_row in *. destruct (color me); lia. }
      assert ((0 <=? row me + d) && (row me + d <? 8)
              && bool_decide (board_at bd (row me + d) (col me) = None) = true) as ->.
      { rewrite !andb_true_iff, bool_decide_eq_true. split; [lia|done]. }
      right.
      replace (row me + 2 * d) with (row me + d + d) in * by lia.
      assert ((row me =? pawn_start_row (color me)) && (0 <=? row me + d + d)
              && (row me + d + d <? 8)
              && bool_decide (board_at bd (row me + d + d) (col me) = None) = true) as ->.
      { rewrite !andb_true_iff, bool_decide_eq_true. split; [lia|done]. }
      by left.
    + right. destruct Hc as [->| ->]; [left|right]; done.
Qed.

Lemma color_set_pos (h : Heap) (x y : ref) (r c : Z) :
  color (set_pos h x r c !!! y) = color (h !!! y).
Proof. rewrite lookup_set_pos. case_decide as E; [|done]. by destruct E as [-> _]. Qed.

Lemma king_step_spec (h : Heap) (bd : Board) (self : ref) (moves : list Square)
    (d : Z * Z) (m : Square) :
  let me := h !!! self in
  In m (fst (king_step bd self (moves, h) d))
  ↔ In m moves
    ∨ (m = (row me + fst d, col me + snd d)
       ∧ on_board (fst m) (snd m) = true
       ∧ free_for h bd (color me) m
       ∧ is_in_check (set_pos h self (fst m) (snd m)) bd (color me) = false).
Proof.
  intros me. unfold king_step. fold me.
  destruct (on_board (row me + d.1) (col me + d.2)) eqn:Eon.
  - pose proof (free_for_test h bd (color me) (row me + d.1) (col me + d.2)) as Hfree.
    destruct (match board_at bd (row me + d.1) (col me + d.2) with
              | Some t => negb (color_eqb (color (h !!! t)) (color me))
              | None => true
              end) eqn:Et.
    + rewrite color_set_pos. fold me.
      destruct (is_in_check (set_pos h self (row me + d.1) (col me + d.2)) bd
                            (color me)) eqn:Ec; cbn [negb fst].
      * split; [by left|]. intros [?|(-> & _ & _ & E)]; [done|].
        cbn [fst snd] in E. congruence.
      * rewrite in_app_iff. cbn [In]. split.
        -- intros [?|[<-|[]]]; [by left|]. right. cbn [fst snd].
           split; [done|]. split; [done|]. split; [by apply Hfree|done].
        -- intros [?|(-> & _)]; [by left|]. right. by left.
    + cbn [fst]. split; [by left|]. intros [?|(-> & _ & Hf & _)]; [done|].
      apply Hfree in Hf. congruence.
  - cbn [fst]. split; [by left|]. intros [?|(-> & E & _)]; [done|].
    cbn [fst snd] in E. congruence.
Qed.

Lemma king_loop_spec (h : Heap) (bd : Board) (self : ref) (m : Square) :
  let me := h !!! self in
  ∀ (ds : list (Z * Z)) (moves : list Square),
  In m (fst (fold_left (king_step bd self) ds (moves, h)))
  ↔ In m moves
    ∨ ∃ d, In d ds
        ∧ m = (row me + fst d, col me + snd d)
        ∧ on_board (fst m) (snd m) = true
        ∧ free_for h bd (color me) m
        ∧ is_in_check (set_pos h self (fst m) (snd m)) bd (color me) = false.
Proof.
  intros me. induction ds as [|d ds IH]; intros moves.
  - simpl. split; [by left|]. intros [?|(d & [] & _)]. done.
  - cbn [fold_left].
    destruct (king_step bd self (moves, h) d) as [moves1 h1] eqn:Es.
    pose proof (king_step_heap bd self moves h d) as Eh. rewrite Es in Eh.
    simpl in Eh. subst h1. rewrite IH.
    pose proof (king_step_spec h bd self moves d m) as Hs. rewrite Es in Hs.
    simpl in Hs. rewrite Hs. fold me. split.
    + intros [[?|Hd]|(d' & Hin & Hd)]; [by left|right..].
      * exists d. split; [by left|done].
      * exists d'. split; [by right|done].
    + intros [?|(d' & [<-|Hin] & Hd)].
      * left. by left.
      * left. by right.
      * right. by exists d'.
Qed.

Lemma king_directions_spec (dr dc : Z) :
  In (dr, dc) king_directions
  ↔ Z.abs dr ≤ 1 ∧ Z.abs dc ≤ 1 ∧ (dr, dc) ≠ (0, 0).
Proof.
  unfold king_directions. simpl. split.
  - intros [E|[E|[E|[E|[E|[E|[E|[E|[]]]]]]]]]; injection E as <- <-;
      (split; [lia|split; [lia|discriminate]]).
  - intros (Hr & Hc & Hne).
    assert (dr = -1 ∨ dr = 0 ∨ dr = 1) as [-> | [-> | ->]] by lia;
      assert (dc = -1 ∨ dc = 0 ∨ dc = 1) as [-> | [-> | ->]] by lia;
      try done; repeat ((left; reflexivity) || right).
Qed.

Lemma king_moves_iff (h : Heap) (bd : Board) (self : ref) (m : Square) :
  let me := h !!! self in
  In m (fst (get_king_moves h bd self))
  ↔ king_steps_to h bd self m
    ∨ (has_moved me = false ∧ is_in_check h bd (color me) = false
       ∧ ((can_castle_kingside h bd (color me) = true ∧ m = (row me, col me + 2))
          ∨ (can_castle_queenside h bd (color me) = true
             ∧ m = (row me, col me - 2)))).
Proof.
  intros me.
  assert (In m (fst (fold_left (king_step bd self) king_directions ([], h)))
          ↔ king_steps_to h bd self m) as Hloop.
  { rewrite king_loop_spec. unfold king_steps_to. fold me. split.
    - intros [[]|([dr dc] & Hd & -> & Hon & Hfree & Hc)].
      apply king_directions_spec in Hd as (Hr & Hc' & Hne). cbn [fst snd] in *.
      split; [lia|]. split; [lia|]. split; [|done].
      intros [= E1 E2]. apply Hne. f_equal; lia.
    - intros (Hr & Hc & Hne & Hon & Hfree & Hck). right.
      destruct m as [r c]. cbn [fst snd] in *.
      exists (r - row me, c - col me). cbn [fst snd]. split.
      + apply king_directions_spec. split; [done|]. split; [done|].
        intros [= E1 E2]. apply Hne. f_equal; lia.
      + split; [f_equal; lia|done]. }
  unfold get_king_moves.
  pose proof (king_loop_heap bd self king_directions [] h) as Eh.
  destruct (fold_left (king_step bd self) king_directions ([], h)) as [moves h'].
  simpl in Eh. subst h'. simpl in Hloop. fold me.
  destruct (has_moved me); simpl.
  { rewrite Hloop. split; [by left|]. by intros [?|[? _]]. }
  destruct (is_in_check h bd (color me)); simpl.
  { rewrite Hloop. split; [by left|]. by intros [?|(_ & ? & _)]. }
  destruct (can_castle_kingside h bd (color me)),
           (can_castle_queenside h bd (color me)); simpl;
    rewrite ?in_app_iff, Hloop; simpl; split.
  - intros [[?|[<-|[]]]|[<-|[]]]; [by left|right..]; (split; [done|split; [done|]]);
      [left|right]; done.
  - intros [?|(_ & _ & [[_ ->]|[_ ->]])]; [left; by left| |].
    + left. right. by left.
    + right. by left.
  - intros [?|[<-|[]]]; [by left|right]. split; [done|]. split; [done|]. by left.
  - intros [?|(_ & _ & [[_ ->]|[? _]])]; [by left| |done]. right. by left.
  - intros [?|[<-|[]]]; [by left|right]. split; [done|]. split; [done|]. by right.
  - intros [?|(_ & _ & [[? _]|[_ ->]])]; [by left|done|]. right. by left.
  - intros ?. by left.
  - intros [?|(_ & _ & [[? _]|[? _]])]; done.
Qed.

(** ** The selection and the side to move *)

Lemma commit_deselects (st st' : State) (sel : ref) (r c : Z) (key : Promotion) :
  commit st sel r c key = Some st' →
  selected_piece st' = None ∧ valid_moves st' = []
  ∧ ∃ snap, move_stack st' = snap :: move_stack st ∧ snap_turn snap = turn st.
Proof.
  unfold commit.
  destruct (deepcopy_board (heap st) (board st)) as [saved h].
  destruct (move_piece _ _ _ _ _ _ _ _ _) as [mv|]; [|done].
  cbn [mbind option_bind].
  destruct (check_win_condition _ _) as [over won].
  destruct (negb over).
  - destruct (is_checkmate _ _ _) as [[mate h2]|]; [|done].
    intros [= <-]. simpl. split; [done|]. split; [done|]. by eexists.
  - intros [= <-]. simpl. split; [done|]. split; [done|]. by eexists.
Qed.

Lemma commit_turn (st st' : State) (sel : ref) (r c : Z) (key : Promotion) :
  commit st sel r c key = Some st' →
  game_over st' = false → turn st' = opponent (turn st).
Proof.
  unfold commit.
  destruct (deepcopy_board (heap st) (board st)) as [saved h].
  destruct (move_piece _ _ _ _ _ _ _ _ _) as [mv|]; [|done].
  cbn [mbind option_bind].
  destruct (check_win_condition _ _) as [over won].
  destruct over; simpl.
  - by intros [= <-].
  - destruct (is_checkmate _ _ _) as [[mate h2]|]; [|done]. by intros [= <-].
Qed.

Lemma legal_filter_In (h : Heap) (bd : Board) (piece : ref) (cl : Color) :
  ∀ moves moves',
  legal_filter h bd piece cl moves = Some moves' →
  ∀ m, In m moves'
       ↔ In m moves ∧ move_puts_king_in_check h bd piece m cl = Some false.
Proof.
  induction moves as [|m0 moves IH]; intros moves'; cbn [legal_filter].
  - intros [= <-] m. simpl. tauto.
  - destruct (move_puts_king_in_check h bd piece m0 cl) as [bad|] eqn:Eb; [|done].
    cbn [mbind option_bind].
    destruct (legal_filter h bd piece cl moves) as [rest|]; [|done].
    cbn [mbind option_bind]. intros [= <-] m. specialize (IH rest eq_refl m).
    destruct bad; simpl.
    + rewrite IH. split; [tauto|]. intros [[<-|?] E]; [congruence|done].
    + rewrite IH. split.
      * intros [<-|[? ?]]; [by split; [left|]|]. by split; [right|].
      * intros [[<-|?] E]; [by left|by right].
Qed.

Lemma undo_selection_ok (st : State) : selection_ok st → selection_ok (undo st).
Proof.
  intros Hs. unfold undo. destruct (move_stack st) as [|snap stack]; [done|].
  by destruct (deepcopy_board _ _).
Qed.

Lemma restart_selection_ok (st : State) : selection_ok (restart st).
Proof. unfold restart. by destruct (create_board _). Qed.

Lemma step_selection_ok (st st' : State) (ev : Event) :
  selection_ok st → step st ev = Some st' → selection_ok st'.
Proof.
  intros Hs. destruct ev as [|r c key| | |]; simpl.
  - destruct (game_over st); intros [= <-]; [done|by apply undo_selection_ok].
  - destruct (game_over st); [by intros [= <-]|]. unfold click.
    destruct (selected_piece st) as [sel|] eqn:Esel.
    + destruct (sq_in (r, c) (valid_moves st)).
      * intros Ec. apply commit_deselects in Ec as (E1 & E2 & _).
        unfold selection_ok. by rewrite E1.
      * unfold reselect. destruct (board_at (board st) r c) as [piece|]; [|by intros [= <-]].
        destruct (color_eqb _ _) eqn:Ecol; [|by intros [= <-]].
        pose proof (get_valid_moves_heap (heap st) (board st) piece
                      (en_passant_target st)) as Eh.
        destruct (get_valid_moves _ _ _ _) as [moves h] eqn:Eg. simpl in Eh. subst h.
        destruct (legal_filter _ _ _ _ _) as [moves'|] eqn:Ef; [|done].
        intros [= <-]. unfold selection_ok. simpl. split; [by apply color_eqb_eq|].
        intros m Hm. rewrite Eg. simpl.
        by apply (legal_filter_In _ _ _ _ _ _ Ef) in Hm as [? _].
    + unfold select. destruct (board_at (board st) r c) as [piece|]; [|by intros [= <-]].
      destruct (color_eqb _ _) eqn:Ecol; [|by intros [= <-]].
      pose proof (get_valid_moves_heap (heap st) (board st) piece
                    (en_passant_target st)) as Eh.
      destruct (get_valid_moves _ _ _ _) as [moves h] eqn:Eg. simpl in Eh. subst h.
      destruct (is_in_check _ _ _).
      * destruct (legal_filter _ _ _ _ _) as [moves'|] eqn:Ef; [|done].
        intros [= <-]. unfold selection_ok. simpl. split; [by apply color_eqb_eq|].
        intros m Hm. rewrite Eg. simpl.
        by apply (legal_filter_In _ _ _ _ _ _ Ef) in Hm as [? _].
      * intros [= <-]. unfold selection_ok. simpl. split; [by apply color_eqb_eq|].
        intros m Hm. by rewrite Eg.
  - destruct (game_over st); [by intros [= <-]|done].
  - intros [= <-]. by apply undo_selection_ok.
  - intros [= <-]. apply restart_selection_ok.
Qed.

Lemma reachable_selection (st : State) : reachable st → selection_ok st.
Proof.
  induction 1 as [|st ev st' _ IH Hstep].
  - unfold selection_ok, initial_state. by destruct (create_board []).
  - exact (step_selection_ok st st' ev IH Hstep).
Qed.

(** The moves of a piece never end on a piece of its own colour (no
    en-passant target being set). *)
Lemma valid_moves_free (h : Heap) (bd : Board) (self : ref) (m : Square) :
  king_home (h !!! self) →
  In m (fst (get_valid_moves h bd self None)) →
  free_for h bd (color (h !!! self)) m.
Proof.
  intros Hhome. unfold get_valid_moves, get_piece_moves.
  destruct (name (h !!! self)) eqn:Ename; cbn [fst].
  - destruct m as [r c]. intros Hin. apply pawn_moves_iff in Hin as [_ Hin].
    destruct Hin as [(_ & _ & E)|[(_ & _ & _ & _ & E)|(_ & _ & _ & [Hfoe|?])]];
      [..|done].
    + intros t. simpl. by rewrite E.
    + intros t. simpl. by rewrite E.
    + destruct Hfoe as (t & Et & Hc). intros t' Et'. congruence.
  - intros Hin. by apply rook_moves_iff in Hin as (d & k & _ & _ & _ & _ & _ & ?).
  - destruct m as [r c]. intros Hin.
    by apply knight_moves_iff in Hin as (_ & _ & ?).
  - intros Hin. by apply bishop_moves_iff in Hin as (d & k & _ & _ & _ & _ & _ & ?).
  - intros Hin. by apply queen_moves_iff in Hin as (d & k & _ & _ & _ & _ & _ & ?).
  - intros Hin. apply king_moves_iff in Hin
      as [(_ & _ & _ & _ & ? & _)|(Hunmoved & _ & Hcastle)]; [done|].
    destruct (Hhome Ename Hunmoved) as [Hrow Hcol].
    destruct Hcastle as [[Hc ->]|[Hc ->]]; intros t; simpl; rewrite Hrow, Hcol.
    + apply can_castle_kingside_true in Hc as (_ & Hempty & _).
      rewrite (Hempty (4 + 2)); [done|lia].
    + apply can_castle_queenside_true in Hc as (_ & Hempty & _).
      rewrite (Hempty (4 - 2)); [done|lia].
Qed.

Lemma highlighted_move_free (st : State) (sel : ref) (m : Square) :
  reachable st →
  selected_piece st = Some sel →
  In m (valid_moves st) →
  on_board (fst m) (snd m) = true
  ∧ free_for (heap st) (board st) (turn st) m.
Proof.
  intros Hr Hsel Hm.
  pose proof (reachable_wf st Hr) as (_ & Hk & _ & _ & _ & Hvm & _).
  pose proof (reachable_selection st Hr) as Hs. unfold selection_ok in Hs.
  rewrite Hsel in Hs. destruct Hs as [Hcol Hsub].
  split.
  - eapply Forall_forall in Hvm; [exact Hvm|]. by apply list_elem_of_In.
  - rewrite <- Hcol. apply valid_moves_free; [apply Hk|].
    specialize (Hsub m Hm). by rewrite (reachable_no_target st Hr) in Hsub.
Qed.

Lemma side_of_S (n : nat) : side_of (S n) = opponent (side_of n).
Proof.
  unfold side_of. rewrite Nat.even_succ, <- Nat.negb_even.
  by destruct (Nat.even n).
Qed.

Lemma step_alternation (st st' : State) (ev : Event) :
  (game_over st = false → turn st = side_of (length (move_stack st))) →
  stack_turns (move_stack st) →
  step st ev = Some st' →
  (game_over st' = false → turn st' = side_of (length (move_stack st')))
  ∧ stack_turns (move_stack st').
Proof.
  intros Hturn Hstack.
  assert ((game_over st = false → turn st = side_of (length (move_stack st)))
          ∧ stack_turns (move_stack st)) as Hsame by done.
  assert ((game_over (undo st) = false →
           turn (undo st) = side_of (length (move_stack (undo st))))
          ∧ stack_turns (move_stack (undo st))) as Hundo.
  { unfold undo. destruct (move_stack st) as [|snap stack] eqn:Es; [by rewrite Es|].
    destruct (deepcopy_board _ _). simpl. by destruct Hstack. }
  destruct ev as [|r c key| | |]; simpl.
  - case_eq (game_over st); intros Eover [= <-]; [exact Hsame|exact Hundo].
  - case_eq (game_over st); intros Eover; [intros [= <-]; exact Hsame|].
    unfold click. destruct (selected_piece st) as [sel|].
    + destruct (sq_in (r, c) (valid_moves st)).
      * intros Ec. pose proof (commit_turn _ _ _ _ _ _ Ec) as Ht.
        apply commit_deselects in Ec as (_ & _ & snap & -> & Esnap).
        cbn [length stack_turns]. split.
        -- intros E. rewrite (Ht E), side_of_S. f_equal. by apply Hturn.
        -- split; [|done]. rewrite Esnap. by apply Hturn.
      * unfold reselect. destruct (board_at (board st) r c) as [piece|];
          [|intros [= <-]; exact Hsame].
        destruct (color_eqb _ _); [|intros [= <-]; exact Hsame].
        destruct (get_valid_moves _ _ _ _) as [moves h].
        destruct (legal_filter _ _ _ _ _) as [moves'|]; [|done].
        intros [= <-]. exact Hsame.
    + unfold select. destruct (board_at (board st) r c) as [piece|];
        [|intros [= <-]; exact Hsame].
      destruct (color_eqb _ _); [|intros [= <-]; exact Hsame].
      destruct (is_in_check _ _ _).
      * destruct (get_valid_moves _ _ _ _) as [moves h].
        destruct (legal_filter _ _ _ _ _) as [moves'|]; [|done].
        intros [= <-]. exact Hsame.
      * destruct (get_valid_moves _ _ _ _) as [moves h].
        intros [= <-]. exact Hsame.
  - case_eq (game_over st); intros Eover; [|done]. intros [= <-]. exact Hsame.
  - intros [= <-]. exact Hundo.
  - intros [= <-]. unfold restart. by destruct (create_board _).
Qed.

Lemma reachable_alternation (st : State) :
  reachable st →
  (game_over st = false → turn st = side_of (length (move_stack st)))
  ∧ stack_turns (move_stack st).
Proof.
  induction 1 as [|st ev st' _ [IH1 IH2] Hstep].
  - unfold initial_state. by destruct (create_board []).
  - exact (step_alternation st st' ev IH1 IH2 Hstep).
Qed.

(** ** The board after a committed move *)

Lemma commit_moved (st st' : State) (sel : ref) (r c : Z) (key : Promotion) :
  commit st sel r c key = Some st' →
  ∃ h mv, heap st `prefix_of` h
    ∧ move_piece h (board st) sel (en_passant_target st) r c key
                 (captured_white st) (captured_black st) = Some mv
    ∧ heap st' = mv_heap mv ∧ board st' = mv_board mv
    ∧ captured_white st' = mv_captured_white mv
    ∧ captured_black st' = mv_captured_black mv.
Proof.
  unfold commit.
  destruct (deepcopy_board (heap st) (board st)) as [saved h] eqn:Ed.
  apply deepcopy_board_prefix in Ed.
  destruct (move_piece _ _ _ _ _ _ _ _ _) as [mv|] eqn:Em; [|done].
  cbn [mbind option_bind].
  destruct (check_win_condition _ _) as [over won].
  destruct (negb over).
  - destruct (is_checkmate _ _ _) as [[mate h2]|] eqn:Emate; [|done].
    apply is_checkmate_heap in Emate as ->.
    intros [= <-]. exists h, mv. by simpl.
  - intros [= <-]. exists h, mv. by simpl.
Qed.

(** The facts about a highlighted move that the invariants give. *)
Lemma highlighted_move_facts (st : State) (sel : ref) (r c : Z) :
  reachable st → selected_piece st = Some sel → In (r, c) (valid_moves st) →
  let me := heap st !!! sel in
  (sel < length (heap st))%nat
  ∧ board_at (board st) (row me) (col me) = Some sel
  ∧ on_board (row me) (col me) = true
  ∧ on_board r c = true
  ∧ (r, c) ≠ (row me, col me)
  ∧ color me = turn st
  ∧ en_passant_target st = None.
Proof.
  intros Hr Hsel Hm me.
  pose proof (reachable_wf st Hr) as ((Hb & Hs & _) & _ & Hg & Hp & Hon & _).
  destruct (highlighted_move_free st sel (r, c) Hr Hsel Hm)
    as [Hdest Hfree].
  pose proof (reachable_selection st Hr) as Hok. unfold selection_ok in Hok.
  rewrite Hsel in Hok. destruct Hok as [Hcol _].
  destruct (Hon sel Hsel) as (r0 & c0 & Hr0 & Hc0 & E0).
  destruct (Hp r0 c0 sel Hr0 Hc0 E0) as [Erow Ecol]. fold me in Erow, Ecol.
  split; [by apply Hs|]. split; [by rewrite Erow, Ecol|].
  split; [rewrite Erow, Ecol; by eapply board_at_grid|].
  split; [done|]. split; [|split; [done|by apply reachable_no_target]].
  intros [= -> ->]. apply (Hfree sel); [by rewrite Erow, Ecol|done].
Qed.

Lemma move_piece_plain (h : Heap) (bd : Board) (sel : ref) (r c : Z)
    (key : Promotion) (cw cb : list string) :
  name_eqb (name (h !!! sel)) King && (Z.abs (c - 4) =? 2) = false →
  let me := h !!! sel in
  let bd1 := board_set bd (row me) (col me) None in
  let lists := match board_at bd1 r c with
               | Some x => record_capture h x cw cb
               | None => (cw, cb)
               end in
  let bd2 := board_set bd1 r c (Some sel) in
  let h2 := set_moved (set_pos h sel r c) sel true in
  move_piece h bd sel None r c key cw cb =
    Some (if name_eqb (name me) Pawn && ((r =? 0) || (r =? ROWS - 1))
          then mkMoved (h2 ++ [new_Piece (promotion_name key) (row (h2 !!! sel))
                                         (col (h2 !!! sel)) (color (h2 !!! sel))])
                       (board_set bd2 r c (Some (length h2))) (length h2)
                       (fst lists) (snd lists)
          else mkMoved h2 bd2 sel (fst lists) (snd lists)).
Proof.
  intros Hplain me bd1 lists bd2 h2. unfold move_piece, en_passant_capture.
  rewrite andb_false_r. cbn [mbind option_bind]. fold me bd1.
  fold lists. destruct lists as [cw' cb'] eqn:El. fold bd2 h2.
  unfold castle_rook.
  assert (name (h2 !!! sel) = name me) as Ename
    by (unfold h2; by rewrite name_set_moved, name_set_pos).
  rewrite Ename. fold me in Hplain. rewrite Hplain. cbn [mbind option_bind].
  unfold promotion. rewrite Ename.
  destruct (name_eqb (name me) Pawn && ((r =? 0) || (r =? ROWS - 1))); reflexivity.
Qed.

Lemma moved_piece_lookup (h : Heap) (sel : ref) (r c : Z) :
  (sel < length h)%nat →
  set_moved (set_pos h sel r c) sel true !!! sel
  = with_moved true (with_pos r c (h !!! sel)).
Proof.
  intros Hsel. rewrite lookup_set_moved, length_set_pos.
  rewrite decide_True by done. rewrite lookup_set_pos. by rewrite decide_True.
Qed.

Lemma move_piece_lists (h : Heap) (bd : Board) (sel : ref) (r c : Z)
    (key : Promotion) (cw cb : list string) (mv : Moved) :
  move_piece h bd sel None r c key cw cb = Some mv →
  (mv_captured_white mv, mv_captured_black mv)
  = match board_at (board_set bd (row (h !!! sel)) (col (h !!! sel)) None) r c with
    | Some x => record_capture h x cw cb
    | None => (cw, cb)
    end.
Proof.
  unfold move_piece, en_passant_capture. rewrite andb_false_r.
  cbn [mbind option_bind].
  destruct (match board_at _ r c with Some _ => _ | None => _ end) as [cw' cb'].
  destruct (castle_rook _ _ _ _ _) as [[h3 bd3]|]; [|done].
  cbn [mbind option_bind]. destruct (promotion _ _ _ _ _ _) as [[h4 bd4] sel4].
  by intros [= <-].
Qed.

Lemma move_piece_castle (h : Heap) (bd : Board) (sel x : ref) (r c from to : Z)
    (key : Promotion) (cw cb : list string) :
  name (h !!! sel) = King →
  (c = 6 ∧ from = 7 ∧ to = 5) ∨ (c = 2 ∧ from = 0 ∧ to = 3) →
  let me := h !!! sel in
  let bd2 := board_set (board_set bd (row me) (col me) None) r c (Some sel) in
  let h2 := set_moved (set_pos h sel r c) sel true in
  board_at bd2 r from = Some x →
  ∃ cw' cb',
    move_piece h bd sel None r c key cw cb =
      Some (mkMoved (set_moved (set_pos h2 x r to) x true)
                    (board_set (board_set bd2 r from None) r to (Some x))
                    sel cw' cb').
Proof.
  intros Hking Hside me bd2 h2 Ex. unfold move_piece, en_passant_capture.
  rewrite andb_false_r. cbn [mbind option_bind]. fold me.
  destruct (match board_at _ r c with Some _ => _ | None => _ end) as [cw' cb'].
  fold bd2 h2. exists cw', cb'. unfold castle_rook.
  assert (name (h2 !!! sel) = King) as Ename
    by (unfold h2; by rewrite name_set_moved, name_set_pos).
  rewrite Ename. cbn [name_eqb andb].
  assert (shift_rook true h2 bd2 r from to
          = Some (set_moved (set_pos h2 x r to) x true,
                  board_set (board_set bd2 r from None) r to (Some x))) as Eshift.
  { unfold shift_rook. by rewrite Ex. }
  assert ((if Z.abs (c - 4) =? 2
           then if c - 4 =? 2 then shift_rook true h2 bd2 r 7 5
                else if c - 4 =? -2 then shift_rook true h2 bd2 r 0 3
                     else Some (h2, bd2)
           else Some (h2, bd2))
          = shift_rook true h2 bd2 r from to) as ->.
  { by destruct Hside as [(-> & -> & ->)|(-> & -> & ->)]. }
  rewrite Eshift. cbn [mbind option_bind]. unfold promotion.
  assert (name (set_moved (set_pos h2 x r to) x true !!! sel) = King) as ->
    by (by rewrite name_set_moved, name_set_pos).
  reflexivity.
Qed.

(** What a committed move adds to the capture lists. *)
Lemma capture_lists_after (st st' : State) (sel : ref) (r c : Z)
    (key : Promotion) :
  reachable st →
  game_over st = false →
  selected_piece st = Some sel →
  sq_in (r, c) (valid_moves st) = true →
  step st (MouseSquare r c key) = Some st' →
  match board_at (board st) r c with
  | Some x =>
      let tag := name_str (name (heap st !!! x)) +:+ "p" in
      match color (heap st !!! x) with
      | W => captured_white st' = captured_white st ++ [tag]
             ∧ captured_black st' = captured_black st
      | B => captured_white st' = captured_white st
             ∧ captured_black st' = captured_black st ++ [tag]
      end
  | None => captured_white st' = captured_white st
            ∧ captured_black st' = captured_black st
  end.
Proof.
  intros Hr Hover Hsel Hin. simpl. rewrite Hover. unfold click.
  rewrite Hsel, Hin. intros Ec. apply sq_in_In in Hin.
  destruct (highlighted_move_facts st sel r c Hr Hsel Hin)
    as (Hlt & Hat & Hon0 & Hon & Hne & _ & Hep).
  pose proof (reachable_wf st Hr) as ((Hb & _) & _).
  apply commit_moved in Ec as (h & mv & Hpre & Em & _ & _ & -> & ->).
  rewrite Hep in Em. apply move_piece_lists in Em.
  rewrite (lookup_total_prefix _ _ _ Hpre Hlt) in Em.
  apply on_board_iff in Hon0, Hon.
  rewrite board_at_set_other in Em by (lia || done).
  destruct (board_at (board st) r c) as [x|] eqn:Ex.
  - pose proof (refs_within_at _ _ _ _ _ _ Hb Ex) as Hx.
    unfold record_capture in Em.
    rewrite (lookup_total_prefix _ _ _ Hpre) in Em by lia. cbv zeta.
    destruct (color (heap st !!! x)); cbn [color_eqb] in Em;
      injection Em as -> ->; done.
  - by injection Em as -> ->.
Qed.

(** ** Copies and images *)

Lemma prefix_alter_ge {A} (f : A → A) (l l' : list A) (i : nat) :
  l `prefix_of` l' → (length l ≤ i)%nat → l `prefix_of` alter f i l'.
Proof.
  intros [k ->] Hi. exists (alter f (i - length l)%nat k).
  by rewrite alter_app_r_alt by lia.
Qed.

Lemma every_piece_has_an_image (nm : Name) (r c : Z) (cl : Color) :
  image_key (new_Piece nm r c cl) ∈ pieces_types.
Proof.
  apply list_elem_of_In.
  destruct nm, cl; simpl; repeat ((left; reflexivity) || right).
Qed.

(** ** A new game allocates a new set of pieces *)

Lemma board_set_shift (n : nat) (bd : Board) (r c : Z) (v : Cell) :
  board_set (shift_refs n bd) r c (option_map (fun x => (n + x)%nat) v)
  = shift_refs n (board_set bd r c v).
Proof.
  unfold board_set, shift_refs.
  change (map (map (option_map (fun x => (n + x)%nat))))
    with (fmap (M := list) (fmap (M := list) (option_map (fun x => (n + x)%nat)))).
  symmetry. apply list_fmap_alter. apply Forall_forall. intros rw _.
  by rewrite list_fmap_insert.
Qed.

Lemma place_shift (nm : Name) (r c : Z) (cl : Color) (h hs : Heap) (bd : Board) :
  place nm r c cl (h ++ hs, shift_refs (length h) bd)
  = (h ++ fst (place nm r c cl (hs, bd)),
     shift_refs (length h) (snd (place nm r c cl (hs, bd)))).
Proof.
  unfold place. cbn [fst snd]. rewrite <- app_assoc. f_equal.
  rewrite <- board_set_shift. cbn [option_map]. by rewrite length_app.
Qed.

Lemma place_rank_shift (r : Z) (cl : Color) (h : Heap) (cells : list (nat * Name)) :
  ∀ (hs : Heap) (bd : Board),
  fold_left (fun acc cn => place (snd cn) r (Z.of_nat (fst cn)) cl acc) cells
            (h ++ hs, shift_refs (length h) bd)
  = (h ++ fst (fold_left (fun acc cn => place (snd cn) r (Z.of_nat (fst cn)) cl acc)
                         cells (hs, bd)),
     shift_refs (length h)
       (snd (fold_left (fun acc cn => place (snd cn) r (Z.of_nat (fst cn)) cl acc)
                       cells (hs, bd)))).
Proof.
  induction cells as [|cn cells IH]; intros hs bd; [done|].
  cbn [fold_left]. rewrite place_shift.
  destruct (place (snd cn) r (Z.of_nat (fst cn)) cl (hs, bd)) as [hs1 bd1].
  apply IH.
Qed.

Lemma create_board_shift (h : Heap) :
  create_board h
  = (h ++ fst (create_board []), shift_refs (length h) (snd (create_board []))).
Proof.
  unfold create_board, place_rank.
  change (h, replicate 8 (replicate 8 None))
    with (h, shift_refs (length h) (replicate 8 (replicate 8 (@None nat)))).
  rewrite <- (app_nil_r h) at 1.
  rewrite place_rank_shift.
  destruct (fold_left _ (imap _ back_rank) ([], replicate 8 (replicate 8 None)))
    as [h1 bd1]. cbn [fst snd].
  rewrite place_rank_shift.
  destruct (fold_left _ (imap _ (replicate 8 Pawn)) (h1, bd1)) as [h2 bd2].
  cbn [fst snd]. rewrite place_rank_shift.
  destruct (fold_left _ (imap _ back_rank) (h2, bd2)) as [h3 bd3].
  cbn [fst snd]. by rewrite place_rank_shift.
Qed.

Lemma view_shift (h hs : Heap) (bd : Board) :
  view (h ++ hs) (shift_refs (length h) bd) = view hs bd.
Proof.
  unfold view, shift_refs. rewrite map_map. apply map_ext. intros rw.
  rewrite map_map. apply map_ext. intros [x|]; [|done]. cbn [option_map].
  f_equal. rewrite lookup_total_app_r by lia. f_equal. lia.
Qed.

Lemma restart_spec (st : State) :
  let st' := restart st in
  view (heap st') (board st') = view (heap initial_state) (board initial_state)
  ∧ heap st `prefix_of` heap st'
  ∧ refs_within (length (heap st)) (length (heap st')) (board st')
  ∧ turn st' = W ∧ game_over st' = false ∧ winner st' = None
  ∧ move_history st' = [] ∧ captured_white st' = [] ∧ captured_black st' = []
  ∧ move_stack st' = [] ∧ selected_piece st' = None ∧ valid_moves st' = []
  ∧ en_passant_target st' = None.
Proof.
  unfold restart, initial_state. rewrite (create_board_shift (heap st)).
  destruct (create_board []) as [h0 bd0] eqn:E0. cbn [fst snd heap board].
  split; [apply view_shift|]. split; [by apply prefix_app_r|].
  split; [|done].
  apply create_board_refs in E0 as [Hrefs _]. rewrite length_app.
  unfold shift_refs. apply Forall_forall. intros rw Hrw.
  apply list_elem_of_In, in_map_iff in Hrw as (rw0 & <- & Hrw0).
  apply Forall_forall. intros cell Hcell.
  apply list_elem_of_In, in_map_iff in Hcell as (cell0 & <- & Hcell0).
  intros y Ey. destruct cell0 as [x|]; [|done]. injection Ey as <-.
  eapply Forall_forall in Hrefs; [|apply list_elem_of_In; exact Hrw0].
  eapply Forall_forall in Hrefs; [|apply list_elem_of_In; exact Hcell0].
  specialize (Hrefs x eq_refl). lia.
Qed.

(** ** Kind and colour of a piece, and the kings *)

Lemma color_set_moved (h : Heap) (x y : ref) (m : bool) :
  color (set_moved h x m !!! y) = color (h !!! y).
Proof. rewrite lookup_set_moved. case_decide as E; [|done]. by destruct E as [-> _]. Qed.

Lemma shift_rook_identity (mark : bool) (h h' : Heap) (bd bd' : Board)
    (r from to : Z) :
  shift_rook mark h bd r from to = Some (h', bd') →
  length h' = length h
  ∧ ∀ y, name (h' !!! y) = name (h !!! y) ∧ color (h' !!! y) = color (h !!! y).
Proof.
  unfold shift_rook. destruct (board_at bd r from) as [x|]; [|done].
  destruct mark; intros [= <- <-].
  - split; [by rewrite length_set_moved, length_set_pos|]. intros y.
    by rewrite name_set_moved, name_set_pos, color_set_moved, color_set_pos.
  - split; [by rewrite length_set_pos|]. intros y.
    by rewrite name_set_pos, color_set_pos.
Qed.

Lemma move_piece_identity (h : Heap) (bd : Board) (sel : ref) (ep : option Square)
    (r c : Z) (key : Promotion) (cw cb : list string) (mv : Moved) :
  move_piece h bd sel ep r c key cw cb = Some mv →
  (length h ≤ length (mv_heap mv))%nat
  ∧ ∀ y, (y < length h)%nat →
         name (mv_heap mv !!! y) = name (h !!! y)
         ∧ color (mv_heap mv !!! y) = color (h !!! y).
Proof.
  unfold move_piece.
  destruct (en_passant_capture _ _ _ _ _ _ _ _) as [[bd1 [cw1 cb1]]|]; [|done].
  cbn [mbind option_bind].
  destruct (match board_at _ r c with Some _ => _ | None => _ end) as [cw2 cb2].
  set (h2 := set_moved (set_pos h sel r c) sel true).
  assert (length h2 = length h) as Hl2
    by (unfold h2; by rewrite length_set_moved, length_set_pos).
  assert (∀ y, name (h2 !!! y) = name (h !!! y)
               ∧ color (h2 !!! y) = color (h !!! y)) as Hh2.
  { intros y. unfold h2.
    by rewrite name_set_moved, name_set_pos, color_set_moved, color_set_pos. }
  destruct (castle_rook h2 _ sel r c) as [[h3 bd3]|] eqn:Ec; [|done].
  assert (length h3 = length h2
          ∧ ∀ y, name (h3 !!! y) = name (h2 !!! y)
                 ∧ color (h3 !!! y) = color (h2 !!! y)) as [Hl3 Hh3].
  { revert Ec. unfold castle_rook.
    destruct (_ && _); [|by intros [= <- <-]].
    destruct (c - 4 =? 2); [apply shift_rook_identity|].
    destruct (c - 4 =? -2); [apply shift_rook_identity|by intros [= <- <-]]. }
  cbn [mbind option_bind]. unfold promotion. destruct (_ && _).
  - intros [= <-]. cbn [mv_heap]. split; [rewrite length_app; lia|].
    intros y Hy. rewrite lookup_total_app_l by lia.
    destruct (Hh3 y) as [-> ->]. apply Hh2.
  - intros [= <-]. cbn [mv_heap]. split; [lia|].
    intros y Hy. destruct (Hh3 y) as [-> ->]. apply Hh2.
Qed.

Lemma step_identity (st st' : State) (ev : Event) (x : ref) :
  step st ev = Some st' →
  (x < length (heap st))%nat →
  (x < length (heap st'))%nat
  ∧ name (heap st' !!! x) = name (heap st !!! x)
  ∧ color (heap st' !!! x) = color (heap st !!! x).
Proof.
  intros Hstep Hx.
  assert (∀ h', heap st `prefix_of` h' →
            (x < length h')%nat ∧ name (h' !!! x) = name (heap st !!! x)
            ∧ color (h' !!! x) = color (heap st !!! x)) as Hprefix.
  { intros h' Hp. pose proof (prefix_length _ _ Hp).
    rewrite (lookup_total_prefix _ _ _ Hp Hx). split; [lia|done]. }
  assert (heap st `prefix_of` heap (undo st)) as Hundo.
  { unfold undo. destruct (move_stack st) as [|snap stack]; [done|].
    destruct (deepcopy_board _ _) as [bd' h'] eqn:Ed. simpl.
    by apply deepcopy_board_prefix in Ed. }
  assert (∀ r c, reselect st r c = Some st' → heap st' = heap st) as Hre.
  { intros r c. unfold reselect.
    destruct (board_at (board st) r c) as [piece|]; [|by intros [= <-]].
    destruct (color_eqb _ _); [|by intros [= <-]].
    pose proof (get_valid_moves_heap (heap st) (board st) piece
                  (en_passant_target st)) as Eh.
    destruct (get_valid_moves _ _ _ _) as [moves h]. simpl in Eh. subst h.
    destruct (legal_filter _ _ _ _ _); [|done]. by intros [= <-]. }
  assert (∀ r c, select st r c = Some st' → heap st' = heap st) as Hse.
  { intros r c. unfold select.
    destruct (board_at (board st) r c) as [piece|]; [|by intros [= <-]].
    destruct (color_eqb _ _); [|by intros [= <-]].
    pose proof (get_valid_moves_heap (heap st) (board st) piece
                  (en_passant_target st)) as Eh.
    destruct (get_valid_moves _ _ _ _) as [moves h]. simpl in Eh. subst h.
    destruct (is_in_check _ _ _).
    - destruct (legal_filter _ _ _ _ _); [|done]. by intros [= <-].
    - by intros [= <-]. }
  destruct ev as [|r c key| | |]; simpl in Hstep.
  - destruct (game_over st); injection Hstep as <-; [done|by apply Hprefix].
  - destruct (game_over st); [by injection Hstep as <-|]. unfold click in Hstep.
    destruct (selected_piece st) as [sel|].
    + destruct (sq_in (r, c) (valid_moves st)).
      * apply commit_moved in Hstep as (h & mv & Hp & Em & -> & _).
        apply move_piece_identity in Em as [Hlen Hid].
        pose proof (prefix_length _ _ Hp).
        destruct (Hid x ltac:(lia)) as [-> ->].
        rewrite (lookup_total_prefix _ _ _ Hp Hx). split; [lia|done].
      * by rewrite (Hre r c Hstep).
    + by rewrite (Hse r c Hstep).
  - by destruct (game_over st); [injection Hstep as <-|].
  - injection Hstep as <-. by apply Hprefix.
  - injection Hstep as <-. apply Hprefix. unfold restart.
    rewrite create_board_shift. simpl. by apply prefix_app_r.
Qed.

Lemma has_king_agree (h h' : Heap) (bd : Board) (cl : Color) (n : nat) :
  refs_within 0 n bd →
  (∀ y, (y < n)%nat → name (h' !!! y) = name (h !!! y)
                      ∧ color (h' !!! y) = color (h !!! y)) →
  has_king h' bd cl = has_king h bd cl.
Proof.
  intros Hrefs Hsame. unfold has_king.
  assert (Forall (cell_within 0 n) (concat bd)) as Hcells.
  { apply Forall_concat. exact Hrefs. }
  induction Hcells as [|cell cells Hc _ IH]; [done|]. cbn [existsb].
  rewrite IH. f_equal. destruct cell as [x|]; [|done].
  destruct (Hsame x) as [-> ->]; [|done]. specialize (Hc x eq_refl). lia.
Qed.

Lemma has_king_view (h h' : Heap) (bd bd' : Board) (cl : Color) :
  view h' bd' = view h bd → has_king h' bd' cl = has_king h bd cl.
Proof.
  intros Hview.
  assert (∀ (h : Heap) (bd : Board),
            has_king h bd cl
            = existsb (fun p : option Piece =>
                         match p with
                         | Some q => name_eqb (name q) King && color_eqb (color q) cl
                         | None => false
                         end) (concat (view h bd))) as Halt.
  { intros h0 bd0. unfold has_king, view.
    induction bd0 as [|rw bd0 IH]; [done|]. cbn [map concat].
    rewrite !existsb_app, IH. f_equal. clear IH.
    induction rw as [|cell rw IH]; [done|]. cbn [map existsb]. rewrite IH.
    by destruct cell. }
  by rewrite !Halt, Hview.
Qed.

Lemma both_kings_view (h h' : Heap) (bd bd' : Board) :
  view h' bd' = view h bd → both_kings h bd → both_kings h' bd'.
Proof.
  intros Hview [Hw Hb]. split; by rewrite (has_king_view h h' bd bd').
Qed.

Lemma both_kings_step (st st' : State) (ev : Event) (bd : Board) :
  refs_within 0 (length (heap st)) bd →
  step st ev = Some st' →
  both_kings (heap st) bd → both_kings (heap st') bd.
Proof.
  intros Hrefs Hstep [Hw Hb].
  assert (∀ cl, has_king (heap st') bd cl = has_king (heap st) bd cl) as Hsame.
  { intros cl. apply (has_king_agree _ _ _ _ (length (heap st))); [done|].
    intros y Hy. by destruct (step_identity st st' ev y Hstep Hy)
      as (_ & ? & ?). }
  split; by rewrite Hsame.
Qed.

Lemma initial_both_kings :
  both_kings (heap initial_state) (board initial_state).
Proof. split; vm_compute; reflexivity. Qed.

Lemma commit_status (st st' : State) (sel : ref) (r c : Z) (key : Promotion) :
  commit st sel r c key = Some st' → status_ok st'.
Proof.
  unfold commit, status_ok.
  destruct (deepcopy_board (heap st) (board st)) as [saved h].
  destruct (move_piece _ _ _ _ _ _ _ _ _) as [mv|]; [|done].
  cbn [mbind option_bind]. unfold check_win_condition.
  destruct (has_king (mv_heap mv) (mv_board mv) W) eqn:Ew; cbn [negb].
  - destruct (has_king (mv_heap mv) (mv_board mv) B) eqn:Eb; cbn [negb].
    + destruct (is_checkmate _ _ _) as [[mate h2]|] eqn:Emate; [|done].
      apply is_checkmate_heap in Emate as ->. intros [= <-]. cbn.
      destruct mate; [by eexists|]. by split.
    + intros [= <-]. cbn. by eexists.
  - intros [= <-]. cbn. by eexists.
Qed.

Lemma step_status (st st' : State) (ev : Event) :
  store_ok st →
  status_ok st →
  Forall (fun snap => both_kings (heap st) (snap_board snap)) (move_stack st) →
  step st ev = Some st' →
  status_ok st'
  ∧ Forall (fun snap => both_kings (heap st') (snap_board snap)) (move_stack st').
Proof.
  intros Hok Hst Hstack Hstep. pose proof Hok as (Hb & Hs & Hsb).
  assert (Forall (fun snap => both_kings (heap st') (snap_board snap))
                 (move_stack st)) as Hkept.
  { apply Forall_forall. intros snap Hin.
    eapply Forall_forall in Hstack; [|exact Hin].
    eapply Forall_forall in Hsb; [|exact Hin].
    by apply (both_kings_step st st' ev). }
  assert (status_ok (undo st)
          ∧ Forall (fun snap => both_kings (heap (undo st)) (snap_board snap))
                   (move_stack (undo st)) ∧ True) as Hundo.
  { unfold undo. destruct (move_stack st) as [|snap stack] eqn:Es.
    { rewrite Es. done. }
    apply Forall_cons in Hstack as [Hsnap Hstack].
    apply Forall_cons in Hsb as [Hsnapb Hsb].
    destruct (deepcopy_board (heap st) (snap_board snap)) as [bd' h'] eqn:Ed.
    apply (deepcopy_board_spec _ _ _ _ Hsnapb) in Ed as (Hp & _ & Hview).
    cbn. split; [|split; [|done]].
    - unfold status_ok. cbn. split; [|done]. by apply (both_kings_view (heap st) h' (snap_board snap)).
    - apply Forall_forall. intros s Hin.
      eapply Forall_forall in Hstack; [|exact Hin].
      eapply Forall_forall in Hsb; [|exact Hin].
      apply (both_kings_view (heap st) h' (snap_board s) (snap_board s)); [|done].
      by apply (view_prefix _ _ 0). }
  assert (∀ r c, reselect st r c = Some st' →
            game_over st' = game_over st ∧ winner st' = winner st
            ∧ board st' = board st ∧ heap st' = heap st
            ∧ move_stack st' = move_stack st) as Hre.
  { intros r c. unfold reselect.
    destruct (board_at (board st) r c) as [piece|]; [|by intros [= <-]].
    destruct (color_eqb _ _); [|by intros [= <-]].
    pose proof (get_valid_moves_heap (heap st) (board st) piece
                  (en_passant_target st)) as Eh.
    destruct (get_valid_moves _ _ _ _) as [moves h]. simpl in Eh. subst h.
    destruct (legal_filter _ _ _ _ _); [|done]. by intros [= <-]. }
  assert (∀ r c, select st r c = Some st' →
            game_over st' = game_over st ∧ winner st' = winner st
            ∧ board st' = board st ∧ heap st' = heap st
            ∧ move_stack st' = move_stack st) as Hse.
  { intros r c. unfold select.
    destruct (board_at (board st) r c) as [piece|]; [|by intros [= <-]].
    destruct (color_eqb _ _); [|by intros [= <-]].
    pose proof (get_valid_moves_heap (heap st) (board st) piece
                  (en_passant_target st)) as Eh.
    destruct (get_valid_moves _ _ _ _) as [moves h]. simpl in Eh. subst h.
    destruct (is_in_check _ _ _).
    - destruct (legal_filter _ _ _ _ _); [|done]. by intros [= <-].
    - by intros [= <-]. }
  assert (∀ st1, game_over st1 = game_over st → winner st1 = winner st →
            board st1 = board st → heap st1 = heap st →
            status_ok st1) as Hsame.
  { intros st1 E1 E2 E3 E4. unfold status_ok in *. by rewrite E1, E2, E3, E4. }
  destruct ev as [|r c key| | |]; simpl in Hstep.
  - destruct (game_over st) eqn:Eover; injection Hstep as <-; [done|].
    by destruct Hundo as (? & ? & _).
  - destruct (game_over st) eqn:Eover; [by injection Hstep as <-|].
    unfold click in Hstep. destruct (selected_piece st) as [sel|] eqn:Esel.
    + destruct (sq_in (r, c) (valid_moves st)).
      * split; [by apply commit_status in Hstep|].
        destruct (commit_spec st st' sel r c key Hok Esel Hstep)
          as (saved & -> & _ & Hview & _).
        apply Forall_cons. split; [|done]. cbn.
        apply (both_kings_view (heap st) (heap st') (board st) saved); [done|].
        unfold status_ok in Hst. rewrite Eover in Hst. by destruct Hst.
      * destruct (Hre r c Hstep) as (E1 & E2 & E3 & E4 & E5).
        split; [by apply Hsame|]. by rewrite E5.
    + destruct (Hse r c Hstep) as (E1 & E2 & E3 & E4 & E5).
      split; [by apply Hsame|]. by rewrite E5.
  - destruct (game_over st) eqn:Eover; [|done]. by injection Hstep as <-.
  - injection Hstep as <-. by destruct Hundo as (? & ? & _).
  - injection Hstep as <-. split.
    + unfold status_ok.
      destruct (restart_spec st)
        as (Hview & _ & _ & _ & -> & -> & _). split; [|done].
      apply (both_kings_view (heap initial_state) _ (board initial_state));
        [done|apply initial_both_kings].
    + destruct (restart_spec st)
        as (_ & _ & _ & _ & _ & _ & _ & _ & _ & -> & _). apply Forall_nil_2.
Qed.

Lemma reachable_status (st : State) :
  reachable st →
  status_ok st
  ∧ Forall (fun snap => both_kings (heap st) (snap_board snap)) (move_stack st).
Proof.
  induction 1 as [|st ev st' Hr [IH1 IH2] Hstep].
  - split; [|apply Forall_nil_2]. unfold status_ok.
    change (game_over initial_state) with false. split; [|reflexivity].
    apply initial_both_kings.
  - exact (step_status st st' ev (reachable_store_ok st Hr) IH1 IH2 Hstep).
Qed.

(** ** The example games are games of the program *)

Lemma pawn_selected_reachable : reachable pawn_selected.
Proof.
  apply (run_reachable [MouseSquare 6 4 K_q] initial_state);
    [apply reachable_initial|vm_compute; reflexivity].
Qed.

Lemma pawn_moved_reachable : reachable pawn_moved.
Proof.
  apply (run_reachable (clicks 6 4 4 4) initial_state);
    [apply reachable_initial|vm_compute; reflexivity].
Qed.

Lemma promotion_ready_reachable : reachable promotion_ready.
Proof.
  apply (run_reachable promotion_events initial_state);
    [apply reachable_initial|vm_compute; reflexivity].
Qed.

Lemma castling_ready_reachable : reachable castling_ready.
Proof.
  apply (run_reachable castling_events initial_state);
    [apply reachable_initial|vm_compute; reflexivity].
Qed.

Lemma wandering_king_reachable : reachable wandering_king.
Proof.
  apply (run_reachable wandering_king_events initial_state);
    [apply reachable_initial|vm_compute; reflexivity].
Qed.

Lemma pinned_selected_reachable : reachable pinned_selected.
Proof.
  apply (run_reachable pinned_events initial_state);
    [apply reachable_initial|vm_compute; reflexivity].
Qed.

Lemma dragged_rook_ready_reachable : reachable dragged_rook_ready.
Proof.
  apply (run_reachable dragged_rook_events initial_state);
    [apply reachable_initial|vm_compute; reflexivity].
Qed.

(** ** The simulation of [is_checkmate] and that of [main] *)

(** No move passes the filter exactly when [move_puts_king_in_check]
    answers [True] for every move. *)
Lemma legal_filter_nil (h : Heap) (bd : Board) (piece : ref) (cl : Color)
    (moves : list Square) :
  legal_filter h bd piece cl moves = Some []
  ↔ Forall (fun m => move_puts_king_in_check h bd piece m cl = Some true) moves.
Proof.
  induction moves as [|m moves IH]; cbn [legal_filter].
  - split; [constructor|done].
  - rewrite Forall_cons, <- IH.
    destruct (move_puts_king_in_check h bd piece m cl) as [[|]|];
      cbn [mbind option_bind]; [| |by split; [|intros [? _]]].
    + destruct (legal_filter h bd piece cl moves) as [rest|];
        cbn [mbind option_bind negb]; [tauto|by split; [|intros [_ ?]]].
    + split; [|by intros [? _]].
      by destruct (legal_filter h bd piece cl moves).
Qed.

(** The two simulations differ by the castling block of [is_checkmate]
    alone. *)
Lemma in_check_after_plain (h : Heap) (bd : Board) (piece : ref) (m : Square)
    (cl : Color) :
  (piece < length h)%nat →
  name_eqb (name (h !!! piece)) King && (Z.abs (snd m - 4) =? 2) = false →
  in_check_after h bd piece m cl = move_puts_king_in_check h bd piece m cl.
Proof.
  intros Hlt Hplain. unfold in_check_after, move_puts_king_in_check.
  destruct (scratch_move h bd piece m) as [[h' tb]|] eqn:Es; [|done].
  cbn [mbind option_bind].
  assert (name (h' !!! piece) = name (h !!! piece)) as ->; [|by rewrite Hplain].
  revert Es. unfold scratch_move.
  destruct (deepcopy_board h bd) as [tb0 h0] eqn:Ed.
  apply deepcopy_board_prefix in Ed.
  destruct (board_at tb0 _ _) as [tp|]; [|done]. intros [= <- _].
  by rewrite name_set_pos, (lookup_total_prefix _ _ _ Ed Hlt).
Qed.

(** The pieces the scan of a board meets are allocated. *)
Lemma concat_allocated (h : Heap) (bd : Board) (piece : ref) :
  refs_within 0 (length h) bd → Some piece ∈ concat bd → (piece < length h)%nat.
Proof.
  intros Hb Hin. apply list_elem_of_In, in_concat in Hin as (rw & Hrw & Hin).
  eapply Forall_forall in Hb; [|apply list_elem_of_In; exact Hrw].
  eapply Forall_forall in Hb; [|apply list_elem_of_In; exact Hin].
  specialize (Hb piece eq_refl). lia.
Qed.

Lemma fools_mate_reachable : reachable fools_mate.
Proof.
  apply (run_reachable fools_mate_events initial_state);
    [apply reachable_initial|vm_compute; reflexivity].
Qed.

(** After the moves of [missed_mate_events] no white piece has a move that
    passes the filter of [main]. *)
Lemma missed_mate_stuck :
  Forall (fun cell =>
            match cell with
            | Some piece =>
                color (heap missed_mate !!! piece) = W →
                legal_filter (heap missed_mate) (board missed_mate) piece W
                  (fst (get_valid_moves (heap missed_mate) (board missed_mate) piece
                                        (en_passant_target missed_mate))) = Some []
            | None => True
            end) (concat (board missed_mate)).
Proof.
  let cells := eval vm_compute in (concat (board missed_mate)) in
  change (concat (board missed_mate)) with cells.
  repeat (apply Forall_cons; split;
          [first [exact I
                 |intros Hcl; vm_compute in Hcl; discriminate Hcl
                 |intros _; vm_compute; reflexivity]|]).
  apply Forall_nil_2.
Qed.

(** * The claims *)

(** ** Legal moves (C1) *)

(** C1.  A pinned piece is offered a move that exposes its own king.
    After 1. e4 e5 2. Qh5 Black is not in check; Black's first click on
    the pawn (1,5) highlights (2,5) although [move_puts_king_in_check]
    says the move leaves Black in check, and committing it gives a board
    on which Black, who has just moved, is in check. *)
Theorem pinned_pawn_is_offered :
  after (clicks 6 4 4 4 ++ clicks 1 4 3 4 ++ clicks 7 3 3 7 ++ [MouseSquare 1 5 K_q])
    (fun st =>
       turn st = B
       ∧ is_in_check (heap st) (board st) B = false
       ∧ selected_piece st = Some 13%nat
       ∧ sq_in (2, 5) (valid_moves st) = true
       ∧ move_puts_king_in_check (heap st) (board st) 13%nat (2, 5) B = Some true
       ∧ match step st (MouseSquare 2 5 K_q) with
         | Some st' => board_at (board st') 2 5 = Some 13%nat
                       ∧ is_in_check (heap st') (board st') B = true
         | None => False
         end).
Proof. vm_compute. repeat split; done. Qed.

(** ** The en-passant target (C2) *)

(** C2.  The en-passant target of the specification's scenario: after
    White's two-step pawn move (6,4) to (4,4) the pawn stands on (4,4) and
    the program holds no target (the claim says (5,4)); after Black's
    (1,3) to (3,3) it holds none either (the claim says (2,3)). *)
Theorem en_passant_target_never_set :
  after (clicks 6 4 4 4)
        (fun st => board_at (board st) 4 4 = Some 28%nat
                   ∧ name (heap st !!! 28%nat) = Pawn
                   ∧ en_passant_target st = None)
  ∧ after (clicks 6 4 4 4 ++ clicks 1 3 3 3)
          (fun st => board_at (board st) 3 3 = Some 11%nat
                     ∧ name (heap st !!! 11%nat) = Pawn
                     ∧ en_passant_target st = None).
Proof. vm_compute. done. Qed.

(** ** Undo (C3) *)

(** C3.  In a state of the program in which the game is not over, let a
    click commit a move of the selected piece.  Then the snapshot now on
    top of the undo stack still shows, in the store as the move has left
    it, the board as it was before the move: it shares no piece with the
    live board, so the writes of the commit have not reached it.  And
    undoing (the U key) gives back the contents of the board, the side to
    move, the en-passant target, the move history, both capture lists and
    the undo stack of the state before the move. *)
Theorem undo_after_commit (st st1 : State) (sel : ref) (r c : Z)
    (key : Promotion) :
  reachable st →
  game_over st = false →
  selected_piece st = Some sel →
  sq_in (r, c) (valid_moves st) = true →
  step st (MouseSquare r c key) = Some st1 →
  (∃ snap, move_stack st1 = snap :: move_stack st
           ∧ refs_within (length (heap st)) (length (heap st1)) (snap_board snap)
           ∧ view (heap st1) (snap_board snap) = view (heap st) (board st))
  ∧ ∃ st2, step st1 KeyU = Some st2
      ∧ view (heap st2) (board st2) = view (heap st) (board st)
      ∧ turn st2 = turn st
      ∧ en_passant_target st2 = en_passant_target st
      ∧ move_history st2 = move_history st
      ∧ captured_white st2 = captured_white st
      ∧ captured_black st2 = captured_black st
      ∧ move_stack st2 = move_stack st
      ∧ game_over st2 = false.
Proof.
  intros Hreach Hover Hsel Hin. apply reachable_store_ok in Hreach as Hok.
  unfold step. rewrite Hover. unfold click. rewrite Hsel, Hin. intros Ec.
  destruct (commit_spec _ _ _ _ _ _ Hok Hsel Ec)
    as (saved & Estack & Hsaved & Hview & Hlen & Hb1 & Hsel1).
  split.
  - eexists. split; [exact Estack|]. by split.
  - eexists. split; [reflexivity|]. unfold undo. rewrite Estack. simpl.
    destruct (deepcopy_board (heap st1) saved) as [bd2 h2] eqn:Ed. simpl.
    apply deepcopy_board_spec in Ed as (_ & _ & Hview2).
    + split; [by rewrite Hview2|done].
    + eapply Forall_impl; [exact Hsaved|]. intros rw Hrw.
      eapply Forall_impl; [exact Hrw|]. intros cell Hc x E.
      specialize (Hc x E). lia.
Qed.

Lemma undo_before_reachable : reachable undo_before.
Proof.
  apply (run_reachable [MouseSquare 6 4 K_q] initial_state);
    [apply reachable_initial|vm_compute; reflexivity].
Qed.

Lemma undo_after_commit_witness :
  reachable undo_before
  ∧ step undo_before (MouseSquare 4 4 K_q) = Some undo_moved
  ∧ ∃ st2, step undo_moved KeyU = Some st2
      ∧ view (heap st2) (board st2) = view (heap undo_before) (board undo_before)
      ∧ turn st2 = turn undo_before
      ∧ move_history st2 = move_history undo_before
      ∧ move_stack st2 = move_stack undo_before.
Proof.
  assert (step undo_before (MouseSquare 4 4 K_q) = Some undo_moved) as Hstep
    by (vm_compute; reflexivity).
  assert (game_over undo_before = false) as Hover by (vm_compute; reflexivity).
  assert (selected_piece undo_before = Some 28%nat) as Hsel
    by (vm_compute; reflexivity).
  assert (sq_in (4, 4) (valid_moves undo_before) = true) as Hin
    by (vm_compute; reflexivity).
  split; [exact undo_before_reachable|]. split; [exact Hstep|].
  destruct (undo_after_commit undo_before undo_moved 28%nat 4 4 K_q
              undo_before_reachable Hover Hsel Hin Hstep)
    as (_ & st2 & H1 & H2 & H3 & _ & H5 & _ & _ & H8 & _).
  exists st2. repeat split; assumption.
Defined.

(** ** Castling (C4) *)

(** C4, as amended: the claim holds for a king that stands on its home
    square, column 4 of the back row of its colour: a castling destination
    is among its moves only when king and rook have not moved, the squares
    between them are empty, the king is not in check and the squares from
    the king's to its destination are not under attack. *)
Theorem castling_only_when_allowed (h : Heap) (bd : Board) (self : ref) :
  row (h !!! self) = home_row (color (h !!! self)) →
  col (h !!! self) = 4 →
  castling_claim h bd self.
Proof. apply castling_claim_home. Qed.

Lemma castling_only_when_allowed_witness :
  In (7, 6) (fst (get_king_moves (fst castle_ok) (snd castle_ok) 0%nat))
  ∧ castling_claim (fst castle_ok) (snd castle_ok) 0%nat.
Proof.
  split.
  - vm_compute. tauto.
  - apply (castling_only_when_allowed (fst castle_ok) (snd castle_ok) 0%nat);
      vm_compute; reflexivity.
Defined.

(** C4 as stated fails: the king on d1 is offered (7,5), two columns
    away, although the bishop stands between king and rook. *)
Lemma castling_claim_fails :
  ¬ castling_claim (fst castle_pos) (snd castle_pos) 0%nat.
Proof.
  intros Hclaim.
  destruct (Hclaim 5 7) as (_ & _ & Hempty & _).
  - left. by vm_compute.
  - vm_compute. tauto.
  - specialize (Hempty 4). vm_compute in Hempty.
    assert (Some 1%nat = @None nat) as Habs by (apply Hempty; done).
    discriminate.
Qed.

(** ** Checkmate (C5) *)

(** C5.  A mate that [is_checkmate] misses.  After 1. e4 e5 2. Bc4 Qg5
    3. Kf1 Qg4 4. Nh3 Qxd1 White, to move, is in check and has no legal
    move: for every white piece the list [main] highlights, the generated
    moves without those for which [move_puts_king_in_check] answers
    [True], is empty.  Yet [is_checkmate] answers [False] and the game
    goes on, so the claim as stated fails in this state.  The king's only
    generated move is (7,6); [move_puts_king_in_check] finds that it
    leaves White in check, while the simulation in [is_checkmate], which
    takes every king move to column 6 for castling, puts the rook of (7,7)
    on (7,5), between the queen and the king.  A click on the king then
    selects it with no square to go to. *)
Theorem is_checkmate_misses_mate :
  after missed_mate_events
    (fun st =>
       let h := heap st in
       let bd := board st in
       turn st = W ∧ game_over st = false ∧ winner st = None
       ∧ is_in_check h bd W = true
       ∧ (∀ piece, Some piece ∈ concat bd → color (h !!! piece) = W →
            legal_filter h bd piece W
              (fst (get_valid_moves h bd piece (en_passant_target st))) = Some [])
       ∧ is_checkmate h bd W = Some (false, h)
       ∧ ¬ checkmate_claim h bd W (en_passant_target st)
       ∧ board_at bd 7 5 = Some 20%nat ∧ name (h !!! 20%nat) = King
       ∧ fst (get_valid_moves h bd 20%nat (en_passant_target st)) = [(7, 6)]
       ∧ move_puts_king_in_check h bd 20%nat (7, 6) W = Some true
       ∧ in_check_after h bd 20%nat (7, 6) W = Some false
       ∧ match step st (MouseSquare 7 5 K_q) with
         | Some st' => selected_piece st' = Some 20%nat ∧ valid_moves st' = []
         | None => False
         end).
Proof.
  unfold after.
  assert (run initial_state missed_mate_events = Some missed_mate) as ->
    by (vm_compute; reflexivity).
  cbv zeta. split; [reflexivity|]. split; [reflexivity|]. split; [reflexivity|].
  split; [vm_compute; reflexivity|]. split.
  - intros piece Hin Hcl.
    pose proof missed_mate_stuck as Hall.
    eapply Forall_forall in Hall; [|exact Hin]. by apply Hall.
  - split; [vm_compute; reflexivity|]. split; [|vm_compute; repeat split; reflexivity].
    intros [_ Hmate].
    assert (is_checkmate (heap missed_mate) (board missed_mate) W
            = Some (true, heap missed_mate)) as Habs; [|by vm_compute in Habs].
    apply Hmate. split; [vm_compute; reflexivity|].
    intros piece Hin Hcl.
    pose proof missed_mate_stuck as Hall.
    eapply Forall_forall in Hall; [|exact Hin]. by apply Hall.
Qed.

(** The scan of [is_checkmate] also asks [get_valid_moves] for the moves
    without the en-passant target of the game.  On the position [mate_pos]
    with the target (2,4) the white pawn (piece 4) has the capture (2,4),
    which ends the check under either simulation, and [is_checkmate]
    answers [True]. *)
Lemma mate_pos_escape :
  let '(h, bd) := mate_pos in
  In (2, 4) (fst (get_valid_moves h bd 4%nat (Some (2, 4))))
  ∧ ¬ In (2, 4) (fst (get_valid_moves h bd 4%nat None))
  ∧ in_check_after h bd 4%nat (2, 4) W = Some false
  ∧ move_puts_king_in_check h bd 4%nat (2, 4) W = Some false
  ∧ is_checkmate h bd W = Some (true, h).
Proof.
  vm_compute. split; [tauto|]. split; [|done].
  intros H. by repeat (destruct H as [H|H]; [discriminate H|]).
Qed.

(** ** En-passant capture (C6) *)





(** ** Move records (C7) *)

(** C7.  Two different moves, one record.  After 1. d4 e5 2. f4 a6 White
    can take on (3,4) with the pawn from (4,3) or with the pawn from
    (4,5); both moves are offered, and both append the same record, which
    prints the destination twice and the origin nowhere. *)
Theorem move_record_omits_origin :
  after (clicks 6 3 4 3 ++ clicks 1 4 3 4 ++ clicks 6 5 4 5 ++ clicks 1 0 2 0)
    (fun st =>
       match run st (clicks 4 3 3 4), run st (clicks 4 5 3 4) with
       | Some st1, Some st2 =>
           board_at (board st) 4 3 ≠ board_at (board st) 4 5
           ∧ board_at (board st1) 4 3 = None
           ∧ board_at (board st2) 4 5 = None
           ∧ last (move_history st1) = Some "3. White: P from (3, 4) to (3, 4)"
           ∧ last (move_history st2) = Some "3. White: P from (3, 4) to (3, 4)"
       | _, _ => False
       end).
Proof. vm_compute. repeat split; done. Qed.

(** ** A missing king (C8) *)

(** C8.  On a board that has no king of colour [cl], [is_in_check] answers
    [False] instead of raising; it only reads the board and the pieces (it
    is a function of them, with no store to return).  The missing king is
    reported by [check_win_condition], which ends the game, in favour of
    the other side when that side still has its king. *)
Theorem is_in_check_without_king (h : Heap) (bd : Board) (cl : Color) :
  no_king h bd cl →
  is_in_check h bd cl = false
  ∧ fst (check_win_condition h bd) = true
  ∧ (has_king h bd (opponent cl) = true →
     snd (check_win_condition h bd) = Some (opponent cl)).
Proof.
  intros Hno. split; [|split].
  - unfold is_in_check. by rewrite find_king_None.
  - apply has_king_false in Hno. unfold check_win_condition.
    destruct cl; [by rewrite Hno|].
    destruct (has_king h bd W); [by rewrite Hno|done].
  - apply has_king_false in Hno. intros Hopp. unfold check_win_condition.
    destruct cl; simpl in Hopp; [by rewrite Hno|by rewrite Hopp, Hno].
Qed.

Lemma is_in_check_without_king_witness :
  no_king (fst lone_king) (snd lone_king) B
  ∧ is_in_check (fst lone_king) (snd lone_king) B = false
  ∧ fst (check_win_condition (fst lone_king) (snd lone_king)) = true.
Proof.
  assert (no_king (fst lone_king) (snd lone_king) B) as Hno
    by (apply has_king_false; vm_compute; reflexivity).
  split; [exact Hno|].
  destruct (is_in_check_without_king (fst lone_king) (snd lone_king) B Hno)
    as (H1 & H2 & _).
  split; [exact H1|exact H2].
Defined.

(** ** A rejected click (C9) *)

(** C9.  With a piece selected, a click on a square that is not among the
    highlighted moves leaves the game as it was: the pieces, the board,
    the side to move, the en-passant target, the move history, both
    capture lists, the undo stack and the game status are unchanged; the
    click can only change the selection.  In a state of the program the
    click is handled without an exception. *)
Theorem rejected_click_keeps_state (st : State) (sel : ref) (r c : Z)
    (key : Promotion) :
  selected_piece st = Some sel →
  sq_in (r, c) (valid_moves st) = false →
  (reachable st → is_Some (step st (MouseSquare r c key)))
  ∧ ∀ st', step st (MouseSquare r c key) = Some st' →
      heap st' = heap st ∧ board st' = board st ∧ turn st' = turn st
      ∧ en_passant_target st' = en_passant_target st
      ∧ move_history st' = move_history st
      ∧ captured_white st' = captured_white st
      ∧ captured_black st' = captured_black st
      ∧ move_stack st' = move_stack st
      ∧ game_over st' = game_over st ∧ winner st' = winner st.
Proof.
  intros Hsel Hout. unfold step.
  destruct (game_over st) eqn:Eover.
  { split; [by eexists|]. intros st' [= <-]. by rewrite Eover. }
  unfold click. rewrite Hsel, Hout. split.
  { intros Hr. by apply selection_returns, reachable_wf. }
  intros st'. unfold reselect.
  destruct (board_at (board st) r c) as [piece|].
  - destruct (color_eqb _ _).
    + pose proof (get_valid_moves_heap (heap st) (board st) piece
                    (en_passant_target st)) as Eh.
      destruct (get_valid_moves _ _ _ _) as [moves h]. simpl in Eh. subst h.
      destruct (legal_filter _ _ _ _ _) as [moves'|]; [|done].
      intros [= <-]. simpl. by rewrite Eover.
    + intros [= <-]. simpl. by rewrite Eover.
  - intros [= <-]. simpl. by rewrite Eover.
Qed.

Lemma rejected_before_reachable : reachable rejected_before.
Proof.
  apply (run_reachable rejected_events initial_state);
    [apply reachable_initial|vm_compute; reflexivity].
Qed.

Lemma rejected_click_keeps_state_witness :
  selected_piece rejected_before = Some 12%nat
  ∧ sq_in (4, 4) (valid_moves rejected_before) = false
  ∧ reachable rejected_before
  ∧ step rejected_before (MouseSquare 4 4 K_q) = Some rejected_after
  ∧ heap rejected_after = heap rejected_before
  ∧ board rejected_after = board rejected_before
  ∧ turn rejected_after = turn rejected_before
  ∧ move_history rejected_after = move_history rejected_before
  ∧ move_stack rejected_after = move_stack rejected_before.
Proof.
  assert (selected_piece rejected_before = Some 12%nat) as Hsel
    by (vm_compute; reflexivity).
  assert (sq_in (4, 4) (valid_moves rejected_before) = false) as Hout
    by (vm_compute; reflexivity).
  assert (step rejected_before (MouseSquare 4 4 K_q) = Some rejected_after) as Hstep
    by (vm_compute; reflexivity).
  destruct (rejected_click_keeps_state rejected_before 12%nat 4 4 K_q Hsel Hout)
    as [_ Hsame].
  destruct (Hsame rejected_after Hstep) as (H1 & H2 & H3 & _ & H5 & _ & _ & H8 & _).
  split; [exact Hsel|]. split; [exact Hout|].
  split; [exact rejected_before_reachable|]. split; [exact Hstep|].
  repeat split; assumption.
Defined.

(** ** The king is put back (C10) *)

(** C10.  [get_king_moves] leaves the store as it found it: the king has
    the row and the column it had before the call, and every square of
    the board holds the same piece, with the same attributes, as before.
    Each displacement of the king made to test a destination is undone
    before the next step. *)
Theorem get_king_moves_restores (h : Heap) (bd : Board) (self : ref) :
  let h' := snd (get_king_moves h bd self) in
  h' = h
  ∧ row (h' !!! self) = row (h !!! self)
  ∧ col (h' !!! self) = col (h !!! self)
  ∧ view h' bd = view h bd.
Proof. intros h'. unfold h'. by rewrite get_king_moves_heap. Qed.

(** * Further properties of the engine *)

(** ** The mouse *)

(** X1.  [get_square_under_mouse] returns a square exactly for the pixels
    inside the border of the board, [10 <= x, y < 790]: the square is
    [(y // SQUARE_SIZE, x // SQUARE_SIZE)], it lies on the board (the range
    test at the end of the function never fails), and the piece returned
    is the one the board holds there.  Every other pixel gives
    [(None, None, None)]. *)
Theorem get_square_under_mouse_spec (bd : Board) (x y : Z) :
  (BORDER_WIDTH ≤ x < BOARD_SIZE - BORDER_WIDTH
   ∧ BORDER_WIDTH ≤ y < BOARD_SIZE - BORDER_WIDTH →
   on_board (y `div` SQUARE_SIZE) (x `div` SQUARE_SIZE) = true
   ∧ get_square_under_mouse bd x y
     = Some (board_at bd (y `div` SQUARE_SIZE) (x `div` SQUARE_SIZE),
             y `div` SQUARE_SIZE, x `div` SQUARE_SIZE))
  ∧ (¬ (BORDER_WIDTH ≤ x < BOARD_SIZE - BORDER_WIDTH
        ∧ BORDER_WIDTH ≤ y < BOARD_SIZE - BORDER_WIDTH) →
     get_square_under_mouse bd x y = None).
Proof. apply under_mouse_cases. Qed.

Lemma get_square_under_mouse_spec_witness :
  get_square_under_mouse (board initial_state) 450 750
  = Some (Some 20%nat, 7, 4)
  ∧ get_square_under_mouse (board initial_state) 795 400 = None.
Proof.
  destruct (get_square_under_mouse_spec (board initial_state) 450 750) as [H1 _].
  destruct (get_square_under_mouse_spec (board initial_state) 795 400) as [_ H2].
  split.
  - destruct H1 as [_ ->]; [unfold BORDER_WIDTH, BOARD_SIZE; lia|].
    vm_compute. reflexivity.
  - apply H2. unfold BORDER_WIDTH, BOARD_SIZE. lia.
Defined.

(** X2.  Round trip with [Piece.draw], which draws the piece of square
    [(r, c)] at the pixel [(c * SQUARE_SIZE, r * SQUARE_SIZE)]: every pixel
    of that 100 by 100 square that is off the border is mapped back to
    [(r, c)] and to the piece standing there. *)
Theorem square_under_its_pixels (bd : Board) (r c dx dy : Z) :
  on_board r c = true →
  0 ≤ dx < SQUARE_SIZE → 0 ≤ dy < SQUARE_SIZE →
  BORDER_WIDTH ≤ c * SQUARE_SIZE + dx < BOARD_SIZE - BORDER_WIDTH →
  BORDER_WIDTH ≤ r * SQUARE_SIZE + dy < BOARD_SIZE - BORDER_WIDTH →
  get_square_under_mouse bd (c * SQUARE_SIZE + dx) (r * SQUARE_SIZE + dy)
  = Some (board_at bd r c, r, c).
Proof.
  unfold SQUARE_SIZE, BORDER_WIDTH, BOARD_SIZE, COLS.
  change (800 `div` 8) with 100. intros Hon Hdx Hdy Hx Hy.
  destruct (under_mouse_cases bd (c * 100 + dx) (r * 100 + dy))
    as [[_ ->] _].
  - unfold BORDER_WIDTH, BOARD_SIZE. lia.
  - unfold SQUARE_SIZE, BOARD_SIZE, COLS. change (800 `div` 8) with 100.
    assert ((c * 100 + dx) `div` 100 = c) as ->
      by (symmetry; apply (Z.div_unique _ _ c dx); lia).
    assert ((r * 100 + dy) `div` 100 = r) as ->
      by (symmetry; apply (Z.div_unique _ _ r dy); lia).
    done.
Qed.

Lemma square_under_its_pixels_witness :
  get_square_under_mouse (board initial_state) (4 * SQUARE_SIZE + 50) (7 * SQUARE_SIZE + 50)
  = Some (board_at (board initial_state) 7 4, 7, 4).
Proof.
  apply (square_under_its_pixels (board initial_state) 7 4 50 50);
    [vm_compute; reflexivity|
     unfold SQUARE_SIZE, BORDER_WIDTH, BOARD_SIZE, COLS;
     change (800 `div` 8) with 100; lia..].
Defined.

(** X3.  While the game is on, a click that is neither on the Undo button
    nor on a square inside the border (the border itself, the sidebar off
    the button) ends the program: [get_square_under_mouse] returns
    [(None, None, None)] and the handler reads [None.color]. *)
Theorem click_off_the_squares_raises (st : State) (x y : Z) (key : Promotion) :
  game_over st = false →
  collidepoint undo_button_rect x y = false →
  ¬ (BORDER_WIDTH ≤ x < BOARD_SIZE - BORDER_WIDTH
     ∧ BORDER_WIDTH ≤ y < BOARD_SIZE - BORDER_WIDTH) →
  mouse_button_down st x y key = None.
Proof.
  intros Hover Hbtn Hout. unfold mouse_button_down, mouse_event.
  rewrite Hbtn.
  destruct (under_mouse_cases (board st) x y) as [_ ->]; [|done].
  simpl. by rewrite Hover.
Qed.

Lemma click_off_the_squares_raises_witness :
  mouse_button_down initial_state 5 400 K_q = None
  ∧ mouse_button_down initial_state 900 100 K_q = None.
Proof.
  split.
  - apply (click_off_the_squares_raises initial_state 5 400 K_q);
      [vm_compute; reflexivity|vm_compute; reflexivity|].
    unfold BORDER_WIDTH, BOARD_SIZE. lia.
  - apply (click_off_the_squares_raises initial_state 900 100 K_q);
      [vm_compute; reflexivity|vm_compute; reflexivity|].
    unfold BORDER_WIDTH, BOARD_SIZE. lia.
Defined.

(** X4.  The rectangle of the Undo button lies inside the window and in
    the sidebar: a click that hits it is never a click on a square, and
    the handler takes it for the button. *)
Theorem undo_button_is_off_the_board (bd : Board) (x y : Z) (key : Promotion) :
  collidepoint undo_button_rect x y = true →
  BOARD_SIZE ≤ x < WIDTH ∧ 0 ≤ y < HEIGHT
  ∧ get_square_under_mouse bd x y = None
  ∧ mouse_event bd x y key = MouseUndoButton.
Proof.
  intros Hin. unfold mouse_event. rewrite Hin.
  unfold collidepoint, undo_button_rect in Hin. simpl in Hin.
  unfold BOARD_SIZE, SIDEBAR_WIDTH, HEIGHT, BOARD_SIZE in Hin.
  change (800 + (300 - 200) `div` 2) with 850 in Hin.
  repeat (apply andb_true_iff in Hin as [Hin ?]).
  unfold WIDTH, HEIGHT, BOARD_SIZE, SIDEBAR_WIDTH.
  split; [lia|]. split; [lia|]. split; [|done].
  destruct (under_mouse_cases bd x y) as [_ ->]; [done|].
  unfold BOARD_SIZE, BORDER_WIDTH. lia.
Qed.

Lemma undo_button_is_off_the_board_witness :
  get_square_under_mouse (board initial_state) 950 750 = None
  ∧ mouse_event (board initial_state) 950 750 K_q = MouseUndoButton.
Proof.
  destruct (undo_button_is_off_the_board (board initial_state) 950 750 K_q)
    as (_ & _ & H1 & H2); [vm_compute; reflexivity|].
  split; [exact H1|exact H2].
Defined.

(** ** The move generators *)

(** X5.  [get_pawn_moves] returns exactly: the square ahead when it is on
    the board and empty; the square two ahead when the pawn is on its
    start row and both squares are empty; and each of the two squares
    diagonally ahead that is on the board and holds a piece of the other
    colour or is the en-passant target. *)
Theorem get_pawn_moves_spec (h : Heap) (bd : Board) (self : ref)
    (ep : option Square) (r c : Z) :
  let me := h !!! self in
  let d := forward (color me) in
  In (r, c) (get_pawn_moves h bd self ep)
  ↔ 0 ≤ r < 8
    ∧ ((r = row me + d ∧ c = col me ∧ board_at bd r c = None)
       ∨ (r = row me + 2 * d ∧ c = col me ∧ row me = pawn_start_row (color me)
          ∧ board_at bd (row me + d) c = None ∧ board_at bd r c = None)
       ∨ (r = row me + d ∧ (c = col me - 1 ∨ c = col me + 1) ∧ 0 ≤ c < 8
          ∧ (foe_at h bd (color me) (r, c) ∨ ep = Some (r, c)))).
Proof. apply pawn_moves_iff. Qed.

(** X6.  [get_rook_moves] returns exactly the squares reached along a row
    or a column over empty squares of the board, the last one empty or
    held by a piece of the other colour.  The walks are not bounded in the
    statement: the eight rounds given to each [while] loop are enough. *)
Theorem get_rook_moves_spec (h : Heap) (bd : Board) (self : ref) (m : Square) :
  In m (get_rook_moves h bd self)
  ↔ ∃ d k, In d rook_directions ∧ slides_to h bd self d k m.
Proof. apply rook_moves_iff. Qed.

(** X7.  [get_bishop_moves] returns exactly the squares reached along a
    diagonal over empty squares of the board, the last one empty or held
    by a piece of the other colour. *)
Theorem get_bishop_moves_spec (h : Heap) (bd : Board) (self : ref) (m : Square) :
  In m (get_bishop_moves h bd self)
  ↔ ∃ d k, In d bishop_directions ∧ slides_to h bd self d k m.
Proof. apply bishop_moves_iff. Qed.

(** X8.  [get_queen_moves] returns exactly the squares reached along a
    row, a column or a diagonal over empty squares of the board, the last
    one empty or held by a piece of the other colour. *)
Theorem get_queen_moves_spec (h : Heap) (bd : Board) (self : ref) (m : Square) :
  In m (get_queen_moves h bd self)
  ↔ ∃ d k, In d (rook_directions ++ bishop_directions) ∧ slides_to h bd self d k m.
Proof. apply queen_moves_iff. Qed.

(** X9.  [get_knight_moves] returns exactly the squares of the board one
    row and two columns, or two rows and one column, away that are empty
    or held by a piece of the other colour. *)
Theorem get_knight_moves_spec (h : Heap) (bd : Board) (self : ref) (r c : Z) :
  let me := h !!! self in
  In (r, c) (get_knight_moves h bd self)
  ↔ on_board r c = true
    ∧ ((Z.abs (r - row me) = 1 ∧ Z.abs (c - col me) = 2)
       ∨ (Z.abs (r - row me) = 2 ∧ Z.abs (c - col me) = 1))
    ∧ free_for h bd (color me) (r, c).
Proof. apply knight_moves_iff. Qed.

(** X10.  [get_king_moves] returns exactly: the neighbouring squares of
    the board that are not held by a piece of the king's colour and for
    which [is_in_check] answers [False] once the king object carries their
    coordinates; and, for a king that has not moved and is not in check,
    the square two columns to the right when [can_castle_kingside] holds
    and the square two columns to the left when [can_castle_queenside]
    holds. *)
Theorem get_king_moves_spec (h : Heap) (bd : Board) (self : ref) (m : Square) :
  let me := h !!! self in
  In m (fst (get_king_moves h bd self))
  ↔ king_steps_to h bd self m
    ∨ (has_moved me = false ∧ is_in_check h bd (color me) = false
       ∧ ((can_castle_kingside h bd (color me) = true ∧ m = (row me, col me + 2))
          ∨ (can_castle_queenside h bd (color me) = true
             ∧ m = (row me, col me - 2)))).
Proof. apply king_moves_iff. Qed.

(** ** The attack oracle *)

(** X11.  The attack oracle asks a pawn for its moves, not for the
    squares it attacks: among a pawn's moves an empty square is always in
    the pawn's own column.  So a pawn guards the empty square ahead of it
    and no empty square diagonally ahead. *)
Theorem pawn_guards_only_its_file (h : Heap) (bd : Board) (x : ref) (r c : Z) :
  name (h !!! x) = Pawn →
  board_at bd r c = None →
  In (r, c) (get_piece_moves h bd x None) →
  c = col (h !!! x).
Proof.
  intros Hname Hempty. unfold get_piece_moves. rewrite Hname. intros Hin.
  apply pawn_moves_iff in Hin as [_ Hin].
  destruct Hin as [(_ & ? & _)|[(_ & ? & _)|(_ & _ & _ & [(t & Et & _)|?])]];
    [done|done| |done].
  simpl in Et. congruence.
Qed.

Lemma pawn_guards_only_its_file_witness :
  let h := fst king_and_pawn in
  let bd := snd king_and_pawn in
  (name (h !!! 1%nat) = Pawn ∧ board_at bd 3 3 = None
   ∧ In (3, 3) (get_piece_moves h bd 1%nat None))
  ∧ 3 = col (h !!! 1%nat)
  ∧ is_square_under_attack h bd (3, 3) W = true
  ∧ is_square_under_attack h bd (3, 4) W = false
  ∧ In (3, 4) (fst (get_king_moves h bd 0%nat))
  ∧ ¬ In (3, 3) (fst (get_king_moves h bd 0%nat)).
Proof.
  intros h bd.
  assert (In (3, 3) (get_piece_moves h bd 1%nat None)) as Hmove
    by (vm_compute; tauto).
  split; [split; [reflexivity|split; [reflexivity|exact Hmove]]|].
  split; [exact (pawn_guards_only_its_file h bd 1%nat 3 3 eq_refl eq_refl Hmove)|].
  split; [vm_compute; reflexivity|]. split; [vm_compute; reflexivity|].
  split; [vm_compute; tauto|].
  intros Hin. vm_compute in Hin.
  repeat (destruct Hin as [Hin|Hin]; [discriminate Hin|]). done.
Defined.

(** X12.  [is_in_check] and [is_square_under_attack] skip the kings: on
    a board where the only pieces of the other colour are kings, no square
    is under attack and the side is not in check. *)
Theorem kings_give_no_check (h : Heap) (bd : Board) (cl : Color) :
  (∀ x, Some x ∈ concat bd → color (h !!! x) = opponent cl →
        name (h !!! x) = King) →
  is_in_check h bd cl = false
  ∧ ∀ sq, is_square_under_attack h bd sq cl = false.
Proof.
  intros Honly.
  assert (∀ sq, existsb (attacks h bd (opponent cl) sq) (concat bd) = false) as Hno.
  { intros sq. apply not_true_is_false. intros Hex.
    apply existsb_exists in Hex as ([x|] & Hin & Hatt); [|done].
    simpl in Hatt. apply andb_true_iff in Hatt as [Hatt _].
    apply andb_true_iff in Hatt as [Hc Hn]. apply color_eqb_eq in Hc.
    apply list_elem_of_In in Hin. rewrite (Honly x Hin Hc) in Hn. done. }
  split; [|exact Hno]. unfold is_in_check.
  destruct (find_king h bd cl); [apply Hno|done].
Qed.

Lemma kings_give_no_check_witness :
  is_in_check (fst facing_kings) (snd facing_kings) W = false
  ∧ is_square_under_attack (fst facing_kings) (snd facing_kings) (3, 3) W = false
  ∧ In (3, 3) (fst (get_king_moves (fst facing_kings) (snd facing_kings) 1%nat)).
Proof.
  destruct (kings_give_no_check (fst facing_kings) (snd facing_kings) W) as [H1 H2].
  - intros x Hin. apply list_elem_of_In in Hin. vm_compute in Hin.
    repeat (destruct Hin as [Hin|Hin]; [try discriminate Hin|]); try done;
      injection Hin as <-; vm_compute; intros E; (reflexivity || discriminate E).
  - split; [exact H1|]. split; [apply H2|]. vm_compute. tauto.
Defined.

(** ** Simulation and selection *)

(** X13.  The simulation of [move_puts_king_in_check] writes to copies
    only: the scratch board holds fresh objects alone, and every object
    that existed before the call has the attributes it had. *)
Theorem simulation_spares_the_live_pieces (h h' : Heap) (bd tb : Board)
    (piece : ref) (move : Square) :
  refs_within 0 (length h) bd →
  scratch_move h bd piece move = Some (h', tb) →
  h `prefix_of` h'
  ∧ refs_within (length h) (length h') tb
  ∧ ∀ cl, move_puts_king_in_check h bd piece move cl = Some (is_in_check h' tb cl).
Proof.
  intros Hb Es. split; [|split].
  - revert Es. unfold scratch_move.
    destruct (deepcopy_board h bd) as [tb0 h0] eqn:Ed.
    apply (deepcopy_board_spec _ _ _ _ Hb) in Ed as (Hp & Hrefs & _).
    destruct (board_at tb0 _ _) as [tp|] eqn:Etp; [|done]. intros [= <- <-].
    pose proof (refs_within_at _ _ _ _ _ _ Hrefs Etp) as Htp.
    apply prefix_alter_ge; [done|lia].
  - revert Es. unfold scratch_move.
    destruct (deepcopy_board h bd) as [tb0 h0] eqn:Ed.
    apply (deepcopy_board_spec _ _ _ _ Hb) in Ed as (Hp & Hrefs & _).
    destruct (board_at tb0 _ _) as [tp|] eqn:Etp; [|done]. intros [= <- <-].
    pose proof (refs_within_at _ _ _ _ _ _ Hrefs Etp) as Htp.
    rewrite length_set_pos. apply refs_within_set.
    + apply refs_within_set; [done|apply cell_within_None].
    + by apply cell_within_Some.
  - intros cl. unfold move_puts_king_in_check. by rewrite Es.
Qed.

Lemma simulation_spares_the_live_pieces_witness :
  ∃ h' tb,
    scratch_move (heap initial_state) (board initial_state) 28%nat (4, 4)
    = Some (h', tb)
    ∧ heap initial_state `prefix_of` h'
    ∧ refs_within 32 (length h') tb.
Proof.
  destruct (scratch_move (heap initial_state) (board initial_state) 28%nat (4, 4))
    as [[h' tb]|] eqn:Es; [|by vm_compute in Es].
  exists h', tb. split; [done|].
  destruct (simulation_spares_the_live_pieces (heap initial_state) h'
              (board initial_state) tb 28%nat (4, 4)) as (H1 & H2 & _);
    [|exact Es|by split].
  destruct (reachable_store_ok _ reachable_initial) as (Hb & _). exact Hb.
Defined.

(** X14.  When a piece is selected by a click made while another piece
    is selected, or while the side to move is in check, the highlighted
    squares are exactly the moves [get_valid_moves] generates for it for
    which [move_puts_king_in_check] answers [False]. *)
Theorem second_click_filters (st st' : State) (p : ref) (r c : Z)
    (key : Promotion) :
  game_over st = false →
  (∀ sel, selected_piece st = Some sel → sq_in (r, c) (valid_moves st) = false) →
  (selected_piece st = None →
   is_in_check (heap st) (board st) (turn st) = true) →
  step st (MouseSquare r c key) = Some st' →
  selected_piece st' = Some p →
  board_at (board st) r c = Some p
  ∧ color (heap st !!! p) = turn st
  ∧ ∀ m, In m (valid_moves st')
         ↔ In m (fst (get_valid_moves (heap st) (board st) p
                                      (en_passant_target st)))
           ∧ move_puts_king_in_check (heap st) (board st) p m (turn st)
             = Some false.
Proof.
  intros Hover Hsecond Hfirst. simpl. rewrite Hover. unfold click.
  assert (∀ piece, board_at (board st) r c = Some piece →
            color_eqb (color (heap st !!! piece)) (turn st) = true →
            (let '(moves, h) :=
               get_valid_moves (heap st) (board st) piece (en_passant_target st) in
             moves ← legal_filter h (board st) piece (turn st) moves;
             Some (mkState h (board st) (Some piece) moves (turn st) (game_over st)
                     (winner st) (move_history st) (captured_white st)
                     (captured_black st) (move_stack st) (en_passant_target st)))
            = Some st' →
            selected_piece st' = Some p →
            board_at (board st) r c = Some p
            ∧ color (heap st !!! p) = turn st
            ∧ ∀ m, In m (valid_moves st')
                   ↔ In m (fst (get_valid_moves (heap st) (board st) p
                                                (en_passant_target st)))
                     ∧ move_puts_king_in_check (heap st) (board st) p m (turn st)
                       = Some false) as Hfilter.
  { intros piece Ep Ecol.
    pose proof (get_valid_moves_heap (heap st) (board st) piece
                  (en_passant_target st)) as Eh.
    destruct (get_valid_moves _ _ _ _) as [moves h] eqn:Eg. simpl in Eh. subst h.
    destruct (legal_filter _ _ _ _ _) as [moves'|] eqn:Ef; [|done].
    intros [= <-]. simpl. intros [= <-]. split; [done|].
    split; [by apply color_eqb_eq|]. intros m. rewrite Eg. simpl.
    apply (legal_filter_In _ _ _ _ _ _ Ef). }
  destruct (selected_piece st) as [sel|] eqn:Esel.
  - rewrite (Hsecond sel eq_refl). unfold reselect.
    destruct (board_at (board st) r c) as [piece|] eqn:Ep; [|by intros [= <-]].
    destruct (color_eqb _ _) eqn:Ecol; [|by intros [= <-]].
    by apply Hfilter.
  - unfold select. rewrite (Hfirst eq_refl).
    destruct (board_at (board st) r c) as [piece|] eqn:Ep;
      [|intros [= <-]; by rewrite Esel].
    destruct (color_eqb _ _) eqn:Ecol; [|intros [= <-]; by rewrite Esel].
    specialize (Hfilter piece eq_refl Ecol). revert Hfilter.
    destruct (get_valid_moves (heap st) (board st) piece (en_passant_target st))
      as [moves h].
    destruct (legal_filter h (board st) piece (turn st) moves) as [moves'|];
      [|done].
    cbn [mbind option_bind]. intros Hfilter. exact Hfilter.
Qed.

Lemma second_click_filters_witness :
  step pinned_selected (MouseSquare 1 5 K_q) = Some pinned_reselected
  ∧ selected_piece pinned_reselected = Some 13%nat
  ∧ valid_moves pinned_reselected = []
  ∧ In (2, 5) (fst (get_valid_moves (heap pinned_selected) (board pinned_selected)
                                    13%nat (en_passant_target pinned_selected)))
  ∧ move_puts_king_in_check (heap pinned_selected) (board pinned_selected)
      13%nat (2, 5) (turn pinned_selected) ≠ Some false.
Proof.
  assert (step pinned_selected (MouseSquare 1 5 K_q) = Some pinned_reselected)
    as Hstep by (vm_compute; reflexivity).
  assert (selected_piece pinned_reselected = Some 13%nat) as Hsel
    by (vm_compute; reflexivity).
  assert (In (2, 5) (fst (get_valid_moves (heap pinned_selected)
                            (board pinned_selected) 13%nat
                            (en_passant_target pinned_selected)))) as Hgen
    by (vm_compute; tauto).
  split; [exact Hstep|]. split; [exact Hsel|]. split; [vm_compute; reflexivity|].
  split; [exact Hgen|].
  destruct (second_click_filters pinned_selected pinned_reselected 13%nat 1 5 K_q)
    as (_ & _ & Hiff);
    [vm_compute; reflexivity|intros sel _; vm_compute; reflexivity|
     intros E; vm_compute in E; discriminate E|exact Hstep|exact Hsel|].
  intros Hsafe. destruct (Hiff (2, 5)) as [_ Hback].
  assert (In (2, 5) (valid_moves pinned_reselected)) as Habs
    by (apply Hback; split; [exact Hgen|exact Hsafe]).
  vm_compute in Habs. exact Habs.
Defined.

(** X15.  In every state of the program the selected piece belongs to
    the side to move and every highlighted square is one of the moves
    [get_valid_moves] generates for it on the present board; when no piece
    is selected no square is highlighted. *)
Theorem reachable_selection_ok (st : State) : reachable st → selection_ok st.
Proof. apply reachable_selection. Qed.

Lemma reachable_selection_ok_witness :
  reachable pawn_selected ∧ selection_ok pawn_selected.
Proof.
  split; [exact pawn_selected_reachable|].
  apply (reachable_selection_ok pawn_selected). exact pawn_selected_reachable.
Defined.

(** X16.  In every state of the program a highlighted square is a square
    of the board that is empty or held by a piece of the other side: no
    move is offered onto a piece of the mover's own colour. *)
Theorem highlighted_moves_spare_own_pieces (st : State) (sel : ref) (m : Square) :
  reachable st →
  selected_piece st = Some sel →
  In m (valid_moves st) →
  on_board (fst m) (snd m) = true
  ∧ free_for (heap st) (board st) (turn st) m.
Proof. apply highlighted_move_free. Qed.

Lemma highlighted_moves_spare_own_pieces_witness :
  reachable pawn_selected
  ∧ selected_piece pawn_selected = Some 28%nat
  ∧ In (4, 4) (valid_moves pawn_selected)
  ∧ on_board 4 4 = true
  ∧ free_for (heap pawn_selected) (board pawn_selected) (turn pawn_selected) (4, 4).
Proof.
  assert (selected_piece pawn_selected = Some 28%nat) as Hsel
    by (vm_compute; reflexivity).
  assert (In (4, 4) (valid_moves pawn_selected)) as Hin by (vm_compute; tauto).
  split; [exact pawn_selected_reachable|]. split; [exact Hsel|]. split; [exact Hin|].
  exact (highlighted_moves_spare_own_pieces pawn_selected 28%nat (4, 4)
           pawn_selected_reachable Hsel Hin).
Defined.

(** X17.  No state of the program holds an en-passant target, so no
    en-passant capture is ever offered: a highlighted move of a pawn to
    another column lands on a piece of the other side. *)
Theorem en_passant_is_never_offered (st : State) (sel : ref) (r c : Z) :
  reachable st →
  selected_piece st = Some sel →
  name (heap st !!! sel) = Pawn →
  In (r, c) (valid_moves st) →
  en_passant_target st = None
  ∧ (c ≠ col (heap st !!! sel) → foe_at (heap st) (board st) (turn st) (r, c)).
Proof.
  intros Hr Hsel Hname Hm. pose proof (reachable_no_target st Hr) as Hep.
  split; [done|]. intros Hc.
  pose proof (reachable_selection st Hr) as Hs. unfold selection_ok in Hs.
  rewrite Hsel in Hs. destruct Hs as [Hcol Hsub]. apply Hsub in Hm.
  unfold get_valid_moves, get_piece_moves in Hm. rewrite Hname, Hep in Hm.
  cbn [fst] in Hm. apply pawn_moves_iff in Hm as [_ Hm]. rewrite <- Hcol.
  destruct Hm as [(_ & ? & _)|[(_ & ? & _)|(_ & _ & _ & [?|?])]]; done.
Qed.

Lemma en_passant_is_never_offered_witness :
  reachable promotion_ready
  ∧ In (0, 0) (valid_moves promotion_ready)
  ∧ col (heap promotion_ready !!! 24%nat) = 1
  ∧ foe_at (heap promotion_ready) (board promotion_ready) (turn promotion_ready) (0, 0).
Proof.
  assert (selected_piece promotion_ready = Some 24%nat) as Hsel
    by (vm_compute; reflexivity).
  assert (name (heap promotion_ready !!! 24%nat) = Pawn) as Hname
    by (vm_compute; reflexivity).
  assert (In (0, 0) (valid_moves promotion_ready)) as Hin by (vm_compute; tauto).
  split; [exact promotion_ready_reachable|]. split; [exact Hin|].
  split; [vm_compute; reflexivity|].
  destruct (en_passant_is_never_offered promotion_ready 24%nat 0 0
              promotion_ready_reachable Hsel Hname Hin) as [_ Hfoe].
  apply Hfoe. vm_compute. discriminate.
Defined.

(** X18.  In every state of the program, a king is offered a square two
    columns away only when king and rook have not moved, the squares
    between them are empty, the king is not in check and the squares from
    the king's to its destination are not under attack. *)
Theorem castling_is_sound_in_play (st : State) (self : ref) :
  reachable st → name (heap st !!! self) = King →
  castling_claim (heap st) (board st) self.
Proof. apply castling_in_play. Qed.

Lemma castling_is_sound_in_play_witness :
  reachable castling_ready
  ∧ In (7, 6) (fst (get_king_moves (heap castling_ready) (board castling_ready) 20%nat))
  ∧ castling_claim (heap castling_ready) (board castling_ready) 20%nat.
Proof.
  split; [exact castling_ready_reachable|]. split; [vm_compute; tauto|].
  apply (castling_is_sound_in_play castling_ready 20%nat);
    [exact castling_ready_reachable|vm_compute; reflexivity].
Defined.

(** ** Committed moves *)

(** X19.  A committed move that is not a move of a king to column 2 or 6
    changes two squares and no other: the square the piece came from is
    empty; the destination holds the piece with its new coordinates and
    [has_moved] set, or, for a pawn arriving on row 0 or 7, a new piece of
    the kind chosen at the prompt, of the pawn's colour, with [has_moved]
    not set; every other square holds the piece it held, unchanged. *)
Theorem ordinary_move_changes_two_squares (st st' : State) (sel : ref)
    (r c : Z) (key : Promotion) :
  let me := heap st !!! sel in
  reachable st →
  game_over st = false →
  selected_piece st = Some sel →
  sq_in (r, c) (valid_moves st) = true →
  ¬ (name me = King ∧ (c = 2 ∨ c = 6)) →
  step st (MouseSquare r c key) = Some st' →
  piece_at (heap st') (board st') (row me) (col me) = None
  ∧ piece_at (heap st') (board st') r c = Some (arrived key me r c)
  ∧ ∀ r' c', on_board r' c' = true →
      (r', c') ≠ (row me, col me) → (r', c') ≠ (r, c) →
      piece_at (heap st') (board st') r' c' = piece_at (heap st) (board st) r' c'.
Proof.
  intros me Hr Hover Hsel Hin Hplain. simpl. rewrite Hover. unfold click.
  rewrite Hsel, Hin. intros Ec. apply sq_in_In in Hin.
  destruct (highlighted_move_facts st sel r c Hr Hsel Hin)
    as (Hlt & Hat & Hon0 & Hon & Hne & _ & Hep). fold me in Hat, Hon0, Hne.
  pose proof (reachable_wf st Hr) as ((Hb & _) & _ & Hg & Hp & _).
  apply commit_moved in Ec as (h & mv & Hpre & Em & -> & -> & _).
  assert (h !!! sel = me) as Esel by (by apply lookup_total_prefix).
  pose proof (prefix_length _ _ Hpre) as Hlen.
  rewrite Hep in Em. rewrite move_piece_plain in Em.
  2:{ rewrite Esel. apply andb_false_iff.
      destruct (name_eqb (name me) King) eqn:Ek; [right|by left].
      apply name_eqb_eq in Ek. apply Z.eqb_neq. intros Habs.
      apply Hplain. split; [done|]. lia. }
  rewrite Esel in Em. apply on_board_iff in Hon0 as Hon0', Hon as Hon'.
  set (bd1 := board_set (board st) (row me) (col me) None) in *.
  set (bd2 := board_set bd1 r c (Some sel)) in *.
  set (h2 := set_moved (set_pos h sel r c) sel true) in *.
  assert (grid bd1) as Hg1 by (by apply grid_set).
  assert (grid bd2) as Hg2 by (by apply grid_set).
  assert (h2 !!! sel = with_moved true (with_pos r c me)) as Eh2.
  { unfold h2. rewrite moved_piece_lookup by lia. by rewrite Esel. }
  assert (length h2 = length h) as Hl2
    by (unfold h2; by rewrite length_set_moved, length_set_pos).
  assert (∀ x, x ≠ sel → (x < length (heap st))%nat → h2 !!! x = heap st !!! x)
    as Hother.
  { intros x Hx Hxl. unfold h2. rewrite set_moved_other, set_pos_other by done.
    by apply lookup_total_prefix. }
  assert (board_at bd2 (row me) (col me) = None) as Eorigin.
  { unfold bd2. rewrite board_at_set_other by (lia || done).
    unfold bd1. by apply board_at_set_same. }
  assert (∀ r' c', on_board r' c' = true → (r', c') ≠ (row me, col me) →
            (r', c') ≠ (r, c) → board_at bd2 r' c' = board_at (board st) r' c')
    as Hframe.
  { intros r' c' Hon1 Hn1 Hn2. apply on_board_iff in Hon1.
    unfold bd2, bd1. rewrite !board_at_set_other; (done || lia || congruence). }
  assert (∀ r' c' x, on_board r' c' = true → (r', c') ≠ (row me, col me) →
            board_at (board st) r' c' = Some x →
            x ≠ sel ∧ (x < length (heap st))%nat) as Hfresh.
  { intros r' c' x Hon1 Hn1 Ex. apply on_board_iff in Hon1. split.
    - intros ->. apply Hn1.
      destruct (Hp r' c' sel ltac:(lia) ltac:(lia) Ex) as [E1 E2].
      fold me in E1, E2. congruence.
    - pose proof (refs_within_at _ _ _ _ _ _ Hb Ex). lia. }
  unfold arrived. destruct (name_eqb (name me) Pawn && ((r =? 0) || (r =? ROWS - 1)));
    injection Em as <-; cbn [mv_heap mv_board]; unfold piece_at.
  - split; [|split].
    + rewrite board_at_set_other by (lia || done). by rewrite Eorigin.
    + rewrite board_at_set_same by done. cbn [option_map].
      rewrite lookup_total_app_r by lia. rewrite Nat.sub_diag. cbn.
      by rewrite Eh2.
    + intros r' c' Hon1 Hn1 Hn2. apply on_board_iff in Hon1 as Hon1'.
      rewrite board_at_set_other by (lia || congruence).
      rewrite (Hframe r' c' Hon1 Hn1 Hn2).
      destruct (board_at (board st) r' c') as [x|] eqn:Ex; [|done]. cbn [option_map].
      destruct (Hfresh r' c' x Hon1 Hn1 Ex) as [Hx Hxl].
      rewrite lookup_total_app_l by lia. by rewrite (Hother x Hx Hxl).
  - split; [|split].
    + by rewrite Eorigin.
    + unfold bd2. rewrite board_at_set_same by done. cbn [option_map]. by rewrite Eh2.
    + intros r' c' Hon1 Hn1 Hn2. rewrite (Hframe r' c' Hon1 Hn1 Hn2).
      destruct (board_at (board st) r' c') as [x|] eqn:Ex; [|done]. cbn [option_map].
      destruct (Hfresh r' c' x Hon1 Hn1 Ex) as [Hx Hxl].
      by rewrite (Hother x Hx Hxl).
Qed.

Lemma ordinary_move_changes_two_squares_witness :
  reachable promotion_ready
  ∧ step promotion_ready (MouseSquare 0 0 K_n) = Some promotion_done
  ∧ piece_at (heap promotion_done) (board promotion_done) 1 1 = None
  ∧ piece_at (heap promotion_done) (board promotion_done) 0 0
    = Some (new_Piece Knight 0 0 W)
  ∧ piece_at (heap promotion_done) (board promotion_done) 7 4
    = piece_at (heap promotion_ready) (board promotion_ready) 7 4.
Proof.
  assert (step promotion_ready (MouseSquare 0 0 K_n) = Some promotion_done) as Hstep
    by (vm_compute; reflexivity).
  split; [exact promotion_ready_reachable|]. split; [exact Hstep|].
  destruct (ordinary_move_changes_two_squares promotion_ready promotion_done
              24%nat 0 0 K_n promotion_ready_reachable)
    as (H1 & H2 & H3);
    [vm_compute; reflexivity|vm_compute; reflexivity|vm_compute; reflexivity|
     vm_compute; intros [E _]; discriminate E|exact Hstep|].
  split; [exact H1|]. split; [exact H2|].
  apply H3; [vm_compute; reflexivity|vm_compute; discriminate..].
Defined.

(** X20.  Castling: when the king on column 4 is committed to column 6
    (or 2) of its row, the rook of the corner column 7 (or 0), an unmoved
    rook of the king's colour, goes to column 5 (or 3); king and rook carry
    their new coordinates and [has_moved]; the squares they left are empty
    and every other square is unchanged. *)
Theorem castling_moves_king_and_rook (st st' : State) (sel : ref)
    (c from to : Z) (key : Promotion) :
  let me := heap st !!! sel in
  reachable st →
  game_over st = false →
  selected_piece st = Some sel →
  name me = King → col me = 4 →
  (c = 6 ∧ from = 7 ∧ to = 5) ∨ (c = 2 ∧ from = 0 ∧ to = 3) →
  sq_in (row me, c) (valid_moves st) = true →
  step st (MouseSquare (row me) c key) = Some st' →
  ∃ rook,
    piece_at (heap st) (board st) (row me) from = Some rook
    ∧ name rook = Rook ∧ color rook = color me ∧ has_moved rook = false
    ∧ has_moved me = false
    ∧ piece_at (heap st') (board st') (row me) 4 = None
    ∧ piece_at (heap st') (board st') (row me) from = None
    ∧ piece_at (heap st') (board st') (row me) c
      = Some (with_moved true (with_pos (row me) c me))
    ∧ piece_at (heap st') (board st') (row me) to
      = Some (with_moved true (with_pos (row me) to rook))
    ∧ ∀ r' c', on_board r' c' = true →
        ¬ (r' = row me ∧ (c' = 4 ∨ c' = from ∨ c' = c ∨ c' = to)) →
        piece_at (heap st') (board st') r' c' = piece_at (heap st) (board st) r' c'.
Proof.
  intros me Hr Hover Hsel Hking Hcol Hside Hin. simpl. rewrite Hover.
  unfold click. rewrite Hsel, Hin. intros Ec. apply sq_in_In in Hin.
  destruct (highlighted_move_facts st sel (row me) c Hr Hsel Hin)
    as (Hlt & Hat & Hon0 & Hon & Hne & Hturn & Hep).
  fold me in Hat, Hon0, Hne, Hturn. rewrite Hcol in Hat, Hon0.
  pose proof (reachable_wf st Hr) as ((Hb & _) & Hk & Hg & Hp & _).
  (* the move is a castling move: the rook is there *)
  pose proof (reachable_selection st Hr) as Hok. unfold selection_ok in Hok.
  rewrite Hsel in Hok. destruct Hok as [_ Hsub]. apply Hsub in Hin as Hgen.
  unfold get_valid_moves in Hgen. fold me in Hgen. rewrite Hking in Hgen.
  apply king_moves_iff in Hgen. fold me in Hgen.
  destruct Hgen as [(_ & Hnear & _)|(Hunmoved & _ & Hcastle)].
  { cbv zeta in Hnear. cbn [snd] in Hnear. fold me in Hnear. rewrite Hcol in Hnear.
    destruct Hside as [(-> & _)|(-> & _)]; simpl in Hnear; lia. }
  destruct (Hk sel Hking Hunmoved) as [Hrow _]. fold me in Hrow.
  assert (rook_unfit (heap st) (board_at (board st) (row me) from) (color me) = false
          ∧ ∀ c', Z.min 4 from < c' < Z.max 4 from →
                  board_at (board st) (row me) c' = None) as [Hfit Hempty].
  { rewrite Hrow. destruct Hside as [(-> & -> & ->)|(-> & -> & ->)];
      destruct Hcastle as [[Hc E]|[Hc E]]; rewrite Hcol in E;
      try (injection E as E; lia).
    - apply can_castle_kingside_true in Hc as (? & He & _). split; [done|].
      intros c' Hc'. apply He. lia.
    - apply can_castle_queenside_true in Hc as (? & He & _). split; [done|].
      intros c' Hc'. apply He. lia. }
  apply rook_fit in Hfit as (x & Ex & Hxn & Hxc & Hxm).
  pose proof (refs_within_at _ _ _ _ _ _ Hb Ex) as Hxl.
  exists (heap st !!! x). unfold piece_at at 1. rewrite Ex.
  split; [done|]. do 4 (split; [done|]).
  apply on_board_iff in Hon0 as Hon0', Hon as Hon'.
  assert (0 ≤ from < 8 ∧ 0 ≤ to < 8 ∧ from ≠ 4 ∧ from ≠ c ∧ from ≠ to
          ∧ to ≠ 4 ∧ to ≠ c ∧ c ≠ 4) as (Hf8 & Ht8 & Hf4 & Hfc & Hft & Ht4 & Htc & Hc4)
    by (destruct Hside as [(-> & -> & ->)|(-> & -> & ->)]; lia).
  assert (x ≠ sel) as Hxsel.
  { intros ->. destruct (Hp (row me) from sel ltac:(lia) ltac:(lia) Ex) as [_ E].
    fold me in E. lia. }
  apply commit_moved in Ec as (h & mv & Hpre & Em & -> & -> & _).
  assert (h !!! sel = me) as Esel by (by apply lookup_total_prefix).
  pose proof (prefix_length _ _ Hpre) as Hlen.
  rewrite Hep in Em.
  set (bd2 := board_set (board_set (board st) (row me) 4 None) (row me) c (Some sel)).
  assert (board_at bd2 (row me) from = Some x) as Ex2.
  { unfold bd2. rewrite !board_at_set_other; (done || lia || congruence). }
  destruct (move_piece_castle h (board st) sel x (row me) c from to key
              (captured_white st) (captured_black st)) as (cw' & cb' & Em');
    [by rewrite Esel|done|by rewrite Esel, Hcol|].
  rewrite Esel, Hcol in Em'. fold bd2 in Em'. rewrite Em' in Em.
  injection Em as <-. cbn [mv_heap mv_board].
  set (h2 := set_moved (set_pos h sel (row me) c) sel true).
  set (h3 := set_moved (set_pos h2 x (row me) to) x true).
  assert (length h2 = length h) as Hl2
    by (unfold h2; by rewrite length_set_moved, length_set_pos).
  assert (h3 !!! sel = with_moved true (with_pos (row me) c me)) as Eh3sel.
  { unfold h3. rewrite set_moved_other, set_pos_other by done.
    unfold h2. rewrite moved_piece_lookup by lia. by rewrite Esel. }
  assert (h3 !!! x = with_moved true (with_pos (row me) to (heap st !!! x))) as Eh3x.
  { unfold h3. rewrite moved_piece_lookup by lia.
    unfold h2. rewrite set_moved_other, set_pos_other by done.
    by rewrite (lookup_total_prefix _ _ _ Hpre) by lia. }
  assert (∀ y, y ≠ sel → y ≠ x → (y < length (heap st))%nat →
            h3 !!! y = heap st !!! y) as Hother.
  { intros y Hy1 Hy2 Hyl. unfold h3, h2.
    rewrite set_moved_other, set_pos_other, set_moved_other, set_pos_other by done.
    by apply lookup_total_prefix. }
  assert (grid bd2) as Hg2 by (unfold bd2; by do 2 apply grid_set).
  unfold piece_at.
  split; [|split; [|split; [|split]]].
  - rewrite !board_at_set_other by (lia || congruence).
    unfold bd2. rewrite board_at_set_other by (lia || congruence).
    by rewrite board_at_set_same.
  - rewrite board_at_set_other by (lia || congruence).
    by rewrite board_at_set_same by (done || (apply on_board_iff; lia)).
  - rewrite !board_at_set_other by (lia || congruence).
    unfold bd2. rewrite board_at_set_same by (by apply grid_set || done).
    cbn [option_map]. by rewrite Eh3sel.
  - rewrite board_at_set_same;
      [|by apply grid_set|apply on_board_iff; lia].
    cbn [option_map]. by rewrite Eh3x.
  - intros r' c' Hon1 Hn. apply on_board_iff in Hon1 as Hon1'.
    rewrite !board_at_set_other by (lia || (intros [= ? ?]; apply Hn; lia)).
    unfold bd2.
    rewrite !board_at_set_other by (lia || (intros [= ? ?]; apply Hn; lia)).
    destruct (board_at (board st) r' c') as [y|] eqn:Ey; [|done]. cbn [option_map].
    pose proof (refs_within_at _ _ _ _ _ _ Hb Ey) as Hyl.
    destruct (Hp r' c' y ltac:(lia) ltac:(lia) Ey) as [Ey1 Ey2].
    rewrite Hother; [done| | |lia].
    + intros ->. fold me in Ey1, Ey2. apply Hn. split; [done|]. left. lia.
    + intros ->. destruct (Hp (row me) from x ltac:(lia) ltac:(lia) Ex) as [Ex1 Ex3].
      apply Hn. split; [lia|]. right. left. lia.
Qed.

Lemma castling_moves_king_and_rook_witness :
  reachable castling_ready
  ∧ step castling_ready (MouseSquare 7 6 K_q) = Some castling_done
  ∧ piece_at (heap castling_done) (board castling_done) 7 4 = None
  ∧ piece_at (heap castling_done) (board castling_done) 7 7 = None
  ∧ piece_at (heap castling_done) (board castling_done) 7 6
    = Some (mkPiece King 7 6 W true)
  ∧ piece_at (heap castling_done) (board castling_done) 7 5
    = Some (mkPiece Rook 7 5 W true).
Proof.
  assert (step castling_ready (MouseSquare 7 6 K_q) = Some castling_done) as Hstep
    by (vm_compute; reflexivity).
  split; [exact castling_ready_reachable|]. split; [exact Hstep|].
  destruct (castling_moves_king_and_rook castling_ready castling_done 20%nat
              6 7 5 K_q castling_ready_reachable)
    as (rook & Hrook & _ & _ & _ & _ & H1 & H2 & H3 & H4 & _);
    [vm_compute; reflexivity|vm_compute; reflexivity|vm_compute; reflexivity|
     vm_compute; reflexivity|left; repeat split|vm_compute; reflexivity|
     exact Hstep|].
  split; [exact H1|]. split; [exact H2|]. split; [exact H3|].
  vm_compute in Hrook. injection Hrook as <-. exact H4.
Defined.

(** X21.  The castling block runs for every move of a king to column 6
    or 2, castling or not: when the corner cell of the destination row
    (column 7, or 0) is empty, it reads [rook.row] of [0] and the program
    ends. *)
Theorem king_move_beside_an_empty_corner_raises (st : State) (sel : ref)
    (r c : Z) (key : Promotion) :
  reachable st →
  game_over st = false →
  selected_piece st = Some sel →
  name (heap st !!! sel) = King →
  sq_in (r, c) (valid_moves st) = true →
  (c = 6 ∧ board_at (board st) r 7 = None)
  ∨ (c = 2 ∧ board_at (board st) r 0 = None) →
  step st (MouseSquare r c key) = None.
Proof.
  intros Hr Hover Hsel Hking Hin Hcorner. simpl. rewrite Hover. unfold click.
  rewrite Hsel, Hin. unfold commit.
  pose proof (reachable_store_ok st Hr) as (_ & Hs & _). specialize (Hs sel Hsel).
  destruct (deepcopy_board (heap st) (board st)) as [saved h] eqn:Ed.
  apply deepcopy_board_prefix in Ed.
  assert (h !!! sel = heap st !!! sel) as Esel by (by apply lookup_total_prefix).
  assert (move_piece h (board st) sel (en_passant_target st) r c key
            (captured_white st) (captured_black st) = None) as ->; [|done].
  unfold move_piece, en_passant_capture. rewrite Esel, Hking.
  cbn [name_eqb andb mbind option_bind].
  destruct (match board_at _ r c with Some _ => _ | None => _ end) as [cw' cb'].
  unfold castle_rook. rewrite name_set_moved, name_set_pos, Esel, Hking.
  cbn [name_eqb andb].
  assert (∀ (bd : Board) (h' : Heap) (from to : Z),
            board_at bd r from = None → shift_rook true h' bd r from to = None)
    as Hshift.
  { intros bd h' from to E. unfold shift_rook. by rewrite E. }
  destruct Hcorner as [[-> E]|[-> E]].
  - change (Z.abs (6 - 4) =? 2) with true. change (6 - 4 =? 2) with true.
    cbv iota. rewrite Hshift; [done|].
    rewrite board_at_set_ne by (right; lia). by apply board_at_set_None.
  - change (Z.abs (2 - 4) =? 2) with true. change (2 - 4 =? 2) with false.
    change (2 - 4 =? -2) with true. cbv iota. rewrite Hshift; [done|].
    rewrite board_at_set_ne by (right; lia). by apply board_at_set_None.
Qed.

Lemma king_move_beside_an_empty_corner_raises_witness :
  reachable wandering_king
  ∧ sq_in (5, 6) (valid_moves wandering_king) = true
  ∧ board_at (board wandering_king) 5 7 = None
  ∧ step wandering_king (MouseSquare 5 6 K_q) = None.
Proof.
  split; [exact wandering_king_reachable|]. split; [vm_compute; reflexivity|].
  split; [vm_compute; reflexivity|].
  apply (king_move_beside_an_empty_corner_raises wandering_king 20%nat 5 6 K_q);
    [exact wandering_king_reachable|vm_compute; reflexivity..|].
  left. split; [reflexivity|vm_compute; reflexivity].
Defined.

(** X22.  A committed move onto a square held by a piece appends the tag
    of that piece (its name followed by ['p']) to the capture list of the
    piece's colour and leaves the other list alone; a move onto an empty
    square changes neither list. *)
Theorem capture_is_recorded (st st' : State) (sel : ref) (r c : Z)
    (key : Promotion) :
  reachable st →
  game_over st = false →
  selected_piece st = Some sel →
  sq_in (r, c) (valid_moves st) = true →
  step st (MouseSquare r c key) = Some st' →
  match board_at (board st) r c with
  | Some x =>
      let tag := name_str (name (heap st !!! x)) +:+ "p" in
      match color (heap st !!! x) with
      | W => captured_white st' = captured_white st ++ [tag]
             ∧ captured_black st' = captured_black st
      | B => captured_white st' = captured_white st
             ∧ captured_black st' = captured_black st ++ [tag]
      end
  | None => captured_white st' = captured_white st
            ∧ captured_black st' = captured_black st
  end.
Proof. apply capture_lists_after. Qed.

Lemma capture_is_recorded_witness :
  reachable promotion_ready
  ∧ step promotion_ready (MouseSquare 0 0 K_n) = Some promotion_done
  ∧ board_at (board promotion_ready) 0 0 = Some 0%nat
  ∧ name (heap promotion_ready !!! 0%nat) = Rook
  ∧ color (heap promotion_ready !!! 0%nat) = B
  ∧ captured_white promotion_done = captured_white promotion_ready
  ∧ captured_black promotion_done = captured_black promotion_ready ++ ["rp"].
Proof.
  assert (step promotion_ready (MouseSquare 0 0 K_n) = Some promotion_done) as Hstep
    by (vm_compute; reflexivity).
  split; [exact promotion_ready_reachable|]. split; [exact Hstep|].
  split; [vm_compute; reflexivity|]. split; [vm_compute; reflexivity|].
  split; [vm_compute; reflexivity|].
  exact (capture_is_recorded promotion_ready promotion_done 24%nat 0 0 K_n
           promotion_ready_reachable ltac:(vm_compute; reflexivity)
           ltac:(vm_compute; reflexivity) ltac:(vm_compute; reflexivity) Hstep).
Defined.

(** ** The sidebar *)

(** X23.  The tag recorded for a captured piece is its name followed by
    ['p'], while the images are keyed by colour followed by name: of the
    tags only a bishop's, ['bp'], is a key, that of the black pawn.  So
    [draw_sidebar] draws one more image, a black pawn, for a captured
    bishop of either colour, and none for any other piece. *)
Theorem sidebar_shows_captured_bishops_only (h : Heap) (x : ref)
    (cw cb : list string) :
  let shown := if name_eqb (name (h !!! x)) Bishop
               then [image_key (new_Piece Pawn 0 0 B)] else [] in
  let '(cw', cb') := record_capture h x cw cb in
  if color_eqb (color (h !!! x)) W
  then captured_images cw' = captured_images cw ++ shown ∧ cb' = cb
  else cw' = cw ∧ captured_images cb' = captured_images cb ++ shown.
Proof.
  unfold record_capture, captured_images.
  destruct (color_eqb (color (h !!! x)) W); cbv zeta.
  - split; [|done]. rewrite filter_app. f_equal.
    destruct (name (h !!! x)); vm_compute; reflexivity.
  - split; [done|]. rewrite filter_app. f_equal.
    destruct (name (h !!! x)); vm_compute; reflexivity.
Qed.

(** ** Invariants of the game loop *)

(** X24.  White moves first and the sides alternate: while the game is
    on, White is to move exactly when the undo stack holds an even number
    of moves. *)
Theorem sides_alternate (st : State) :
  reachable st → game_over st = false →
  turn st = side_of (length (move_stack st)).
Proof. intros Hr. by apply reachable_alternation. Qed.

Lemma sides_alternate_witness :
  reachable pawn_moved
  ∧ turn pawn_moved = side_of (length (move_stack pawn_moved))
  ∧ turn pawn_moved = B.
Proof.
  split; [exact pawn_moved_reachable|]. split; [|vm_compute; reflexivity].
  apply (sides_alternate pawn_moved); [exact pawn_moved_reachable|].
  vm_compute. reflexivity.
Defined.

(** X25.  In every state of the program the board is 8 by 8, every piece
    on it carries the coordinates of its cell, no piece stands on two
    squares, and the selected piece is on the board. *)
Theorem board_and_pieces_agree (st : State) :
  reachable st →
  grid (board st)
  ∧ placed (heap st) (board st)
  ∧ (∀ r c r' c' x, 0 ≤ r → 0 ≤ c → 0 ≤ r' → 0 ≤ c' →
       board_at (board st) r c = Some x → board_at (board st) r' c' = Some x →
       (r, c) = (r', c'))
  ∧ (∀ sel, selected_piece st = Some sel → on_bd (board st) sel).
Proof.
  intros Hr. pose proof (reachable_wf st Hr) as (_ & _ & Hg & Hp & Hsel & _).
  split; [done|]. split; [done|]. split; [|done].
  intros r c r' c' x Hr0 Hc0 Hr0' Hc0' E E'.
  destruct (Hp r c x Hr0 Hc0 E) as [<- <-].
  by destruct (Hp r' c' x Hr0' Hc0' E') as [<- <-].
Qed.

Lemma board_and_pieces_agree_witness :
  reachable pawn_moved
  ∧ grid (board pawn_moved) ∧ placed (heap pawn_moved) (board pawn_moved).
Proof.
  split; [exact pawn_moved_reachable|].
  destruct (board_and_pieces_agree pawn_moved pawn_moved_reachable)
    as (H1 & H2 & _).
  split; [exact H1|exact H2].
Defined.

(** X26.  No event changes the kind or the colour of an existing piece
    object.  In particular a pawn that is promoted stays a pawn: the
    piece on its square afterwards is another object. *)
Theorem pieces_keep_kind_and_colour (st st' : State) (ev : Event) (x : ref) :
  step st ev = Some st' →
  (x < length (heap st))%nat →
  name (heap st' !!! x) = name (heap st !!! x)
  ∧ color (heap st' !!! x) = color (heap st !!! x).
Proof.
  intros Hstep Hx. by destruct (step_identity st st' ev x Hstep Hx) as (_ & ? & ?).
Qed.

Lemma pieces_keep_kind_and_colour_witness :
  step promotion_ready (MouseSquare 0 0 K_n) = Some promotion_done
  ∧ selected_piece promotion_ready = Some 24%nat
  ∧ name (heap promotion_ready !!! 24%nat) = Pawn
  ∧ name (heap promotion_done !!! 24%nat) = name (heap promotion_ready !!! 24%nat)
  ∧ color (heap promotion_done !!! 24%nat) = color (heap promotion_ready !!! 24%nat)
  ∧ piece_at (heap promotion_done) (board promotion_done) 0 0
    = Some (new_Piece Knight 0 0 W).
Proof.
  assert (step promotion_ready (MouseSquare 0 0 K_n) = Some promotion_done) as Hstep
    by (vm_compute; reflexivity).
  split; [exact Hstep|]. split; [vm_compute; reflexivity|].
  split; [vm_compute; reflexivity|].
  destruct (pieces_keep_kind_and_colour promotion_ready promotion_done
              (MouseSquare 0 0 K_n) 24%nat Hstep) as (H1 & H2);
    [vm_compute; lia|].
  split; [exact H1|]. split; [exact H2|vm_compute; reflexivity].
Defined.

(** X27.  In every state of the program, while the game is on both
    kings are on the board and nobody has won; when it is over, somebody
    has. *)
Theorem both_kings_while_the_game_is_on (st : State) :
  reachable st →
  if game_over st then is_Some (winner st)
  else has_king (heap st) (board st) W = true
       ∧ has_king (heap st) (board st) B = true
       ∧ winner st = None.
Proof.
  intros Hr. destruct (reachable_status st Hr) as [Hst _].
  unfold status_ok, both_kings in Hst.
  destruct (game_over st); [done|]. by destruct Hst as [[? ?] ?].
Qed.

Lemma both_kings_while_the_game_is_on_witness :
  reachable pawn_moved
  ∧ has_king (heap pawn_moved) (board pawn_moved) W = true
  ∧ has_king (heap pawn_moved) (board pawn_moved) B = true
  ∧ winner pawn_moved = None.
Proof.
  split; [exact pawn_moved_reachable|].
  pose proof (both_kings_while_the_game_is_on pawn_moved pawn_moved_reachable) as H.
  change (game_over pawn_moved) with false in H. exact H.
Defined.

(** ** A new game *)

(** X28.  The R key, in any state, gives the initial position again, on
    new piece objects (the old ones are left as they are): the board shows
    what it showed at the start, White is to move, and history, capture
    lists, undo stack, selection and en-passant target are empty. *)
Theorem restart_gives_the_initial_position (st : State) :
  ∃ st', step st KeyR = Some st'
  ∧ view (heap st') (board st') = view (heap initial_state) (board initial_state)
  ∧ heap st `prefix_of` heap st'
  ∧ refs_within (length (heap st)) (length (heap st')) (board st')
  ∧ turn st' = W ∧ game_over st' = false ∧ winner st' = None
  ∧ move_history st' = [] ∧ captured_white st' = [] ∧ captured_black st' = []
  ∧ move_stack st' = [] ∧ selected_piece st' = None ∧ valid_moves st' = []
  ∧ en_passant_target st' = None.
Proof.
  exists (restart st). split; [reflexivity|]. apply restart_spec.
Qed.

(** ** Checkmate *)

(** X29.  On a board where the king of [cl] has no generated move to
    column 2 or 6, [is_checkmate] agrees with the legality test of [main]:
    it answers [True] exactly when [cl] is in check and, for every piece
    of [cl], no move generated without an en-passant target passes the
    filter of [move_puts_king_in_check]. *)
Theorem is_checkmate_agrees_with_filter (h : Heap) (bd : Board) (cl : Color) :
  refs_within 0 (length h) bd →
  (∀ piece m, Some piece ∈ concat bd →
     color (h !!! piece) = cl → name (h !!! piece) = King →
     m ∈ fst (get_valid_moves h bd piece None) → Z.abs (snd m - 4) ≠ 2) →
  is_checkmate h bd cl = Some (true, h)
  ↔ (is_in_check h bd cl = true
     ∧ ∀ piece, Some piece ∈ concat bd → color (h !!! piece) = cl →
       legal_filter h bd piece cl (fst (get_valid_moves h bd piece None)) = Some []).
Proof.
  intros Hb Hking. unfold is_checkmate.
  assert (∀ piece, Some piece ∈ concat bd → color (h !!! piece) = cl →
            Forall (fun m => in_check_after h bd piece m cl = Some true)
                   (fst (get_valid_moves h bd piece None))
            ↔ legal_filter h bd piece cl (fst (get_valid_moves h bd piece None))
              = Some []) as Hsame.
  { intros piece Hin Hcl. rewrite legal_filter_nil, !Forall_forall.
    assert (∀ m, m ∈ fst (get_valid_moves h bd piece None) →
              in_check_after h bd piece m cl
              = move_puts_king_in_check h bd piece m cl) as Heq.
    { intros m Hm. apply in_check_after_plain; [by eapply concat_allocated|].
      destruct (name_eqb (name (h !!! piece)) King) eqn:En; [|done].
      apply name_eqb_eq in En. specialize (Hking piece m Hin Hcl En Hm).
      cbn [andb]. lia. }
    split; intros Hall m Hm; [rewrite <- Heq|rewrite Heq]; auto. }
  destruct (is_in_check h bd cl); cbn [negb].
  - rewrite checkmate_scan_true, Forall_forall. split.
    + intros Hall. split; [done|]. intros piece Hin Hcl.
      apply Hsame; [done..|]. by apply (Hall (Some piece) Hin piece).
    + intros [_ Hall] [piece|] Hin; [|by intros ?].
      intros ? [= <-] Hcl. apply Hsame; [done..|]. by apply Hall.
  - split; [done|]. by intros [? _].
Qed.

Lemma is_checkmate_agrees_with_filter_witness :
  let h := heap fools_mate in
  let bd := board fools_mate in
  is_in_check h bd W = true
  ∧ is_checkmate h bd W = Some (true, h)
  ∧ checkmate_claim h bd W None
  ∧ game_over fools_mate = true ∧ winner fools_mate = Some B.
Proof.
  intros h bd. split; [vm_compute; reflexivity|]. split; [vm_compute; reflexivity|].
  split; [|split; vm_compute; reflexivity].
  apply (is_checkmate_agrees_with_filter h bd W).
  - by destruct (reachable_store_ok _ fools_mate_reachable) as [? _].
  - assert (Forall (fun cell =>
              match cell with
              | Some piece =>
                  color (h !!! piece) = W → name (h !!! piece) = King →
                  ∀ m, m ∈ fst (get_valid_moves h bd piece None) →
                       Z.abs (snd m - 4) ≠ 2
              | None => True
              end) (concat bd)) as Hall.
    { let cells := eval vm_compute in (concat bd) in
      change (concat bd) with cells.
      repeat (apply Forall_cons; split;
              [first [exact I
                     |intros Hcl; vm_compute in Hcl; discriminate Hcl
                     |intros _ Hn; vm_compute in Hn; discriminate Hn
                     |intros _ _ m Hm; vm_compute in Hm; inversion Hm]|]).
      apply Forall_nil_2. }
    intros piece m Hin Hcl Hn Hm.
    eapply Forall_forall in Hall; [|exact Hin]. by apply (Hall Hcl Hn m).
Defined.

(** ** The castling block outside castling *)

(** X30.  The castling block of the commit branch runs for every move of
    a king to column 6 or 2.  When the corner of the destination row
    (column 7, or 0) holds a piece other than the king, whatever its kind
    and colour, that piece is put on column 5 (or 3) with [has_moved] set,
    and the corner is emptied.  A piece that stood on column 5 (or 3) is
    overwritten: it is on no square afterwards, and the capture lists,
    which gain the tag of the piece on the king's destination and nothing
    else, do not show it. *)
Theorem king_move_drags_the_corner_piece (st st' : State) (sel y : ref)
    (r c from to : Z) (key : Promotion) :
  let me := heap st !!! sel in
  reachable st →
  game_over st = false →
  selected_piece st = Some sel →
  name me = King →
  (c = 6 ∧ from = 7 ∧ to = 5) ∨ (c = 2 ∧ from = 0 ∧ to = 3) →
  sq_in (r, c) (valid_moves st) = true →
  board_at (board st) r from = Some y → y ≠ sel →
  step st (MouseSquare r c key) = Some st' →
  piece_at (heap st') (board st') r from = None
  ∧ piece_at (heap st') (board st') r to
    = Some (with_moved true (with_pos r to (heap st !!! y)))
  ∧ piece_at (heap st') (board st') r c
    = Some (with_moved true (with_pos r c me))
  ∧ (∀ z, board_at (board st) r to = Some z → z ≠ sel → ¬ on_bd (board st') z)
  ∧ match board_at (board st) r c with
    | Some x =>
        let tag := name_str (name (heap st !!! x)) +:+ "p" in
        match color (heap st !!! x) with
        | W => captured_white st' = captured_white st ++ [tag]
               ∧ captured_black st' = captured_black st
        | B => captured_white st' = captured_white st
               ∧ captured_black st' = captured_black st ++ [tag]
        end
    | None => captured_white st' = captured_white st
              ∧ captured_black st' = captured_black st
    end.
Proof.
  intros me Hr Hover Hsel Hking Hside Hin Ey Hysel Hstep.
  pose proof (capture_lists_after st st' sel r c key Hr Hover Hsel Hin Hstep)
    as Hlists.
  simpl in Hstep. rewrite Hover in Hstep. unfold click in Hstep.
  rewrite Hsel, Hin in Hstep. apply sq_in_In in Hin.
  destruct (highlighted_move_facts st sel r c Hr Hsel Hin)
    as (Hlt & Hat & Hon0 & Hon & Hne & _ & Hep).
  fold me in Hat, Hon0, Hne.
  pose proof (reachable_wf st Hr) as ((Hb & _) & _ & Hg & Hp & _).
  apply on_board_iff in Hon0 as Hon0', Hon as Hon'.
  assert (0 ≤ from < 8 ∧ 0 ≤ to < 8 ∧ from ≠ c ∧ from ≠ to ∧ to ≠ c)
    as (Hf8 & Ht8 & Hfc & Hft & Htc)
    by (destruct Hside as [(-> & -> & ->)|(-> & -> & ->)]; lia).
  pose proof (refs_within_at _ _ _ _ _ _ Hb Ey) as Hyl.
  destruct (Hp r from y ltac:(lia) ltac:(lia) Ey) as [Ey1 Ey2].
  apply commit_moved in Hstep as (h & mv & Hpre & Em & -> & -> & _).
  assert (h !!! sel = me) as Esel by (by apply lookup_total_prefix).
  pose proof (prefix_length _ _ Hpre) as Hlen.
  rewrite Hep in Em.
  set (bd2 := board_set (board_set (board st) (row me) (col me) None) r c (Some sel)).
  assert ((r, from) ≠ (row me, col me)) as Hfrom
    by (intros [= E1 E2]; rewrite E1, E2 in Ey; congruence).
  assert (board_at bd2 r from = Some y) as Ey3
    by (unfold bd2; rewrite !board_at_set_other; (done || lia || congruence)).
  destruct (move_piece_castle h (board st) sel y r c from to key
              (captured_white st) (captured_black st)) as (cw' & cb' & Em');
    [by rewrite Esel|done|by rewrite Esel| ].
  rewrite Esel in Em'. fold bd2 in Em'. rewrite Em' in Em.
  injection Em as <-. cbn [mv_heap mv_board].
  set (h2 := set_moved (set_pos h sel r c) sel true).
  set (h3 := set_moved (set_pos h2 y r to) y true).
  assert (length h2 = length h) as Hl2
    by (unfold h2; by rewrite length_set_moved, length_set_pos).
  assert (grid bd2) as Hg2 by (unfold bd2; by do 2 apply grid_set).
  split; [|split; [|split; [|split; [|exact Hlists]]]].
  - unfold piece_at. rewrite board_at_set_other by (lia || congruence).
    by rewrite board_at_set_same by (done || (apply on_board_iff; lia)).
  - unfold piece_at.
    rewrite board_at_set_same; [|by apply grid_set|apply on_board_iff; lia].
    cbn [option_map]. f_equal. unfold h3. rewrite moved_piece_lookup by lia.
    unfold h2. rewrite set_moved_other, set_pos_other by done.
    by rewrite (lookup_total_prefix _ _ _ Hpre) by lia.
  - unfold piece_at. rewrite !board_at_set_other by (lia || congruence).
    unfold bd2. rewrite board_at_set_same by (by apply grid_set || done).
    cbn [option_map]. f_equal. unfold h3.
    rewrite set_moved_other, set_pos_other by done.
    unfold h2. rewrite moved_piece_lookup by lia. by rewrite Esel.
  - intros z Ez Hz (r' & c' & Hr' & Hc' & E').
    destruct (Hp r to z ltac:(lia) ltac:(lia) Ez) as [Ez1 Ez2].
    assert (z ≠ y) as Hzy by (intros ->; lia).
    destruct (decide ((r', c') = (r, to))) as [[= -> ->]|N1].
    { rewrite board_at_set_same in E';
        [congruence|by apply grid_set|apply on_board_iff; lia]. }
    rewrite board_at_set_other in E' by (lia || congruence).
    destruct (decide ((r', c') = (r, from))) as [[= -> ->]|N2].
    { rewrite board_at_set_same in E'; [done|done|apply on_board_iff; lia]. }
    rewrite board_at_set_other in E' by (lia || congruence).
    unfold bd2 in E'.
    destruct (decide ((r', c') = (r, c))) as [[= -> ->]|N3].
    { rewrite board_at_set_same in E'; [congruence|by apply grid_set|done]. }
    rewrite board_at_set_other in E' by (lia || congruence).
    destruct (decide ((r', c') = (row me, col me))) as [[= -> ->]|N4].
    { rewrite board_at_set_same in E'; done. }
    rewrite board_at_set_other in E' by (lia || congruence).
    destruct (Hp r' c' z Hr' Hc' E') as [E1 E2]. apply N1. congruence.
Qed.

Lemma king_move_drags_the_corner_piece_witness :
  reachable dragged_rook_ready
  ∧ step dragged_rook_ready (MouseSquare 7 6 K_q) = Some dragged_rook_done
  ∧ piece_at (heap dragged_rook_ready) (board dragged_rook_ready) 6 5
    = Some (mkPiece King 6 5 W true)
  ∧ piece_at (heap dragged_rook_ready) (board dragged_rook_ready) 7 5
    = Some (mkPiece Bishop 7 5 W false)
  ∧ piece_at (heap dragged_rook_done) (board dragged_rook_done) 7 7 = None
  ∧ piece_at (heap dragged_rook_done) (board dragged_rook_done) 7 5
    = Some (mkPiece Rook 7 5 W true)
  ∧ piece_at (heap dragged_rook_done) (board dragged_rook_done) 7 6
    = Some (mkPiece King 7 6 W true)
  ∧ ¬ on_bd (board dragged_rook_done) 21%nat
  ∧ captured_white dragged_rook_done = []
  ∧ captured_black dragged_rook_done = [].
Proof.
  assert (step dragged_rook_ready (MouseSquare 7 6 K_q) = Some dragged_rook_done)
    as Hstep by (vm_compute; reflexivity).
  split; [exact dragged_rook_ready_reachable|]. split; [exact Hstep|].
  split; [vm_compute; reflexivity|]. split; [vm_compute; reflexivity|].
  destruct (king_move_drags_the_corner_piece dragged_rook_ready dragged_rook_done
              20%nat 23%nat 7 6 7 5 K_q dragged_rook_ready_reachable)
    as (H1 & H2 & H3 & H4 & H5);
    [vm_compute; reflexivity|vm_compute; reflexivity|vm_compute; reflexivity|
     left; repeat split|vm_compute; reflexivity|vm_compute; reflexivity|
     discriminate|exact Hstep|].
  split; [exact H1|]. split; [exact H2|]. split; [exact H3|].
  split; [apply (H4 21%nat); [vm_compute; reflexivity|discriminate]|].
  exact H5.
Defined.
